(** * Review reconciliation and notification pipeline (main.go)

    A shallow embedding of the Go program: the review record, the rating
    filter, the per-review reconciliation loop of [main], the webhook
    notifier [sendToWebhook] and the CSV state store
    ([readExistingReviews], [saveReviews]).

    - Go strings are byte strings and are modelled by [string]; Go [int]
      and [int64] values are modelled by [Z] (on a 64-bit platform
      [int(int64)] is the identity).
    - The Go map [map[string]Review] is a [gmap string Review].
    - A piece of the program is a function from the state of the world
      (the state file, the disk, the log, the requests made, the time
      slept) to an outcome and a new state; panics and [log.Fatalf] are
      outcomes.
    - The state file is a byte string.  Writing goes through models of
      [encoding/csv] and [bufio]; a disk that runs out of room makes a
      write fail.  Reading takes the CSV reader, and the two time
      layouts, as parameters ([Library]).

    The definitions come first, then the properties of the notifier, the
    loop, the state store and the driver, then the claims C1 to C10. *)

From Stdlib Require Import ZArith Ascii String List Lia.
From stdpp Require Import base option list strings gmap fin_maps pretty.

Local Open Scope string_scope.
Local Open Scope Z_scope.

(** ** Outcomes of running a piece of the program *)

Module Outcome.

(** A Go function either returns, or the process stops: [log.Fatalf]
    exits with status 1, a run-time panic crashes the process. *)
Inductive outcome (A : Type) : Type :=
| Done (a : A)
| Fatal (msg : string)
| Panicked (msg : string).

Arguments Done {A} a.
Arguments Fatal {A} msg.
Arguments Panicked {A} msg.

Definition bind {A B} (m : outcome A) (k : A -> outcome B) : outcome B :=
  match m with
  | Done a => k a
  | Fatal msg => Fatal msg
  | Panicked msg => Panicked msg
  end.

Definition is_done {A} (m : outcome A) : bool :=
  match m with Done _ => true | _ => false end.

End Outcome.
Export Outcome.

#[global] Instance outcome_ret : MRet outcome := @Done.
#[global] Instance outcome_bind : MBind outcome := fun A B k m => Outcome.bind m k.

(** ** Pieces of the Go standard library the program calls *)

Module GoLib.

Definition nl : ascii := "010"%char.
Definition cr : ascii := "013"%char.
Definition dquote : ascii := "034"%char.

(** [strconv.FormatBool]. *)
Definition FormatBool (b : bool) : string := if b then "true" else "false".

(** [strconv.ParseBool]: the accepted spellings; anything else is an
    error. *)
Definition ParseBool (s : string) : option bool :=
  if bool_decide (s ∈ ["1"; "t"; "T"; "TRUE"; "true"; "True"]) then Some true
  else if bool_decide (s ∈ ["0"; "f"; "F"; "FALSE"; "false"; "False"]) then Some false
  else None.

(** [strconv.Itoa]. *)
Definition Itoa (n : Z) : string := pretty n.

Definition maxInt : Z := 2 ^ 63 - 1.
Definition minInt : Z := - 2 ^ 63.

Definition digit_of (c : ascii) : option Z :=
  let n := Z.of_nat (nat_of_ascii c) in
  if ((48 <=? n) && (n <=? 57))%Z then Some (n - 48) else None.

(** [strconv.ParseUint] in base 10 with 64 bits: a syntax error, a
    range error, or the value. *)
Inductive parsed : Type :=
| SyntaxError
| RangeError
| Parsed (n : Z).

Definition maxUint64 : Z := 2 ^ 64 - 1.

(** The loop of [ParseUint] over the bytes, [n] being the value so far.
    A byte that is no digit is a syntax error; the range error is
    returned at the first digit that makes the value overflow, before the
    bytes after it are looked at. *)
Fixpoint digits_value (n : Z) (s : string) : parsed :=
  match s with
  | EmptyString => Parsed n
  | String c s' =>
      match digit_of c with
      | None => SyntaxError
      | Some d =>
          if maxUint64 / 10 + 1 <=? n then RangeError
          else
            let n1 := n * 10 + d in
            if maxUint64 <? n1 then RangeError else digits_value n1 s'
      end
  end.

Definition ParseUint (s : string) : parsed :=
  match s with
  | EmptyString => SyntaxError
  | _ => digits_value 0 s
  end.

(** [strconv.ParseInt] in base 10 for the size of [int], after the sign
    has been taken off: the value and whether the error is nil.  A
    syntax error returns 0; a value out of the range of [int] returns
    the nearest bound together with a range error. *)
Definition signed_value (neg : bool) (ds : string) : Z * bool :=
  match ParseUint ds with
  | SyntaxError => (0, false)
  | RangeError => (if neg then minInt else maxInt, false)
  | Parsed un =>
      if negb neg && (maxInt <? un) then (maxInt, false)
      else if neg && (- minInt <? un) then (minInt, false)
      else (if neg then - un else un, true)
  end.

(** [strconv.Atoi], as a pair of the returned value and whether the error
    is nil (the fast path of [Atoi] for short strings gives the results
    of [ParseInt]). *)
Definition Atoi (s : string) : Z * bool :=
  match s with
  | EmptyString => (0, false)
  | String c ds =>
      if bool_decide (c = "+"%char) then signed_value false ds
      else if bool_decide (c = "-"%char) then signed_value true ds
      else signed_value false s
  end.

(** The star glyph U+2B50 is three bytes in UTF-8. *)
Definition star : string :=
  String "226" (String "173" (String "144" EmptyString)).

Fixpoint repeat_string (s : string) (n : nat) : string :=
  match n with
  | O => ""
  | S n' => s +:+ repeat_string s n'
  end.

(** [strings.Repeat]: panics on a negative count and when the length of
    the result overflows [int] (counts that no memory holds; the exact
    bound of the second check varies with the version of Go). *)
Definition Repeat (s : string) (count : Z) : outcome string :=
  if count <? 0 then Panicked "strings: negative Repeat count"
  else if maxInt <? Z.of_nat (String.length s) * count
       then Panicked "strings: Repeat output length overflow"
  else Done (repeat_string s (Z.to_nat count)).

Definition has_prefix (p s : string) : bool :=
  bool_decide (String.substring 0 (String.length p) s = p).

(** The UTF-8 encodings of the code points for which [unicode.IsSpace]
    holds: tab, line feed, vertical tab, form feed, carriage return,
    space, U+0085, U+00A0, U+1680, U+2000 to U+200A, U+2028, U+2029,
    U+202F, U+205F and U+3000. *)
Definition space_encodings : list string :=
  let b1 (a : ascii) := String a EmptyString in
  let b2 (a b : ascii) := String a (String b EmptyString) in
  let b3 (a b c : ascii) := String a (String b (String c EmptyString)) in
  [ b1 "009"; b1 "010"; b1 "011"; b1 "012"; b1 "013"; b1 "032";
    b2 "194" "133"; b2 "194" "160"; b3 "225" "154" "128";
    b3 "226" "128" "128"; b3 "226" "128" "129"; b3 "226" "128" "130";
    b3 "226" "128" "131"; b3 "226" "128" "132"; b3 "226" "128" "133";
    b3 "226" "128" "134"; b3 "226" "128" "135"; b3 "226" "128" "136";
    b3 "226" "128" "137"; b3 "226" "128" "138"; b3 "226" "128" "168";
    b3 "226" "128" "169"; b3 "226" "128" "175"; b3 "226" "129" "159";
    b3 "227" "128" "128" ]%char.

(** The number of bytes of the white-space rune the string starts with,
    if it starts with one. *)
Definition leading_space (encs : list string) (s : string) : option nat :=
  String.length <$> List.find (fun e => has_prefix e s) encs.

Fixpoint trim_left (encs : list string) (fuel : nat) (s : string) : string :=
  match fuel with
  | O => s
  | S fuel' =>
      match leading_space encs s with
      | Some n => trim_left encs fuel' (String.substring n (String.length s - n) s)
      | None => s
      end
  end.

Definition TrimLeftSpace (s : string) : string :=
  trim_left space_encodings (String.length s) s.

(** [strings.TrimSpace]: all leading and trailing white-space runes
    removed.  The trailing ones are found on the reversed bytes. *)
Definition TrimSpace (s : string) : string :=
  let l := TrimLeftSpace s in
  String.rev (trim_left (String.rev <$> space_encodings) (String.length l) (String.rev l)).

(** [strings.Split] for a separator of one byte. *)
Fixpoint Split (sep : ascii) (s : string) : list string :=
  match s with
  | EmptyString => [EmptyString]
  | String c rest =>
      if bool_decide (c = sep) then EmptyString :: Split sep rest
      else
        match Split sep rest with
        | field :: fields => String c field :: fields
        | [] => [String c EmptyString]
        end
  end.

(** A [time.Duration] counts nanoseconds. *)
Definition Second : Z := 1000000000.

(** What the program takes from the packages [time] and [encoding/csv]:
    a [time.Time] is represented by its Unix seconds; the layouts
    [time.RFC3339] and [time.RFC1123] and the CSV reader are parameters.
    [csv_ReadAll] is [csv.NewReader(file).ReadAll()] on the bytes of the
    file: the records, or [None] for a parse error. *)
Class Library := {
  format_RFC3339 : Z -> string;
  format_RFC1123 : Z -> string;
  parse_RFC3339 : string -> option Z;
  csv_ReadAll : string -> option (list (list string));
}.

(** The zero [time.Time] (January 1, year 1, UTC), in Unix seconds. *)
Definition zero_time : Z := -62135596800.

End GoLib.
Export GoLib.

(** ** Data model *)

(** [Review]: a single review from the Play Store, the unit of state. *)
Record Review := {
  ReviewID : string;
  Rating : Z;
  Text : string;
  Author : string;
  Device : string;
  Date : Z;
  Notified : bool;
}.

(** [RatingRange]: a range of ratings to filter. *)
Record RatingRange := {
  Start : Z;
  End_ : Z;
}.

(** The configuration variables of the program. *)
Record Config := {
  packageName : string;
  webhookURL : string;
  keyPath : string;
  reviewsCSV : string;
  logDir : string;
  testMode : bool;
}.

(** The review objects of the package [androidpublisher], as far as
    [main] reads them.  Pointer fields are options: [None] is [nil]. *)
Module Api.

Record device_metadata := { ProductName : string }.

Record timestamp := { Seconds : Z }.

Record user_comment := {
  StarRating : Z;
  Text : string;
  DeviceMetadata : option device_metadata;
  LastModified : option timestamp;
}.

Record comment := { UserComment : option user_comment }.

Record review := {
  ReviewId : string;
  AuthorName : string;
  Comments : list comment;
}.

End Api.

(** ** The world the program acts on *)

Inductive error : Type :=
| ErrSendWebhook
| ErrStatusCode (code : Z)
| ErrOpenCSV
| ErrReadCSV
| ErrCreateCSV
| ErrWriteHeader
| ErrWriteRecord
| ErrRangeFormat
| ErrStartRating
| ErrEndRating
| ErrRangeBounds
| ErrRangeOrder.

(** What [http.Post] gives back: a transport error or a response with a
    status code. *)
Inductive PostResult : Type :=
| TransportError
| Response (StatusCode : Z).

(** The lines the program writes to its log. *)
Inductive LogEntry : Type :=
| LogTestMode (text : string)
| LogSendFailed (id : string) (err : error)
| LogFound (n : nat)
| LogFetched (n : nat)
| LogNewReviews
| LogNewReview (i : nat) (stars text author device date : string)
| LogNoNewReviews
| LogFetchFailed
| LogPackageName (name : string)
| LogFatal (msg : string).

(** The mutable state outside the process:
    - [csv_file]: the bytes of the file [reviewsCSV], [None] when it does
      not exist;
    - [disk_room]: how many more bytes the disk accepts, [None] for no
      limit; a write beyond it stores what fits and fails;
    - [slept]: the total time spent in [time.Sleep];
    - [logged]: the log, oldest entry first;
    - [posted]: the requests made with [http.Post], oldest first, each
      with its URL and the text of the message. *)
Record Sys := {
  csv_file : option string;
  disk_room : option nat;
  slept : Z;
  logged : list LogEntry;
  posted : list (string * string);
}.

(** What the environment decides: the answer to the [k]-th request
    (counting from 0), and whether opening or creating the CSV file
    fails. *)
Record Env := {
  net : nat -> PostResult;
  open_fails : bool;
  create_fails : bool;
}.

Definition add_log (e : LogEntry) (s : Sys) : Sys :=
  {| csv_file := csv_file s; disk_room := disk_room s; slept := slept s;
     logged := logged s ++ [e]; posted := posted s |}.

Definition add_sleep (d : Z) (s : Sys) : Sys :=
  {| csv_file := csv_file s; disk_room := disk_room s; slept := slept s + d;
     logged := logged s; posted := posted s |}.

Definition add_post (url text : string) (s : Sys) : Sys :=
  {| csv_file := csv_file s; disk_room := disk_room s; slept := slept s;
     logged := logged s; posted := posted s ++ [(url, text)] |}.

Definition set_file (c : option string) (room : option nat) (s : Sys) : Sys :=
  {| csv_file := c; disk_room := room; slept := slept s;
     logged := logged s; posted := posted s |}.

(** A piece of the program: from a state of the world to an outcome and
    the state it leaves.  The state survives a fatal exit and a panic. *)
Definition prog (A : Type) : Type := Sys -> outcome A * Sys.

#[global] Instance prog_ret : MRet prog := fun A a s => (Done a, s).

#[global] Instance prog_bind : MBind prog := fun A B k m s =>
  match m s with
  | (Done a, s') => k a s'
  | (Fatal msg, s') => (Fatal msg, s')
  | (Panicked msg, s') => (Panicked msg, s')
  end.

Definition lift {A} (o : outcome A) : prog A := fun s => (o, s).

Definition modify (f : Sys -> Sys) : prog unit := fun s => (Done tt, f s).

(** [log.Printf], [log.Fatalf], [time.Sleep]. *)
Definition log_Printf (e : LogEntry) : prog unit := modify (add_log e).
Definition log_Fatalf {A} (msg : string) : prog A := fun s =>
  (Fatal msg, add_log (LogFatal msg) s).
Definition time_Sleep (d : Z) : prog unit := modify (add_sleep d).

(** [http.Post]: the request is recorded, the environment answers. *)
Definition http_Post (env : Env) (url text : string) : prog PostResult := fun s =>
  (Done (net env (length (posted s))), add_post url text s).

(** [s[0]] on a slice and [p.f] on a pointer. *)
Definition index0 {A} (l : list A) : outcome A :=
  match l with
  | x :: _ => Done x
  | [] => Panicked "runtime error: index out of range [0] with length 0"
  end.

Definition deref {A} (p : option A) : outcome A :=
  match p with
  | Some x => Done x
  | None => Panicked "runtime error: invalid memory address or nil pointer dereference"
  end.

(** ** The notifier *)

Section Program.

Context `{Library}.
Variable cfg : Config.
Variable env : Env.

(** The text of the notification, [fmt.Sprintf] of the format in
    [sendToWebhook]. *)
Definition message_text (stars : string) (review : Review) : string :=
  "*New Review*" +:+ String nl "Rating: " +:+ stars +:+ " (" +:+ Itoa (Rating review)
  +:+ ")" +:+ String nl "Review: " +:+ Text review
  +:+ String nl "Author: " +:+ Author review
  +:+ String nl "Device: " +:+ Device review
  +:+ String nl "Date: " +:+ format_RFC1123 (Date review).

(** [sendToWebhook] sends a review to the webhook.  The result is the
    returned error, [None] for [nil].  [json.Marshal] of a map from
    strings to strings does not fail, so that error branch is absent; the
    request is recorded with the text it carries. *)
Definition sendToWebhook (review : Review) : prog (option error) :=
  stars ← lift (Repeat star (Rating review));
  let text := message_text stars review in
  if testMode cfg then
    log_Printf (LogTestMode text);;
    time_Sleep (2 * Second);;
    mret None
  else
    resp ← http_Post env (webhookURL cfg) text;
    match resp with
    | TransportError => mret (Some ErrSendWebhook)
    | Response StatusCode =>
        if bool_decide (StatusCode ≠ 200) then mret (Some (ErrStatusCode StatusCode))
        else
          time_Sleep (2 * Second);;
          mret None
    end.

(** [parseRatingRange] parses the rating range from the command line
    arguments [os.Args]: no range, a range, or an error. *)
Definition parseRatingRange (args : list string) : error + option RatingRange :=
  match args with
  | _ :: arg :: _ =>
      match Split "-" arg with
      | [part0; part1] =>
          let '(start, ok0) := Atoi part0 in
          if negb ok0 then inl ErrStartRating
          else
            let '(end_, ok1) := Atoi part1 in
            if negb ok1 then inl ErrEndRating
            else if (start <? 1) || (5 <? start) || (end_ <? 1) || (5 <? end_)
                 then inl ErrRangeBounds
            else if end_ <? start then inl ErrRangeOrder
            else inr (Some {| Start := start; End_ := end_ |})
      | _ => inl ErrRangeFormat
      end
  | _ => inr None
  end.

(** [cleanText] removes leading and trailing whitespace from text. *)
Definition cleanText (text : string) : string := TrimSpace text.

(** ** The reconciliation loop of [main] *)

(** The condition of the [continue] at the head of the loop body: the
    rating is outside the configured range. *)
Definition out_of_range (ratingRange : option RatingRange) (rating : Z) : bool :=
  match ratingRange with
  | Some r => (rating <? Start r) || (End_ r <? rating)
  | None => false
  end.

(** The variables the loop updates: the map [existingReviews] and the
    slice [newReviews]. *)
Definition loop_vars : Type := gmap string Review * list Review.

(** The device name: "Unknown" when the metadata is missing. *)
Definition device_of (uc : Api.user_comment) : string :=
  match Api.DeviceMetadata uc with
  | Some d => Api.ProductName d
  | None => "Unknown"
  end.

(** The struct literal [Review{...}] of the loop body, [Notified: false]. *)
Definition new_review (review : Api.review) (uc : Api.user_comment)
    (lm : Api.timestamp) : Review :=
  {| ReviewID := Api.ReviewId review;
     Rating := Api.StarRating uc;
     Text := cleanText (Api.Text uc);
     Author := Api.AuthorName review;
     Device := device_of uc;
     Date := Api.Seconds lm;
     Notified := false |}.

(** The assignment [newReview.Notified = true]. *)
Definition set_Notified (review : Review) : Review :=
  {| ReviewID := ReviewID review; Rating := Rating review; Text := Text review;
     Author := Author review; Device := Device review; Date := Date review;
     Notified := true |}.

(** The condition [!exists || !existingReview.Notified]. *)
Definition unnotified (existingReviews : gmap string Review) (id : string) : bool :=
  match existingReviews !! id with
  | Some existingReview => negb (Notified existingReview)
  | None => true
  end.

(** One iteration of [for _, review := range reviews.Reviews]. *)
Definition loop_body (ratingRange : option RatingRange) (vars : loop_vars)
    (review : Api.review) : prog loop_vars :=
  let '(existingReviews, newReviews) := vars in
  c0 ← lift (index0 (Api.Comments review));
  uc ← lift (deref (Api.UserComment c0));
  let rating := Api.StarRating uc in
  if out_of_range ratingRange rating then mret vars
  else
    if unnotified existingReviews (Api.ReviewId review) then
      lm ← lift (deref (Api.LastModified uc));
      let newReview := new_review review uc lm in
      err ← sendToWebhook newReview;
      match err with
      | Some e =>
          log_Printf (LogSendFailed (Api.ReviewId review) e);;
          mret vars
      | None =>
          let newReview := set_Notified newReview in
          mret (<[Api.ReviewId review := newReview]> existingReviews,
                (newReviews ++ [newReview])%list)
      end
    else mret vars.

(** The whole loop over the fetched reviews, in fetch order. *)
Fixpoint reconcile (ratingRange : option RatingRange) (vars : loop_vars)
    (reviews : list Api.review) : prog loop_vars :=
  match reviews with
  | [] => mret vars
  | review :: rest =>
      vars' ← loop_body ratingRange vars review;
      reconcile ratingRange vars' rest
  end.

(** ** The state store *)

(** *** Writing CSV: [encoding/csv] on top of [bufio] *)

(** [csv.Writer.fieldNeedsQuotes] for the default comma. *)
Definition fieldNeedsQuotes (field : string) : bool :=
  if bool_decide (field = "") then false
  else if bool_decide (field = "\.") then true
  else if existsb (fun c => bool_decide (c ∈ [","%char; dquote; cr; nl]))
            (list_ascii_of_string field) then true
  else bool_decide (is_Some (leading_space space_encodings field)).

(** Inside quotes a quote is doubled; with [UseCRLF] unset, carriage
    returns and line feeds are written as they are. *)
Fixpoint quoted_body (field : string) : string :=
  match field with
  | EmptyString => EmptyString
  | String c rest =>
      if bool_decide (c = dquote) then String dquote (String dquote (quoted_body rest))
      else String c (quoted_body rest)
  end.

Definition csv_field (field : string) : string :=
  if fieldNeedsQuotes field
  then String dquote (quoted_body field) +:+ String dquote EmptyString
  else field.

Fixpoint csv_fields (record : list string) : string :=
  match record with
  | [] => ""
  | [field] => csv_field field
  | field :: rest => csv_field field +:+ "," +:+ csv_fields rest
  end.

(** The bytes [csv.Writer.Write] produces for one record. *)
Definition csv_line (record : list string) : string :=
  csv_fields record +:+ String nl EmptyString.

(** [os.File.Write] on the CSV file, open for writing at its end: the
    bytes are appended as far as the disk has room; the result tells
    whether all of them were written. *)
Definition file_Write (p : string) : Sys -> bool * Sys := fun s =>
  let content := default "" (csv_file s) in
  match disk_room s with
  | None => (true, set_file (Some (content +:+ p)) None s)
  | Some room =>
      if (String.length p <=? room)%nat
      then (true, set_file (Some (content +:+ p)) (Some (room - String.length p)%nat) s)
      else (false, set_file (Some (content +:+ String.substring 0 room p)) (Some 0%nat) s)
  end.

(** A [bufio.Writer] of the default size on the CSV file: the bytes not
    yet written and whether a write has failed (the error is sticky). *)
Record Writer := {
  buf : string;
  failed : bool;
}.

Definition defaultBufSize : nat := 4096.

Definition NewWriter : Writer := {| buf := ""; failed := false |}.

(** [bufio.Writer.Flush].  After a failed write the buffer is not written
    again, so what it still holds does not matter. *)
Definition bufio_Flush (b : Writer) : Sys -> Writer * Sys := fun s =>
  if failed b then (b, s)
  else if bool_decide (buf b = "") then (b, s)
  else
    let '(ok, s') := file_Write (buf b) s in
    if ok then ({| buf := ""; failed := false |}, s')
    else ({| buf := buf b; failed := true |}, s').

(** [bufio.Writer.WriteByte]: a full buffer is flushed first. *)
Definition bufio_WriteByte (c : ascii) (b : Writer) : Sys -> Writer * Sys := fun s =>
  if failed b then (b, s)
  else
    let '(b', s') :=
      if (defaultBufSize <=? String.length (buf b))%nat then bufio_Flush b s else (b, s) in
    if failed b' then (b', s')
    else ({| buf := buf b' +:+ String c EmptyString; failed := false |}, s').

(** The large write of [bufio.Writer.WriteString]: with nothing buffered,
    a string that does not fit the buffer is handed to [os.File] as it
    is. *)
Definition forward_write (p : string) : Sys -> Writer * Sys := fun s =>
  let '(ok, s') := file_Write p s in
  ({| buf := ""; failed := negb ok |}, s').

(** [bufio.Writer.WriteString].  While the string does not fit what is
    free in the buffer and no write has failed: with an empty buffer the
    string goes to the file in one write; otherwise the buffer is filled
    up and flushed.  What is left at the end is copied to the buffer.
    The loop turns at most twice, since a flush that succeeds leaves the
    buffer empty; it is written out here. *)
Definition bufio_WriteString (p : string) (b : Writer) : Sys -> Writer * Sys := fun s =>
  if failed b then (b, s)
  else
    let avail := (defaultBufSize - String.length (buf b))%nat in
    if (String.length p <=? avail)%nat
    then ({| buf := buf b +:+ p; failed := false |}, s)
    else if bool_decide (buf b = "") then forward_write p s
    else
      let filled := {| buf := buf b +:+ String.substring 0 avail p; failed := false |} in
      let rest := String.substring avail (String.length p - avail) p in
      let '(b1, s1) := bufio_Flush filled s in
      if failed b1 then (b1, s1)
      else if (String.length rest <=? defaultBufSize)%nat
           then ({| buf := rest; failed := false |}, s1)
      else forward_write rest s1.

(** The calls [csv.Writer.Write] makes for a field in quotes: the
    stretches between quotes, carriage returns and line feeds go out by
    [WriteString], each of these bytes in a call of its own, a quote
    doubled.  [seg] is the stretch read so far. *)
Fixpoint quoted_pieces (seg field : string) : list string :=
  match field with
  | EmptyString => if bool_decide (seg = "") then [] else [seg]
  | String c rest =>
      if bool_decide (c = dquote)
      then seg :: String dquote (String dquote EmptyString) :: quoted_pieces "" rest
      else if bool_decide (c ∈ [cr; nl])
      then seg :: String c EmptyString :: quoted_pieces "" rest
      else quoted_pieces (seg +:+ String c EmptyString) rest
  end.

Definition field_pieces (field : string) : list string :=
  if fieldNeedsQuotes field
  then String dquote EmptyString :: quoted_pieces "" field ++ [String dquote EmptyString]
  else [field].

(** The calls for the fields of a record, a comma before each but the
    first. *)
Fixpoint fields_pieces (first : bool) (record : list string) : list string :=
  match record with
  | [] => []
  | field :: rest =>
      (if first then [] else [","]) ++ field_pieces field ++ fields_pieces false rest
  end.

(** The strings [csv.Writer.Write] hands to the buffered writer for a
    record, in order.  A single byte stands for a call of [WriteByte] or
    [WriteRune], which do to the buffer what [WriteString] does with a
    string of one byte. *)
Definition csv_pieces (record : list string) : list string :=
  fields_pieces true record ++ [String nl EmptyString].

Fixpoint write_pieces (pieces : list string) (b : Writer) : Sys -> Writer * Sys := fun s =>
  match pieces with
  | [] => (b, s)
  | p :: rest =>
      let '(b', s') := bufio_WriteString p b s in
      write_pieces rest b' s'
  end.

(** [csv.Writer.Write]: the record goes through the buffered writer; the
    result is the writer and whether an error is returned.  [Write]
    returns at the first call that fails; the calls after a failure
    would do nothing, the error of the buffered writer being sticky. *)
Definition csv_Write (record : list string) (b : Writer) : prog (Writer * bool) := fun s =>
  let '(b', s') := write_pieces (csv_pieces record) b s in
  (Done (b', failed b'), s').

(** [csv.Writer.Flush]; the error of the flush is not looked at. *)
Definition csv_Flush (b : Writer) : prog unit := fun s =>
  (Done tt, (bufio_Flush b s).2).

(** [os.Create]: creates the file or truncates it. *)
Definition os_Create : prog bool := fun s =>
  if create_fails env then (Done false, s)
  else (Done true, set_file (Some "") (disk_room s) s).

Definition header : list string :=
  ["Review ID"; "Rating"; "Review Text"; "Author"; "Device"; "Date"; "Notified"].

(** The record written for a review. *)
Definition record_of (review : Review) : list string :=
  [ ReviewID review; Itoa (Rating review); Text review; Author review;
    Device review; format_RFC3339 (Date review); FormatBool (Notified review) ].

(** The loop [for _, review := range reviews] of [saveReviews]: stops at
    the first record whose write returns an error. *)
Fixpoint write_records (reviews : list Review) (writer : Writer) : prog (Writer * bool) :=
  match reviews with
  | [] => mret (writer, false)
  | review :: rest =>
      '(writer, err) ← csv_Write (record_of review) writer;
      if err : bool then mret (writer, true)
      else write_records rest writer
  end.

(** [saveReviews] saves reviews to the CSV file.  The deferred
    [writer.Flush()] runs on every return after the writer is made (the
    deferred [file.Close()] has no effect here). *)
Definition saveReviews (reviews : list Review) : prog (option error) :=
  created ← os_Create;
  if negb created then mret (Some ErrCreateCSV)
  else
    let writer := NewWriter in
    '(writer, err) ← csv_Write header writer;
    if err : bool then
      csv_Flush writer;;
      mret (Some ErrWriteHeader)
    else
      '(writer, err) ← write_records reviews writer;
      csv_Flush writer;;
      mret (if err : bool then Some ErrWriteRecord else None).

(** *** Reading CSV *)

(** [record[i]] on a slice of strings. *)
Definition index (record : list string) (i : nat) : outcome string :=
  match record !! i with
  | Some field => Done field
  | None =>
      Panicked ("runtime error: index out of range [" +:+ pretty i +:+ "] with length "
                +:+ pretty (length record))
  end.

(** The body of the loop of [readExistingReviews]: parse errors of the
    date, the flag and the rating are dropped and leave the zero value. *)
Definition load_record (reviews : gmap string Review) (record : list string)
    : outcome (gmap string Review) :=
  f5 ← index record 5;
  let date := default zero_time (parse_RFC3339 f5) in
  f6 ← index record 6;
  let notified := default false (ParseBool f6) in
  f1 ← index record 1;
  let rating := (Atoi f1).1 in
  f0 ← index record 0;
  f2 ← index record 2;
  f3 ← index record 3;
  f4 ← index record 4;
  mret (<[f0 := {| ReviewID := f0; Rating := rating; Text := f2; Author := f3;
                   Device := f4; Date := date; Notified := notified |}]> reviews).

Fixpoint load_records (reviews : gmap string Review) (records : list (list string))
    : outcome (gmap string Review) :=
  match records with
  | [] => mret reviews
  | record :: rest =>
      reviews' ← load_record reviews record;
      load_records reviews' rest
  end.

(** [records[1:]]. *)
Definition skip_header (records : list (list string)) : outcome (list (list string)) :=
  match records with
  | _ :: rest => Done rest
  | [] => Panicked "runtime error: slice bounds out of range [1:0]"
  end.

(** [readExistingReviews] reads existing reviews from the CSV file: the
    map, or the error returned. *)
Definition readExistingReviews : prog (error + gmap string Review) := fun s =>
  match csv_file s with
  | None => (Done (inr ∅), s)
  | Some bytes =>
      if open_fails env then (Done (inl ErrOpenCSV), s)
      else
        match csv_ReadAll bytes with
        | None => (Done (inl ErrReadCSV), s)
        | Some records =>
            (rows ← skip_header records;
             reviews ← load_records ∅ rows;
             mret (inr reviews), s)
        end
  end.

(** ** The pipeline driver *)

(** [for _, review := range existingReviews]: Go leaves the order of the
    iteration over a map unspecified.  [main] below takes the order of
    [map_to_list]; the statements about what is saved and loaded again
    are made for [saveReviews] on the records in every order (any
    permutation of this list). *)
Definition range_map (existingReviews : gmap string Review) : list Review :=
  (map_to_list existingReviews).*2.

(** [for i, review := range newReviews] at the end of [main]. *)
Fixpoint log_new_reviews (i : nat) (newReviews : list Review) : prog unit :=
  match newReviews with
  | [] => mret tt
  | review :: rest =>
      stars ← lift (Repeat star (Rating review));
      log_Printf (LogNewReview (i + 1) stars (Text review) (Author review)
                    (Device review) (format_RFC1123 (Date review)));;
      log_new_reviews (S i) rest
  end.

(** "Log results" at the end of [main]. *)
Definition report (newReviews : list Review) : prog unit :=
  if bool_decide (0 < length newReviews)%nat then
    log_Printf LogNewReviews;;
    log_new_reviews 0 newReviews
  else log_Printf LogNoNewReviews.

(** [main] from "Get existing reviews" on.  [ratingRange] is the result
    of [parseRatingRange], [fetched] the result of the call to the review
    service ([None] when it returns an error).  The result is the slice
    [newReviews]. *)
Definition main (ratingRange : option RatingRange) (fetched : option (list Api.review))
    : prog (list Review) :=
  loaded ← readExistingReviews;
  match loaded with
  | inl _ => log_Fatalf "Failed to read existing reviews"
  | inr existingReviews =>
      log_Printf (LogFound (size existingReviews));;
      match fetched with
      | None =>
          log_Printf LogFetchFailed;;
          log_Printf (LogPackageName (packageName cfg));;
          log_Fatalf "Failed to fetch reviews"
      | Some reviews =>
          log_Printf (LogFetched (length reviews));;
          '(existingReviews, newReviews) ← reconcile ratingRange (existingReviews, []) reviews;
          let allReviews := range_map existingReviews in
          err ← saveReviews allReviews;
          match err with
          | Some _ => log_Fatalf "Failed to save reviews"
          | None =>
              report newReviews;;
              mret newReviews
          end
      end
  end.

End Program.

(** ** A concrete library for the examples

    A process whose local time zone is UTC, and a CSV reader for files
    without quotes and carriage returns, on which it does what
    [csv.Reader.ReadAll] does.  Only the concrete examples below run on
    it; every general theorem holds for any [Library]. *)

Module Utc.

Definition pad (width : nat) (n : Z) : string :=
  let digits := pretty (Z.abs n) in
  repeat_string "0" (width - String.length digits) +:+ digits.

(** Year, month and day of a count of days since 1970-01-01. *)
Definition civil_from_days (days : Z) : Z * Z * Z :=
  let z := days + 719468 in
  let era := z / 146097 in
  let doe := z - era * 146097 in
  let yoe := (doe - doe / 1460 + doe / 36524 - doe / 146096) / 365 in
  let doy := doe - (365 * yoe + yoe / 4 - yoe / 100) in
  let mp := (5 * doy + 2) / 153 in
  let d := doy - (153 * mp + 2) / 5 + 1 in
  let m := if mp <? 10 then mp + 3 else mp - 9 in
  let y := yoe + era * 400 + (if m <=? 2 then 1 else 0) in
  (y, m, d).

Definition days_from_civil (y m d : Z) : Z :=
  let y' := if m <=? 2 then y - 1 else y in
  let era := y' / 400 in
  let yoe := y' - era * 400 in
  let doy := (153 * (if 2 <? m then m - 3 else m + 9) + 2) / 5 + d - 1 in
  let doe := yoe * 365 + yoe / 4 - yoe / 100 + doy in
  era * 146097 + doe - 719468.

Definition clock (t : Z) : string :=
  let secs := t mod 86400 in
  pad 2 (secs / 3600) +:+ ":" +:+ pad 2 (secs mod 3600 / 60) +:+ ":" +:+ pad 2 (secs mod 60).

Definition rfc3339 (t : Z) : string :=
  let '(y, m, d) := civil_from_days (t / 86400) in
  pad 4 y +:+ "-" +:+ pad 2 m +:+ "-" +:+ pad 2 d +:+ "T" +:+ clock t +:+ "Z".

Definition rfc1123 (t : Z) : string :=
  let days := t / 86400 in
  let '(y, m, d) := civil_from_days days in
  let weekday :=
    nth (Z.to_nat ((days + 4) mod 7))
      ["Sun"; "Mon"; "Tue"; "Wed"; "Thu"; "Fri"; "Sat"] "" in
  let month :=
    nth (Z.to_nat (m - 1))
      ["Jan"; "Feb"; "Mar"; "Apr"; "May"; "Jun"; "Jul"; "Aug"; "Sep"; "Oct"; "Nov"; "Dec"] "" in
  weekday +:+ ", " +:+ pad 2 d +:+ " " +:+ month +:+ " " +:+ pad 4 y +:+ " "
  +:+ clock t +:+ " UTC".

Definition number_at (start len : nat) (s : string) : Z :=
  (Atoi (String.substring start len s)).1.

(** Reads back the form [rfc3339] writes; any other text is rejected. *)
Definition parse (s : string) : option Z :=
  let t :=
    days_from_civil (number_at 0 4 s) (number_at 5 2 s) (number_at 8 2 s) * 86400
    + number_at 11 2 s * 3600 + number_at 14 2 s * 60 + number_at 17 2 s in
  if bool_decide (rfc3339 t = s) then Some t else None.

(** Empty lines are skipped; every record must have as many fields as
    the first one. *)
Definition read_all (bytes : string) : option (list (list string)) :=
  if existsb (fun c => bool_decide (c ∈ [dquote; cr])) (list_ascii_of_string bytes)
  then None
  else
    let lines := List.filter (fun l => negb (bool_decide (l = ""))) (Split nl bytes) in
    let records := Split "," <$> lines in
    match records with
    | [] => Some []
    | first :: _ =>
        if forallb (fun r => bool_decide (length r = length first)) records
        then Some records else None
    end.

#[export] Instance library : Library := {|
  format_RFC3339 := rfc3339;
  format_RFC1123 := rfc1123;
  parse_RFC3339 := parse;
  csv_ReadAll := read_all;
|}.

End Utc.

(** ** Observations the statements are about *)

(** The number of notifications attempted so far: every call of
    [sendToWebhook] that gets past the formatting either logs the
    dry-run line or makes a request. *)
Definition is_dry_run_entry (e : LogEntry) : bool :=
  match e with LogTestMode _ => true | _ => false end.

Definition attempts (s : Sys) : nat :=
  (length (List.filter is_dry_run_entry (logged s)) + length (posted s))%nat.

(** The number of failed deliveries logged so far. *)
Definition is_failure_entry (e : LogEntry) : bool :=
  match e with LogSendFailed _ _ => true | _ => false end.

Definition failures (s : Sys) : nat :=
  length (List.filter is_failure_entry (logged s)).

(** The first comment of a review with its user comment, when both are
    there. *)
Definition primary_comment (review : Api.review) : option Api.user_comment :=
  match Api.Comments review with
  | c0 :: _ => Api.UserComment c0
  | [] => None
  end.

(** A review as the platform is expected to deliver it: a primary user
    comment with a time stamp and a rating from 1 to 5. *)
Definition well_formed (review : Api.review) : Prop :=
  ∃ uc lm, primary_comment review = Some uc
           ∧ Api.LastModified uc = Some lm
           ∧ 1 <= Api.StarRating uc <= 5.

(** The bytes of a CSV file with the given records. *)
Definition csv_text (records : list (list string)) : string :=
  foldr (fun record rest => csv_line record +:+ rest) "" records.

(** Every record of the map is stored under its own id. *)
Definition keyed (reviews : gmap string Review) : Prop :=
  ∀ id review, reviews !! id = Some review → ReviewID review = id.

(** [p] is an initial segment of [s]. *)
Definition is_prefix (p s : string) : Prop := ∃ rest, s = p +:+ rest.

(** Nothing but the file has changed between [s] and [s']. *)
Definition only_file (s s' : Sys) : Prop :=
  slept s' = slept s ∧ logged s' = logged s ∧ posted s' = posted s.

(** The writer and the file on the way to the text [total], with [rest]
    still to be written: while no write has failed, the file followed by
    the buffer and [rest] is [total]; afterwards the file is an initial
    segment of [total]. *)
Definition on_the_way (total : string) (b : Writer) (s : Sys) (rest : string) : Prop :=
  ∃ f, csv_file s = Some f
       ∧ if failed b then is_prefix f total else total = f +:+ (buf b +:+ rest).

(** Putting a record into the map under its id. *)
Definition put (reviews : gmap string Review) (review : Review) : gmap string Review :=
  <[ReviewID review := review]> reviews.

Section ReadBack.
Context `{!Library}.

(** What is read back from the record written for a review. *)
Definition read_back (review : Review) : Review :=
  {| ReviewID := ReviewID review;
     Rating := (Atoi (Itoa (Rating review))).1;
     Text := Text review;
     Author := Author review;
     Device := Device review;
     Date := default zero_time (parse_RFC3339 (format_RFC3339 (Date review)));
     Notified := Notified review |}.

End ReadBack.

(** ** The loop as a relation

    What an iteration of the loop that returns has done, and the
    iterations of a whole loop that returns.  These are derived from
    [loop_body] and [reconcile] (lemmas [loop_body_done] and
    [reconcile_done]). *)

Section Iterations.
Context `{!Library}.
Variables (cfg : Config) (env : Env).

Inductive iteration (ratingRange : option RatingRange) (review : Api.review)
    (st : gmap string Review) (news : list Review) (s : Sys)
    : gmap string Review -> list Review -> Sys -> Prop :=
| it_filtered uc :
    primary_comment review = Some uc ->
    out_of_range ratingRange (Api.StarRating uc) = true ->
    iteration ratingRange review st news s st news s
| it_known uc :
    primary_comment review = Some uc ->
    out_of_range ratingRange (Api.StarRating uc) = false ->
    unnotified st (Api.ReviewId review) = false ->
    iteration ratingRange review st news s st news s
| it_failed uc lm e s1 :
    primary_comment review = Some uc ->
    out_of_range ratingRange (Api.StarRating uc) = false ->
    unnotified st (Api.ReviewId review) = true ->
    Api.LastModified uc = Some lm ->
    sendToWebhook cfg env (new_review review uc lm) s = (Done (Some e), s1) ->
    iteration ratingRange review st news s st news
      (add_log (LogSendFailed (Api.ReviewId review) e) s1)
| it_delivered uc lm s1 :
    primary_comment review = Some uc ->
    out_of_range ratingRange (Api.StarRating uc) = false ->
    unnotified st (Api.ReviewId review) = true ->
    Api.LastModified uc = Some lm ->
    sendToWebhook cfg env (new_review review uc lm) s = (Done None, s1) ->
    iteration ratingRange review st news s
      (<[Api.ReviewId review := set_Notified (new_review review uc lm)]> st)
      (news ++ [set_Notified (new_review review uc lm)])%list s1.

Inductive iterations (ratingRange : option RatingRange)
    : list Api.review -> gmap string Review -> list Review -> Sys
      -> gmap string Review -> list Review -> Sys -> Prop :=
| its_nil st news s : iterations ratingRange [] st news s st news s
| its_cons review rest st news s st1 news1 s1 st2 news2 s2 :
    iteration ratingRange review st news s st1 news1 s1 ->
    iterations ratingRange rest st1 news1 s1 st2 news2 s2 ->
    iterations ratingRange (review :: rest) st news s st2 news2 s2.

End Iterations.

(** ** The state file as a whole *)

Section Whole.
Context `{!Library}.

(** The text of the state file for the records [saved]: the header line
    and one line for each record, in the order of the slice. *)
Definition file_of (saved : list Review) : string :=
  csv_text (header :: (record_of <$> saved)).

(** The disk has room for [n] more bytes. *)
Definition has_room (s : Sys) (n : nat) : Prop :=
  match disk_room s with
  | None => True
  | Some room => (n <= room)%nat
  end.

(** The CSV reader reads the text written for [saved] back as the records
    that were written. *)
Definition read_as_written (saved : list Review) : Prop :=
  csv_ReadAll (file_of saved) = Some (header :: (record_of <$> saved)).

(** ** States of later steps and later runs

    The state sets that follow a given one.  Within a run: by an
    iteration of the loop that returns, with any configuration,
    environment, range and world.  From one run to the next: the run
    hands the records of its state set to [saveReviews] in some order
    (Go does not fix the order of the iteration over a map), on a disk
    with room for the whole file, and [saveReviews] returns nil; the next
    run finds the file as it was left, and [readExistingReviews] loads
    the next state from it, the CSV reader reading the text back as it
    was written. *)
Inductive follows : gmap string Review -> gmap string Review -> Prop :=
| fo_refl st : follows st st
| fo_iteration st0 cfg env ratingRange review st news s st' news' s' :
    follows st0 st ->
    loop_body cfg env ratingRange (st, news) review s = (Done (st', news'), s') ->
    follows st0 st'
| fo_next_run st0 st saved env s s1 env' s2 st' :
    follows st0 st ->
    saved ≡ₚ range_map st ->
    has_room s (String.length (file_of saved)) ->
    saveReviews env saved s = (Done None, s1) ->
    read_as_written saved ->
    csv_file s2 = csv_file s1 ->
    readExistingReviews env' s2 = (Done (inr st'), s2) ->
    follows st0 st'.

End Whole.

(** ** Concrete configurations, environments and reviews *)

Module Scenario.
Import Utc.

Definition dry_run : Config :=
  {| packageName := "com.example.app"; webhookURL := "https://chat.example/hook";
     keyPath := "./service-account.json"; reviewsCSV := "reviews.csv";
     logDir := "./logs"; testMode := true |}.

Definition live : Config :=
  {| packageName := "com.example.app"; webhookURL := "https://chat.example/hook";
     keyPath := "./service-account.json"; reviewsCSV := "reviews.csv";
     logDir := "./logs"; testMode := false |}.

(** The webhook answers 200 to every request. *)
Definition webhook_ok : Env :=
  {| net := fun _ => Response 200; open_fails := false; create_fails := false |}.

(** The webhook answers 500 to the first request and 200 afterwards. *)
Definition webhook_500_first : Env :=
  {| net := fun k => if (k =? 0)%nat then Response 500 else Response 200;
     open_fails := false; create_fails := false |}.

(** The CSV file cannot be created. *)
Definition no_create : Env :=
  {| net := fun _ => Response 200; open_fails := false; create_fails := true |}.

(** No state file yet, a disk with room. *)
Definition fresh : Sys :=
  {| csv_file := None; disk_room := None; slept := 0; logged := []; posted := [] |}.

Definition comment (stars : Z) (text : string) (device : option string)
    (seconds : Z) : Api.user_comment :=
  {| Api.StarRating := stars; Api.Text := text;
     Api.DeviceMetadata := Api.Build_device_metadata <$> device;
     Api.LastModified := Some {| Api.Seconds := seconds |} |}.

Definition review_of (id author : string) (uc : Api.user_comment) : Api.review :=
  {| Api.ReviewId := id; Api.AuthorName := author;
     Api.Comments := [ {| Api.UserComment := Some uc |} ] |}.

Definition uc1 : Api.user_comment := comment 5 " great! " None 1700000000.
Definition uc2 : Api.user_comment := comment 2 "crashes" (Some "Pixel 7") 1700000100.
Definition uc4 : Api.user_comment := comment 4 "fine" (Some "Galaxy S23") 1700000200.

Definition r1 : Api.review := review_of "r1" "Ann" uc1.
Definition r2 : Api.review := review_of "r2" "Bob" uc2.
Definition r4 : Api.review := review_of "r4" "Cy" uc4.

(** A review whose comments list is empty. *)
Definition no_comments : Api.review :=
  {| Api.ReviewId := "r0"; Api.AuthorName := "Dee"; Api.Comments := [] |}.

(** A review whose text is 5000 bytes long. *)
Definition long_review : Api.review :=
  review_of "r9" "Eve" (comment 3 (repeat_string "ab" 2500) None 1700000300).

(** The record of [r1] once notified, and the state set that holds it. *)
Definition notified_r1 : Review :=
  {| ReviewID := "r1"; Rating := 5; Text := "great!"; Author := "Ann";
     Device := "Unknown"; Date := 1700000000; Notified := true |}.

Definition state_r1 : gmap string Review := {[ "r1" := notified_r1 ]}.

(** The value of an outcome that is [Done], a default otherwise. *)
Definition value {A} (d : A) (o : outcome A) : A :=
  match o with Done a => a | _ => d end.

(** The state file with the header alone, and an empty state file. *)
Definition header_only : Sys :=
  {| csv_file := Some ("Review ID,Rating,Review Text,Author,Device,Date,Notified" +:+ String nl "");
     disk_room := None; slept := 0; logged := []; posted := [] |}.

Definition empty_file : Sys :=
  {| csv_file := Some ""; disk_room := None; slept := 0; logged := []; posted := [] |}.

Definition range_4_5 : option RatingRange := Some {| Start := 4; End_ := 5 |}.

(** The state file after a run that notified [r1]. *)
Definition file_r1 : string :=
  "Review ID,Rating,Review Text,Author,Device,Date,Notified" +:+ String nl
  "r1,5,great!,Ann,Unknown,2023-11-14T22:13:20Z,true" +:+ String nl "".

(** The state file of a run that notified [r1], on a disk with room. *)
Definition after_r1 : Sys :=
  {| csv_file := Some file_r1; disk_room := None; slept := 0; logged := []; posted := [] |}.

(** The same on a full disk. *)
Definition after_r1_disk_full : Sys :=
  {| csv_file := Some file_r1; disk_room := Some 0%nat; slept := 0; logged := []; posted := [] |}.

(** The same on a disk that has room for 104 more bytes: the file of
    that state takes 107. *)
Definition after_r1_room_104 : Sys :=
  {| csv_file := Some file_r1; disk_room := Some 104%nat; slept := 0; logged := [];
     posted := [] |}.

(** The record of [r1] with the flag unset. *)
Definition unnotified_r1 : Review :=
  {| ReviewID := "r1"; Rating := 5; Text := "great!"; Author := "Ann";
     Device := "Unknown"; Date := 1700000000; Notified := false |}.

(** A run in live mode whose first request is answered with 500: the
    delivery for [r2] fails, the delivery for [r4] succeeds. *)
Definition lm2 : Api.timestamp := {| Api.Seconds := 1700000100 |}.

Definition lm4 : Api.timestamp := {| Api.Seconds := 1700000200 |}.

Definition sent_r2 : Sys :=
  (sendToWebhook live webhook_500_first (new_review r2 uc2 lm2) after_r1).2.

Definition failed_r2 : Sys := add_log (LogSendFailed "r2" (ErrStatusCode 500)) sent_r2.

Definition sent_r4 : Sys :=
  (sendToWebhook live webhook_500_first (new_review r4 uc4 lm4) failed_r2).2.

Definition notified_r4 : Review := set_Notified (new_review r4 uc4 lm4).

Definition state_r1_r4 : gmap string Review := <["r4" := notified_r4]> state_r1.

Definition live_run : outcome (list Review) * Sys :=
  main live webhook_500_first None (Some [r2; r4]) after_r1.

(** The world after a request for [r2] that was answered with 500. *)
Definition sent_after_500 : Sys :=
  add_post (webhookURL live)
    (message_text (repeat_string star 2) (new_review r2 uc2 lm2)) fresh.

(** The state of that run, saved and loaded again. *)
Definition reloaded_r1_r4 : gmap string Review :=
  value ∅ (load_records ∅ (record_of <$> range_map state_r1_r4)).

(** A first run in dry-run mode, from the empty state. *)
Definition first_run : outcome loop_vars * Sys :=
  reconcile dry_run webhook_ok None (∅, []) [r1; r2; r4] fresh.

Definition first_state : gmap string Review := (value (∅, []) first_run.1).1.

Definition first_news : list Review := (value (∅, []) first_run.1).2.




End Scenario.

(** ** The configuration from the environment *)

(** [getEnv] gets an environment variable or returns a default value.
    [environ] is the environment of the process, that is what
    [os.LookupEnv] looks into. *)
Definition getEnv (environ : gmap string string) (key defaultValue : string) : string :=
  match environ !! key with
  | Some value => value
  | None => defaultValue
  end.

(** [getEnvBool] gets a boolean environment variable or returns a default
    value. *)
Definition getEnvBool (environ : gmap string string) (key : string)
    (defaultValue : bool) : bool :=
  match environ !! key with
  | Some value =>
      match ParseBool value with
      | Some boolValue => boolValue
      | None => defaultValue
      end
  | None => defaultValue
  end.

(** "Initialize configuration" in [main]. *)
Definition configuration (environ : gmap string string) : Config :=
  {| packageName := getEnv environ "PACKAGE_NAME" "com.example.app";
     webhookURL :=
       getEnv environ "WEBHOOK_URL"
         "https://chat.googleapis.com/v1/spaces/XXXXX/messages?key=YOUR_KEY&token=YOUR_TOKEN";
     keyPath := getEnv environ "KEY_PATH" "./service-account.json";
     reviewsCSV := getEnv environ "REVIEWS_CSV" "reviews.csv";
     logDir := getEnv environ "LOG_DIR" "./logs";
     testMode := getEnvBool environ "TEST_MODE" true |}.

(** ** More observations *)

(** The value fits the Go type [int]. *)
Definition is_int (n : Z) : Prop := minInt <= n <= maxInt.

(** The rating and the date of the record are read back from the row as
    they were written: the rating is an [int], and the date is one that
    its RFC 3339 form gives back. *)
Definition row_reads_back `{!Library} (review : Review) : Prop :=
  is_int (Rating review)
  ∧ parse_RFC3339 (format_RFC3339 (Date review)) = Some (Date review).

(** The number of occurrences of a byte in a string. *)
Fixpoint count_byte (c : ascii) (s : string) : nat :=
  match s with
  | EmptyString => 0
  | String c' rest => (if bool_decide (c' = c) then 1 else 0) + count_byte c rest
  end.

(** The review a row of the state file stands for: the fields at the
    seven positions, with the defaults for what does not parse. *)
Section Rows.
Context `{!Library}.

Definition review_of_row (f0 f1 f2 f3 f4 f5 f6 : string) : Review :=
  {| ReviewID := f0;
     Rating := (Atoi f1).1;
     Text := f2;
     Author := f3;
     Device := f4;
     Date := default zero_time (parse_RFC3339 f5);
     Notified := default false (ParseBool f6) |}.

End Rows.

(** What the loop keeps true of the state set, the new-reviews slice and
    the time slept since it started with [slept0] on the clock: the new
    reviews have distinct ids and are the records the state holds for
    these ids; each is notified, has been formatted without panic and is
    not rejected by the filter; two seconds have been slept for each. *)
Definition loop_invariant (ratingRange : option RatingRange) (slept0 : Z)
    (st : gmap string Review) (news : list Review) (s : Sys) : Prop :=
  NoDup (ReviewID <$> news)
  ∧ Forall (fun r => st !! ReviewID r = Some r ∧ Notified r = true
                     ∧ is_done (Repeat star (Rating r)) = true
                     ∧ out_of_range ratingRange (Rating r) = false) news
  ∧ slept s = slept0 + 2 * Second * Z.of_nat (length news).

(** ** More concrete inputs *)

Module MoreScenarios.
Import Utc Scenario.

(** A first run in dry-run mode with the range 4-5. *)
Definition filtered_run : outcome loop_vars * Sys :=
  reconcile dry_run webhook_ok range_4_5 (∅, []) [r1; r2; r4] fresh.

Definition filtered_state : gmap string Review := (value (∅, []) filtered_run.1).1.

Definition filtered_news : list Review := (value (∅, []) filtered_run.1).2.

(** The loop of the run [live_run], as [main] starts it. *)
Definition counted_loop : outcome loop_vars * Sys :=
  reconcile live webhook_500_first None (state_r1, []) [r2; r4]
    (add_log (LogFetched (length [r2; r4])) (add_log (LogFound (size state_r1)) after_r1)).

Definition counted_save : outcome (option error) * Sys :=
  saveReviews webhook_500_first (range_map state_r1_r4) counted_loop.2.

(** Two rows for the id r1: the flag is unset in the first and set in
    the second. *)
Definition row_r1 (flag : string) : list string :=
  ["r1"; "5"; "great!"; "Ann"; "Unknown"; "2023-11-14T22:13:20Z"; flag].

(** A run in dry-run mode that panics at its second review. *)
Definition interrupted_run : outcome (list Review) * Sys :=
  main dry_run webhook_ok None (Some [r1; no_comments]) fresh.

(** A run whose fetch fails. *)
Definition unfetched_run : outcome (list Review) * Sys :=
  main live webhook_ok None None after_r1.

(** The run [live_run], stage by stage: the world as the loop of [main]
    starts, after the request for [r2] that is answered with 500, after
    the failure is logged, and after the request for [r4]. *)
Definition counted_start : Sys :=
  add_log (LogFetched (length [r2; r4])) (add_log (LogFound (size state_r1)) after_r1).

Definition counted_sent_r2 : Sys :=
  (sendToWebhook live webhook_500_first (new_review r2 uc2 lm2) counted_start).2.

Definition counted_failed_r2 : Sys :=
  add_log (LogSendFailed "r2" (ErrStatusCode 500)) counted_sent_r2.

Definition counted_sent_r4 : Sys :=
  (sendToWebhook live webhook_500_first (new_review r4 uc4 lm4) counted_failed_r2).2.

(** The state file after that run. *)
Definition file_r1_r4 : string :=
  "Review ID,Rating,Review Text,Author,Device,Date,Notified" +:+ String nl
  "r1,5,great!,Ann,Unknown,2023-11-14T22:13:20Z,true" +:+ String nl
  "r4,4,fine,Cy,Galaxy S23,2023-11-14T22:16:40Z,true" +:+ String nl "".

(** The world after the state of that run is saved from [sent_r4]. *)
Definition saved_r1_r4 : Sys :=
  (saveReviews webhook_500_first (range_map state_r1_r4) sent_r4).2.

(** The same run on a full disk, stage by stage. *)
Definition full_start : Sys :=
  add_log (LogFetched (length [r2; r4]))
    (add_log (LogFound (size state_r1)) after_r1_disk_full).

Definition full_sent_r2 : Sys :=
  (sendToWebhook live webhook_500_first (new_review r2 uc2 lm2) full_start).2.

Definition full_failed_r2 : Sys :=
  add_log (LogSendFailed "r2" (ErrStatusCode 500)) full_sent_r2.

Definition full_sent_r4 : Sys :=
  (sendToWebhook live webhook_500_first (new_review r4 uc4 lm4) full_failed_r2).2.

Definition full_disk_live_run : outcome (list Review) * Sys :=
  main live webhook_500_first None (Some [r2; r4]) after_r1_disk_full.

(** A run that fetches nothing, on a disk with room for 104 bytes. *)
Definition cut_run : outcome (list Review) * Sys :=
  main dry_run webhook_ok None (Some []) after_r1_room_104.

(** A run in dry-run mode that fetches [r2], on a full disk. *)
Definition emptied_run : outcome (list Review) * Sys :=
  main dry_run webhook_ok None (Some [r2]) after_r1_disk_full.

(** A record whose text is 9000 bytes long, and a disk without a state
    file that has room for [n] bytes. *)
Definition long_record : Review :=
  {| ReviewID := "r9"; Rating := 3; Text := repeat_string "ab" 4500; Author := "Eve";
     Device := "Unknown"; Date := 1700000300; Notified := true |}.

Definition disk_with_room (n : nat) : Sys :=
  {| csv_file := None; disk_room := Some n; slept := 0; logged := []; posted := [] |}.

End MoreScenarios.

(** * Properties of the notifier and of the loop *)

Section Notifier.
Context `{!Library}.

Lemma attempts_add_log e s :
  attempts (add_log e s) = (attempts s + (if is_dry_run_entry e then 1 else 0))%nat.
Proof.
  unfold attempts, add_log; simpl.
  rewrite List.filter_app, length_app; simpl.
  destruct (is_dry_run_entry e); simpl; lia.
Qed.

Lemma failures_add_log e s :
  failures (add_log e s) = (failures s + (if is_failure_entry e then 1 else 0))%nat.
Proof.
  unfold failures, add_log; simpl.
  rewrite List.filter_app, length_app; simpl.
  destruct (is_failure_entry e); simpl; lia.
Qed.

Lemma Repeat_star_done (n : Z) :
  0 <= n -> 3 * n <= maxInt -> Repeat star n = Done (repeat_string star (Z.to_nat n)).
Proof.
  intros Hn Hm. unfold Repeat.
  destruct (Z.ltb_spec n 0); [lia|].
  change (Z.of_nat (String.length star)) with 3.
  destruct (Z.ltb_spec maxInt (3 * n)); [lia|]. reflexivity.
Qed.

(** What a call of the notifier can do, once the stars are formatted. *)
Lemma sendToWebhook_done cfg env review s :
  0 <= Rating review -> 3 * Rating review <= maxInt ->
  let text := message_text (repeat_string star (Z.to_nat (Rating review))) review in
  sendToWebhook cfg env review s =
    if testMode cfg then
      (Done None, add_sleep (2 * Second) (add_log (LogTestMode text) s))
    else
      match net env (length (posted s)) with
      | TransportError => (Done (Some ErrSendWebhook), add_post (webhookURL cfg) text s)
      | Response code =>
          if bool_decide (code ≠ 200)
          then (Done (Some (ErrStatusCode code)), add_post (webhookURL cfg) text s)
          else (Done None, add_sleep (2 * Second) (add_post (webhookURL cfg) text s))
      end.
Proof.
  intros Hn Hm text. unfold sendToWebhook.
  unfold mbind, prog_bind, lift. rewrite Repeat_star_done by assumption.
  destruct (testMode cfg); [reflexivity|].
  unfold http_Post. fold text.
  destruct (net env (length (posted s))) as [|code]; [reflexivity|].
  destruct (bool_decide (code ≠ 200)); reflexivity.
Qed.

(** The pacing delay: a call that reports success has slept two
    seconds; a call that reports a failure has not slept. *)
Lemma sendToWebhook_delay cfg env review s err s' :
  sendToWebhook cfg env review s = (Done err, s') ->
  slept s' = slept s + (if err is Some _ then 0 else 2 * Second).
Proof.
  unfold sendToWebhook, mbind, prog_bind, lift.
  destruct (Repeat star (Rating review)) as [stars|m|m]; [|discriminate..].
  destruct (testMode cfg).
  - intros [= <- <-]. reflexivity.
  - unfold http_Post. destruct (net env (length (posted s))) as [|code].
    + intros [= <- <-]. simpl. lia.
    + destruct (bool_decide (code ≠ 200)); intros [= <- <-]; simpl; lia.
Qed.

(** The notifier never touches the file and never logs a failed
    delivery; a call that returns has made exactly one attempt. *)
Lemma sendToWebhook_effects cfg env review s o s' :
  sendToWebhook cfg env review s = (o, s') ->
  csv_file s' = csv_file s ∧ disk_room s' = disk_room s
  ∧ failures s' = failures s
  ∧ (is_done o = true -> attempts s' = S (attempts s))
  ∧ (is_done o = false -> s' = s).
Proof.
  unfold sendToWebhook, mbind, prog_bind, lift.
  destruct (Repeat star (Rating review)) as [stars|m|m];
    [|intros [= <- <-]; repeat split; simpl; congruence..].
  destruct (testMode cfg).
  - intros [= <- <-]. repeat split; try (simpl; congruence).
    + unfold failures; simpl. rewrite List.filter_app, length_app; simpl; lia.
    + intros _. unfold attempts; simpl.
      rewrite List.filter_app, length_app; simpl; lia.
  - unfold http_Post.
    destruct (net env (length (posted s))) as [|code].
    + intros [= <- <-]. repeat split; try (simpl; congruence).
      intros _. unfold attempts; simpl. rewrite length_app; simpl; lia.
    + destruct (bool_decide (code ≠ 200)); intros [= <- <-];
        (repeat split; try (simpl; congruence));
        intros _; unfold attempts; simpl; rewrite length_app; simpl; lia.
Qed.

End Notifier.

Section LoopBody.
Context `{!Library}.
Variables (cfg : Config) (env : Env).

Lemma primary_comment_Some review uc :
  primary_comment review = Some uc ->
  ∃ c0 cs, Api.Comments review = c0 :: cs ∧ Api.UserComment c0 = Some uc.
Proof.
  unfold primary_comment. destruct (Api.Comments review) as [|c0 cs]; [discriminate|].
  eauto.
Qed.

(** The loop body on a review with a primary comment, branch by branch. *)
Lemma loop_body_unfold ratingRange st news review uc s :
  primary_comment review = Some uc ->
  loop_body cfg env ratingRange (st, news) review s =
    if out_of_range ratingRange (Api.StarRating uc) then (Done (st, news), s)
    else if unnotified st (Api.ReviewId review) then
      match Api.LastModified uc with
      | None =>
          (Panicked "runtime error: invalid memory address or nil pointer dereference", s)
      | Some lm =>
          match sendToWebhook cfg env (new_review review uc lm) s with
          | (Done (Some e), s1) =>
              (Done (st, news), add_log (LogSendFailed (Api.ReviewId review) e) s1)
          | (Done None, s1) =>
              (Done (<[Api.ReviewId review := set_Notified (new_review review uc lm)]> st,
                     (news ++ [set_Notified (new_review review uc lm)])%list), s1)
          | (Fatal m, s1) => (Fatal m, s1)
          | (Panicked m, s1) => (Panicked m, s1)
          end
      end
    else (Done (st, news), s).
Proof.
  intros (c0 & cs & Hc & Hu)%primary_comment_Some.
  unfold loop_body, mbind, prog_bind, lift. rewrite Hc; simpl. rewrite Hu; simpl.
  destruct (out_of_range _ _); [reflexivity|].
  destruct (unnotified _ _); [|reflexivity].
  destruct (Api.LastModified uc) as [lm|]; simpl; [|reflexivity].
  destruct (sendToWebhook cfg env (new_review review uc lm) s) as [[[e|]|m|m] s1];
    reflexivity.
Qed.

(** A review without a primary comment makes the loop body panic. *)
Lemma loop_body_no_comment ratingRange vars review s :
  primary_comment review = None ->
  ∃ msg, loop_body cfg env ratingRange vars review s = (Panicked msg, s).
Proof.
  unfold primary_comment, loop_body, mbind, prog_bind, lift. destruct vars as [st news].
  destruct (Api.Comments review) as [|c0 cs]; simpl; [eauto|].
  intros ->; simpl; eauto.
Qed.

Lemma loop_body_done ratingRange st news review s st' news' s' :
  loop_body cfg env ratingRange (st, news) review s = (Done (st', news'), s') ->
  iteration cfg env ratingRange review st news s st' news' s'.
Proof.
  destruct (primary_comment review) as [uc|] eqn:Hp.
  - rewrite (loop_body_unfold _ _ _ _ uc) by assumption.
    destruct (out_of_range _ _) eqn:Hr.
    { intros [= <- <- <-]. eapply it_filtered; eauto. }
    destruct (unnotified _ _) eqn:Hu.
    2:{ intros [= <- <- <-]. eapply it_known; eauto. }
    destruct (Api.LastModified uc) as [lm|] eqn:Hl; [|discriminate].
    destruct (sendToWebhook cfg env (new_review review uc lm) s)
      as [[[e|]|m|m] s1] eqn:Hs; try discriminate.
    + intros [= <- <- <-]. eapply it_failed; eauto.
    + intros [= <- <- <-]. eapply it_delivered; eauto.
  - destruct (loop_body_no_comment ratingRange (st, news) review s Hp) as [msg ->].
    discriminate.
Qed.

End LoopBody.

Section Iteration.
Context `{!Library}.
Variables (cfg : Config) (env : Env).

Lemma reconcile_cons ratingRange vars review rest s :
  reconcile cfg env ratingRange vars (review :: rest) s =
    match loop_body cfg env ratingRange vars review s with
    | (Done vars1, s1) => reconcile cfg env ratingRange vars1 rest s1
    | (Fatal m, s1) => (Fatal m, s1)
    | (Panicked m, s1) => (Panicked m, s1)
    end.
Proof. reflexivity. Qed.

Lemma reconcile_done ratingRange reviews : ∀ st news s st' news' s',
  reconcile cfg env ratingRange (st, news) reviews s = (Done (st', news'), s') ->
  iterations cfg env ratingRange reviews st news s st' news' s'.
Proof.
  induction reviews as [|review rest IH]; intros st news s st' news' s'.
  - intros [= <- <- <-]. constructor.
  - rewrite reconcile_cons.
    destruct (loop_body cfg env ratingRange (st, news) review s)
      as [[[st1 news1]|m|m] s1] eqn:Hb; try discriminate.
    intros Hr. econstructor; [eapply loop_body_done; exact Hb | apply IH; exact Hr].
Qed.

Lemma reconcile_app ratingRange l1 l2 : ∀ vars s,
  reconcile cfg env ratingRange vars (l1 ++ l2) s =
    match reconcile cfg env ratingRange vars l1 s with
    | (Done vars1, s1) => reconcile cfg env ratingRange vars1 l2 s1
    | (Fatal m, s1) => (Fatal m, s1)
    | (Panicked m, s1) => (Panicked m, s1)
    end.
Proof.
  induction l1 as [|review rest IH]; intros vars s; [reflexivity|].
  rewrite <- app_comm_cons, !reconcile_cons.
  destruct (loop_body cfg env ratingRange vars review s) as [[vars1|m|m] s1];
    [apply IH | reflexivity..].
Qed.

Lemma unnotified_false st id :
  unnotified st id = false ↔ ∃ r, st !! id = Some r ∧ Notified r = true.
Proof.
  unfold unnotified. destruct (st !! id) as [r|]; split.
  - intros Hn. exists r. split; [done|]. by destruct (Notified r).
  - intros (r' & [= <-] & ->). done.
  - discriminate.
  - intros (r' & ? & _). discriminate.
Qed.

Lemma unnotified_true st id :
  unnotified st id = true ↔ st !! id = None ∨ ∃ r, st !! id = Some r ∧ Notified r = false.
Proof.
  unfold unnotified. destruct (st !! id) as [r|]; split.
  - intros Hn. right. exists r. split; [done|]. by destruct (Notified r).
  - intros [|(r' & [= <-] & ->)]; done.
  - by left.
  - done.
Qed.

Section OneIteration.
Variables (ratingRange : option RatingRange) (review : Api.review).
Variables (st : gmap string Review) (news : list Review) (s : Sys).
Variables (st' : gmap string Review) (news' : list Review) (s' : Sys).
Hypothesis Hit : iteration cfg env ratingRange review st news s st' news' s'.

(** A record already notified is never written again. *)
Lemma iteration_notified_kept id r :
  st !! id = Some r -> Notified r = true -> st' !! id = Some r.
Proof using Hit.
  intros Hl Hn. destruct Hit as [| | |uc lm s1 ? ? Hu]; try done.
  destruct (decide (Api.ReviewId review = id)) as [Heq|Hne].
  - rewrite <- Heq in Hl.
    apply unnotified_true in Hu as [Hu|(r' & Hu & Hu')]; rewrite Hu in Hl;
      [discriminate | injection Hl as ->; congruence].
  - by rewrite lookup_insert_ne.
Qed.

Lemma iteration_frame id :
  id ≠ Api.ReviewId review -> st' !! id = st !! id.
Proof using Hit.
  intros Hne. destruct Hit; try done. by rewrite lookup_insert_ne.
Qed.

Lemma iteration_present id :
  is_Some (st !! id) -> is_Some (st' !! id).
Proof using Hit.
  intros Hs. destruct Hit; try done.
  destruct (decide (id = Api.ReviewId review)) as [->|Hne].
  - rewrite lookup_insert_eq. eauto.
  - by rewrite lookup_insert_ne.
Qed.

Lemma iteration_keyed : keyed st -> keyed st'.
Proof using Hit.
  intros Hk. destruct Hit; try done.
  intros id r. destruct (decide (id = Api.ReviewId review)) as [->|Hne].
  - rewrite lookup_insert_eq. by intros [= <-].
  - rewrite lookup_insert_ne by done. apply Hk.
Qed.

Lemma iteration_file :
  csv_file s' = csv_file s ∧ disk_room s' = disk_room s.
Proof using Hit.
  destruct Hit as [| |uc lm e s1 ? ? ? ? Hs|uc lm s1 ? ? ? ? Hs]; try done;
    apply sendToWebhook_effects in Hs as (? & ? & _); done.
Qed.

Lemma iteration_failures : (failures s <= failures s')%nat.
Proof using Hit.
  destruct Hit as [| |uc lm e s1 ? ? ? ? Hs|uc lm s1 ? ? ? ? Hs]; try done;
    apply sendToWebhook_effects in Hs as (_ & _ & Hf & _).
  - rewrite failures_add_log. lia.
  - lia.
Qed.

(** When no failure is logged, a review that passes the filter is
    notified in the state afterwards. *)
Lemma iteration_no_failure uc :
  failures s' = failures s ->
  primary_comment review = Some uc ->
  out_of_range ratingRange (Api.StarRating uc) = false ->
  unnotified st' (Api.ReviewId review) = false.
Proof using Hit.
  intros Hf Hp Hr.
  destruct Hit as [uc' ? Hr'| |uc' lm e s1 ? ? ? ? Hs|uc' lm s1 ? ? ? ? Hs].
  - congruence.
  - done.
  - apply sendToWebhook_effects in Hs as (_ & _ & Hf' & _).
    rewrite failures_add_log in Hf. simpl in Hf. lia.
  - apply unnotified_false. eexists. rewrite lookup_insert_eq. done.
Qed.

(** The new-reviews slice grows by the records written to the map. *)
Lemma iteration_news :
  ∃ delta, news' = (news ++ delta)%list
    ∧ st' = foldl put st delta
    ∧ Forall (fun r => Notified r = true ∧ ReviewID r = Api.ReviewId review
                       ∧ unnotified st (ReviewID r) = true) delta.
Proof using Hit.
  destruct Hit as [| | |uc lm s1 ? ? Hu].
  1-3: exists []; by rewrite app_nil_r.
  eexists [_]. split; [done|]. split; [done|].
  constructor; [|constructor]. done.
Qed.

End OneIteration.

End Iteration.

Section WholeLoop.
Context `{!Library}.
Variables (cfg : Config) (env : Env) (ratingRange : option RatingRange).

Local Abbreviation iterations := (iterations cfg env ratingRange).

Lemma iterations_notified_kept reviews st news s st' news' s' id r :
  iterations reviews st news s st' news' s' ->
  st !! id = Some r -> Notified r = true -> st' !! id = Some r.
Proof.
  induction 1 as [|? ? ? ? ? ? ? ? ? ? ? Hit _ IH]; [done|].
  intros Hl Hn. apply IH; [|done]. eapply iteration_notified_kept; eauto.
Qed.

Lemma iterations_frame reviews st news s st' news' s' id :
  iterations reviews st news s st' news' s' ->
  id ∉ (Api.ReviewId <$> reviews) -> st' !! id = st !! id.
Proof.
  induction 1 as [|? ? ? ? ? ? ? ? ? ? ? Hit _ IH]; [done|].
  rewrite fmap_cons, not_elem_of_cons. intros [Hne Hni].
  rewrite IH by done. eapply iteration_frame; eauto.
Qed.

Lemma iterations_present reviews st news s st' news' s' id :
  iterations reviews st news s st' news' s' ->
  is_Some (st !! id) -> is_Some (st' !! id).
Proof.
  induction 1 as [|? ? ? ? ? ? ? ? ? ? ? Hit _ IH]; [done|].
  intros Hs. apply IH. eapply iteration_present; eauto.
Qed.

Lemma iterations_keyed reviews st news s st' news' s' :
  iterations reviews st news s st' news' s' -> keyed st -> keyed st'.
Proof.
  induction 1 as [|? ? ? ? ? ? ? ? ? ? ? Hit _ IH]; [done|].
  intros Hk. apply IH. eapply iteration_keyed; eauto.
Qed.

Lemma iterations_file reviews st news s st' news' s' :
  iterations reviews st news s st' news' s' ->
  csv_file s' = csv_file s ∧ disk_room s' = disk_room s.
Proof.
  induction 1 as [|? ? ? ? ? ? ? ? ? ? ? Hit _ IH]; [done|].
  destruct IH as [-> ->]. eapply iteration_file; eauto.
Qed.

Lemma iterations_failures reviews st news s st' news' s' :
  iterations reviews st news s st' news' s' -> (failures s <= failures s')%nat.
Proof.
  induction 1 as [|? ? ? ? ? ? ? ? ? ? ? Hit _ IH]; [done|].
  pose proof (iteration_failures _ _ _ _ _ _ _ _ _ _ Hit). lia.
Qed.

Lemma iterations_primary reviews st news s st' news' s' review :
  iterations reviews st news s st' news' s' ->
  review ∈ reviews -> is_Some (primary_comment review).
Proof.
  induction 1 as [|? ? ? ? ? ? ? ? ? ? ? Hit _ IH]; [by intros ?%elem_of_nil|].
  intros [->|Hin]%elem_of_cons; [|by apply IH].
  destruct Hit; eauto.
Qed.

(** After a loop that logged no failed delivery, every review of the
    list that passes the filter is notified in the state. *)
Lemma iterations_no_failure reviews st news s st' news' s' review uc :
  iterations reviews st news s st' news' s' ->
  failures s' = failures s ->
  review ∈ reviews ->
  primary_comment review = Some uc ->
  out_of_range ratingRange (Api.StarRating uc) = false ->
  unnotified st' (Api.ReviewId review) = false.
Proof.
  induction 1 as [|r0 rest st news s st1 news1 s1 st2 news2 s2 Hit Hits IH];
    [by intros _ ?%elem_of_nil|].
  intros Hf Hin Hp Hr.
  pose proof (iteration_failures _ _ _ _ _ _ _ _ _ _ Hit).
  pose proof (iterations_failures _ _ _ _ _ _ _ Hits).
  apply elem_of_cons in Hin as [Heq|Hin]; [subst r0|apply IH; [lia|done..]].
  assert (unnotified st1 (Api.ReviewId review) = false) as Hu.
  { eapply iteration_no_failure; eauto. lia. }
  apply unnotified_false in Hu as (r & Hl & Hn).
  apply unnotified_false. exists r. split; [|done].
  eapply iterations_notified_kept; eauto.
Qed.

(** The records a loop writes: they are appended to the new-reviews
    slice in order, each is notified and stored under the id of a
    fetched review, and the final map is the initial one with these
    records put in. *)
Lemma iterations_news reviews st news s st' news' s' :
  iterations reviews st news s st' news' s' ->
  ∃ delta, news' = (news ++ delta)%list
    ∧ st' = foldl put st delta
    ∧ Forall (fun r => Notified r = true
                       ∧ ReviewID r ∈ (Api.ReviewId <$> reviews)
                       ∧ unnotified st (ReviewID r) = true) delta.
Proof.
  induction 1 as [|r0 rest st news s st1 news1 s1 st2 news2 s2 Hit Hits IH].
  { exists []. by rewrite app_nil_r. }
  destruct (iteration_news _ _ _ _ _ _ _ _ _ _ Hit) as (d1 & -> & -> & Hd1).
  destruct IH as (d2 & -> & -> & Hd2).
  exists (d1 ++ d2)%list. rewrite app_assoc, foldl_app. do 2 (split; [done|]).
  apply Forall_app. split.
  - eapply Forall_impl; [exact Hd1|]. intros r (? & -> & ?).
    rewrite fmap_cons. split; [done|]. split; [apply elem_of_cons; by left|done].
  - eapply Forall_impl; [exact Hd2|]. intros r (Hn & Hin & Hu).
    rewrite fmap_cons. split; [done|]. split; [apply elem_of_cons; by right|].
    apply unnotified_true. apply unnotified_true in Hu.
    destruct (st !! ReviewID r) as [r'|] eqn:Hl; [right|by left].
    exists r'. split; [done|]. destruct (Notified r') eqn:Hn'; [|done].
    exfalso. pose proof (iteration_notified_kept _ _ _ _ _ _ _ _ _ _ Hit _ _ Hl Hn') as Hk.
    fold (foldl put st d1) in Hk.
    destruct Hu as [Hu|(r'' & Hu & Hu')]; rewrite Hu in Hk; congruence.
Qed.

End WholeLoop.

Section LoopEffects.
Context `{!Library}.
Variables (cfg : Config) (env : Env).

Lemma sendToWebhook_dry_run review s o s' :
  testMode cfg = true ->
  sendToWebhook cfg env review s = (o, s') ->
  posted s' = posted s ∧ (o = Done None ∨ (is_done o = false ∧ s' = s)).
Proof.
  intros Ht. unfold sendToWebhook, mbind, prog_bind, lift.
  destruct (Repeat star (Rating review)) as [stars|m|m];
    [|intros [= <- <-]; split; [done|right; done]..].
  rewrite Ht. intros [= <- <-]. split; [done|by left].
Qed.

(** What one iteration does to the world, whatever its outcome. *)
Lemma loop_body_effects ratingRange vars review s o s' :
  loop_body cfg env ratingRange vars review s = (o, s') ->
  csv_file s' = csv_file s ∧ disk_room s' = disk_room s
  ∧ (attempts s <= attempts s' <= S (attempts s))%nat
  ∧ (testMode cfg = true -> posted s' = posted s ∧ failures s' = failures s).
Proof.
  destruct vars as [st news].
  destruct (primary_comment review) as [uc|] eqn:Hp.
  2:{ destruct (loop_body_no_comment cfg env ratingRange (st, news) review s Hp) as [msg ->].
      intros [= <- <-]. repeat split; lia. }
  rewrite (loop_body_unfold _ _ _ _ _ _ uc) by done.
  destruct (out_of_range _ _); [intros [= <- <-]; repeat split; lia|].
  destruct (unnotified _ _); [|intros [= <- <-]; repeat split; lia].
  destruct (Api.LastModified uc) as [lm|]; [|intros [= <- <-]; repeat split; lia].
  destruct (sendToWebhook cfg env (new_review review uc lm) s) as [o1 s1] eqn:Hs.
  pose proof (sendToWebhook_effects _ _ _ _ _ _ Hs) as (Hf & Hr & Hfail & Hdone & Hnot).
  assert (testMode cfg = true -> posted s1 = posted s ∧ (o1 = Done None ∨ s1 = s)) as Hdry.
  { intros Ht. destruct (sendToWebhook_dry_run _ _ _ _ Ht Hs) as [? [?|[_ ?]]]; auto. }
  destruct o1 as [[e|]|m|m]; intros [= <- <-].
  - specialize (Hdone eq_refl). rewrite attempts_add_log, failures_add_log. cbn.
    split; [done|]. split; [done|]. split; [lia|].
    intros Ht. destruct (Hdry Ht) as [_ [Ho|Hs1]]; [discriminate|].
    rewrite Hs1 in Hdone. lia.
  - specialize (Hdone eq_refl).
    split; [done|]. split; [done|]. split; [lia|].
    intros Ht. destruct (Hdry Ht) as [? _]. done.
  - rewrite (Hnot eq_refl). repeat split; lia.
  - rewrite (Hnot eq_refl). repeat split; lia.
Qed.

(** What the loop does to the world, whatever its outcome. *)
Lemma reconcile_effects ratingRange fetched : ∀ vars s o s',
  reconcile cfg env ratingRange vars fetched s = (o, s') ->
  csv_file s' = csv_file s ∧ disk_room s' = disk_room s
  ∧ (attempts s <= attempts s' <= attempts s + length fetched)%nat
  ∧ (testMode cfg = true -> posted s' = posted s ∧ failures s' = failures s).
Proof.
  induction fetched as [|review rest IH]; intros vars s o s'.
  - intros [= <- <-]. cbn. repeat split; lia.
  - rewrite reconcile_cons.
    destruct (loop_body cfg env ratingRange vars review s) as [o1 s1] eqn:Hb.
    destruct (loop_body_effects _ _ _ _ _ _ Hb) as (Hf & Hr & Ha & Hdry).
    destruct o1 as [vars1|m|m].
    + intros Hrec. destruct (IH _ _ _ _ Hrec) as (-> & -> & Ha' & Hdry').
      cbn [length]. split; [done|]. split; [done|]. split; [lia|].
      intros Ht. destruct (Hdry Ht) as [<- <-]. auto.
    + intros [= <- <-]. cbn [length]. split; [done|]. split; [done|]. split; [lia|done].
    + intros [= <- <-]. cbn [length]. split; [done|]. split; [done|]. split; [lia|done].
Qed.

End LoopEffects.

Section LoopResults.
Context `{!Library}.
Variables (cfg : Config) (env : Env) (ratingRange : option RatingRange).




Lemma sendToWebhook_done_Repeat review s err s' :
  sendToWebhook cfg env review s = (Done err, s') ->
  is_done (Repeat star (Rating review)) = true.
Proof.
  unfold sendToWebhook, mbind, prog_bind, lift.
  destruct (Repeat star (Rating review)); [done|discriminate..].
Qed.

Lemma iteration_invariant slept0 review st news s st' news' s' :
  iteration cfg env ratingRange review st news s st' news' s' ->
  loop_invariant ratingRange slept0 st news s -> loop_invariant ratingRange slept0 st' news' s'.
Proof.
  intros Hit (Hnd & Hall & Hslept).
  destruct Hit as [| |uc lm e s1 ? ? ? ? Hs|uc lm s1 Hp Hr Hu Hl Hs]; try done.
  - pose proof (sendToWebhook_delay _ _ _ _ _ _ Hs) as Hd. cbn in Hd.
    split; [done|]. split; [done|]. cbn. lia.
  - pose proof (sendToWebhook_delay _ _ _ _ _ _ Hs) as Hd. cbn in Hd.
    pose proof (sendToWebhook_done_Repeat _ _ _ _ Hs) as Hrep.
    set (new := set_Notified (new_review review uc lm)) in *.
    assert (Api.ReviewId review ∉ (ReviewID <$> news)) as Hfresh.
    { intros (r & Hid & Hin)%list_elem_of_fmap.
      rewrite Forall_forall in Hall. destruct (Hall r Hin) as (Hlr & Hn & _).
      rewrite <- Hid in Hlr.
      apply unnotified_true in Hu as [Hu|(r' & Hu & Hu')]; rewrite Hu in Hlr;
        [discriminate | injection Hlr as ->; congruence]. }
    split; [|split].
    + rewrite fmap_app. apply NoDup_app. split; [done|]. split.
      * intros x Hx [->|[]%elem_of_nil]%elem_of_cons. done.
      * apply NoDup_singleton.
    + apply Forall_app. split.
      * eapply Forall_impl; [exact Hall|]. intros r (Hlr & Hn & Hrest).
        split; [|done]. rewrite lookup_insert_ne; [done|].
        intros Heq. rewrite <- Heq in Hlr.
        apply unnotified_true in Hu as [Hu|(r' & Hu & Hu')];
          rewrite Hu in Hlr; [discriminate | injection Hlr as ->; congruence].
      * constructor; [|constructor]. split; [apply lookup_insert_eq|]. done.
    + rewrite length_app. cbn [length]. lia.
Qed.

Lemma iterations_invariant slept0 fetched st news s st' news' s' :
  iterations cfg env ratingRange fetched st news s st' news' s' ->
  loop_invariant ratingRange slept0 st news s -> loop_invariant ratingRange slept0 st' news' s'.
Proof.
  induction 1 as [|? ? ? ? ? ? ? ? ? ? ? Hit _ IH]; [done|].
  intros Hinv. apply IH. eapply iteration_invariant; eauto.
Qed.

Lemma loop_invariant_start (st : gmap string Review) s :
  loop_invariant ratingRange (slept s) st [] s.
Proof. split; [constructor|]. split; [constructor|]. cbn. lia. Qed.

End LoopResults.

(** * Properties of the state store *)

Section Strings.

Lemma append_cons (c : ascii) (s t : string) : String c s +:+ t = String c (s +:+ t).
Proof. reflexivity. Qed.

Lemma append_nil_l (s : string) : "" +:+ s = s.
Proof. reflexivity. Qed.

Lemma append_nil_r (s : string) : s +:+ "" = s.
Proof. induction s as [|c s IH]; [done|]. rewrite append_cons. by f_equal. Qed.

Lemma append_assoc (s1 s2 s3 : string) : (s1 +:+ s2) +:+ s3 = s1 +:+ (s2 +:+ s3).
Proof. induction s1 as [|c s1 IH]; [done|]. rewrite !append_cons. by f_equal. Qed.

Lemma is_prefix_refl s : is_prefix s s.
Proof. exists "". by rewrite append_nil_r. Qed.

Lemma is_prefix_app p s rest : is_prefix p s -> is_prefix p (s +:+ rest).
Proof. intros [r ->]. exists (r +:+ rest). apply append_assoc. Qed.

Lemma is_prefix_app_l p q s : is_prefix q s -> is_prefix (p +:+ q) (p +:+ s).
Proof. intros [r ->]. exists r. by rewrite append_assoc. Qed.

Lemma substring_is_prefix (n : nat) (s : string) : is_prefix (String.substring 0 n s) s.
Proof.
  revert n. induction s as [|c s IH]; intros [|n]; simpl.
  - by exists "".
  - by exists "".
  - by eexists.
  - destruct (IH n) as [r Hr]. exists r. rewrite append_cons. by f_equal.
Qed.

End Strings.

Section Substrings.

Lemma string_length_app (s t : string) :
  String.length (s +:+ t) = (String.length s + String.length t)%nat.
Proof. induction s as [|c s IH]; [done|]. rewrite append_cons. cbn. by rewrite IH. Qed.

Lemma substring_all (s : string) : String.substring 0 (String.length s) s = s.
Proof. induction s as [|c s IH]; [done|]. cbn. by rewrite IH. Qed.

(** A string is what comes before and what comes after a position. *)
Lemma substring_split (s : string) : ∀ n,
  (n <= String.length s)%nat ->
  String.substring 0 n s +:+ String.substring n (String.length s - n) s = s.
Proof.
  induction s as [|c s IH]; intros [|n] Hn; cbn in Hn |- *; try done; try lia.
  - by rewrite substring_all.
  - rewrite append_cons. f_equal. apply IH. lia.
Qed.

Lemma substring_length (s : string) : ∀ n,
  (n <= String.length s)%nat -> String.length (String.substring 0 n s) = n.
Proof.
  induction s as [|c s IH]; intros [|n] Hn; cbn in Hn |- *; try done; try lia.
  rewrite IH; lia.
Qed.

Lemma substring_rest_length (s : string) : ∀ n,
  (n <= String.length s)%nat ->
  String.length (String.substring n (String.length s - n) s) = (String.length s - n)%nat.
Proof.
  intros n Hn. pose proof (substring_split s n Hn) as Hs.
  apply (f_equal String.length) in Hs.
  rewrite string_length_app, substring_length in Hs by done. lia.
Qed.

End Substrings.

Section Buffered.

Lemma only_file_refl s : only_file s s.
Proof. by repeat split. Qed.

Lemma only_file_trans s1 s2 s3 : only_file s1 s2 -> only_file s2 s3 -> only_file s1 s3.
Proof. unfold only_file. intros (-> & -> & ->) (-> & -> & ->). done. Qed.

Lemma only_file_eq s s' :
  only_file s s' -> s' = set_file (csv_file s') (disk_room s') s.
Proof. destruct s, s'. unfold only_file, set_file; simpl. intros (-> & -> & ->). done. Qed.

Lemma has_room_le s n m : (m <= n)%nat -> has_room s n -> has_room s m.
Proof. unfold has_room. destruct (disk_room s); [lia|done]. Qed.

Lemma has_room_unlimited s n : disk_room s = None -> has_room s n.
Proof. unfold has_room. by intros ->. Qed.

Lemma on_the_way_failed total b s rest rest' :
  failed b = true -> on_the_way total b s rest -> on_the_way total b s rest'.
Proof. intros Hf (f & ? & Hp). rewrite Hf in Hp. exists f. by rewrite Hf. Qed.

Lemma on_the_way_prefix total b s rest :
  on_the_way total b s rest -> ∃ f, csv_file s = Some f ∧ is_prefix f total.
Proof.
  intros (f & Hf & Hp). exists f. split; [done|].
  destruct (failed b); [done|]. rewrite Hp. eexists; done.
Qed.

(** What a write to the file does to the writer and the file on their
    way to [total]: [p] is what the buffer holds or the string forwarded,
    [b'] the writer afterwards. *)
Lemma file_Write_inv total p rest f s ok s' :
  csv_file s = Some f ->
  total = f +:+ (p +:+ rest) ->
  file_Write p s = (ok, s') ->
  on_the_way total {| buf := if ok then "" else p; failed := negb ok |} s' rest
  ∧ only_file s s'
  ∧ (disk_room s = None -> disk_room s' = None)
  ∧ (∀ n, has_room s (String.length p + n) -> ok = true ∧ has_room s' n).
Proof.
  intros Hf Htotal. unfold file_Write. rewrite Hf. cbn [default].
  unfold has_room. destruct (disk_room s) as [room|] eqn:Hroom.
  - destruct (Nat.leb_spec (String.length p) room) as [Hle|Hgt].
    + intros [= <- <-]. cbn. split.
      { eexists. split; [done|]. rewrite Htotal. by rewrite append_assoc. }
      split; [done|]. split; [done|]. intros n Hn. split; [done|]. lia.
    + intros [= <- <-]. cbn. split.
      { eexists. split; [done|]. rewrite Htotal.
        apply is_prefix_app_l, is_prefix_app, substring_is_prefix. }
      split; [done|]. split; [done|]. intros n Hn. lia.
  - intros [= <- <-]. cbn. split.
    { eexists. split; [done|]. rewrite Htotal. by rewrite append_assoc. }
    by repeat split.
Qed.

Lemma bufio_Flush_empty b s b' s' :
  bufio_Flush b s = (b', s') -> failed b' = false -> buf b' = "".
Proof.
  unfold bufio_Flush. destruct (failed b) eqn:Hfail.
  { intros [= <- <-]. congruence. }
  case_bool_decide as Hempty.
  { intros [= <- <-]. done. }
  destruct (file_Write (buf b) s) as [[] s1]; intros [= <- <-]; done.
Qed.

Lemma bufio_Flush_inv total rest b s b' s' :
  on_the_way total b s rest ->
  bufio_Flush b s = (b', s') ->
  on_the_way total b' s' rest ∧ only_file s s'
  ∧ (failed b = true -> failed b' = true)
  ∧ (disk_room s = None -> disk_room s' = None)
  ∧ (∀ n, failed b = false -> has_room s (String.length (buf b) + n) ->
          failed b' = false ∧ has_room s' n).
Proof.
  intros (f & Hf & Hinv). unfold bufio_Flush.
  destruct (failed b) eqn:Hfail.
  { intros [= <- <-]. rewrite Hfail. split; [exists f; by rewrite Hfail|].
    split; [apply only_file_refl|]. done. }
  case_bool_decide as Hempty.
  { intros [= <- <-]. rewrite Hfail. split; [exists f; by rewrite Hfail|].
    split; [apply only_file_refl|]. split; [done|]. split; [done|].
    intros n _ Hn. split; [done|]. rewrite Hempty in Hn. exact Hn. }
  destruct (file_Write (buf b) s) as [ok s1] eqn:Hw.
  destruct (file_Write_inv _ _ _ _ _ _ _ Hf Hinv Hw) as (Hway & Ho & Hr & Hn).
  destruct ok; intros [= <- <-]; cbn [failed buf].
  - split; [exact Hway|]. split; [done|]. split; [done|]. split; [done|].
    intros n _ Hroom. destruct (Hn n Hroom). done.
  - split.
    { destruct Hway as (f' & ? & Hp). exists f'. done. }
    split; [done|]. split; [done|]. split; [done|].
    intros n _ Hroom. by destruct (Hn n Hroom).
Qed.

Lemma forward_write_inv total rest p b s b' s' :
  on_the_way total b s (p +:+ rest) ->
  failed b = false -> buf b = "" ->
  forward_write p s = (b', s') ->
  on_the_way total b' s' rest ∧ only_file s s'
  ∧ (disk_room s = None -> disk_room s' = None)
  ∧ (∀ n, has_room s (String.length p + n) -> failed b' = false ∧ has_room s' n).
Proof.
  intros (f & Hf & Hinv) Hfail Hbuf. rewrite Hfail, Hbuf, append_nil_l in Hinv.
  unfold forward_write. destruct (file_Write p s) as [ok s1] eqn:Hw.
  destruct (file_Write_inv _ _ _ _ _ _ _ Hf Hinv Hw) as (Hway & Ho & Hr & Hn).
  intros [= <- <-]. split.
  { destruct ok; [exact Hway|]. destruct Hway as (f' & ? & Hp). exists f'. done. }
  split; [done|]. split; [done|].
  intros n Hroom. destruct (Hn n Hroom) as [-> ?]. done.
Qed.

(** [WriteString] takes the writer and the file a step further on their
    way; on a disk with room for what is buffered and the string, it does
    not fail. *)
Lemma bufio_WriteString_inv total p rest b s b' s' :
  on_the_way total b s (p +:+ rest) ->
  bufio_WriteString p b s = (b', s') ->
  on_the_way total b' s' rest ∧ only_file s s'
  ∧ (failed b = true -> failed b' = true)
  ∧ (disk_room s = None -> disk_room s' = None)
  ∧ (∀ n, failed b = false ->
          has_room s (String.length (buf b) + String.length p + n) ->
          failed b' = false ∧ has_room s' (String.length (buf b') + n)).
Proof.
  intros Hinv. unfold bufio_WriteString.
  destruct (failed b) eqn:Hfail.
  { intros [= <- <-]. split; [by eapply on_the_way_failed|].
    split; [apply only_file_refl|]. done. }
  set (avail := (defaultBufSize - String.length (buf b))%nat).
  destruct (Nat.leb_spec (String.length p) avail) as [Hfits|Hlong].
  { intros [= <- <-]. cbn [buf failed]. split.
    - destruct Hinv as (f & Hf & Hp). rewrite Hfail in Hp. exists f. split; [done|].
      cbn [failed buf]. rewrite Hp. by rewrite (append_assoc (buf b)).
    - split; [apply only_file_refl|]. split; [done|]. split; [done|].
      intros n _ Hroom. split; [done|]. by rewrite string_length_app. }
  case_bool_decide as Hempty.
  { intros Hw.
    destruct (forward_write_inv _ _ _ _ _ _ _ Hinv Hfail Hempty Hw) as (? & ? & ? & Hn).
    split; [done|]. split; [done|]. split; [done|]. split; [done|].
    intros n _ Hroom. rewrite Hempty in Hroom. cbn in Hroom.
    destruct (Hn n Hroom) as [Hf' Hr']. split; [done|].
    unfold forward_write in Hw. destruct (file_Write p s) as [ok ?].
    injection Hw as <- _. cbn. exact Hr'. }
  assert (avail <= String.length p)%nat as Havail by lia.
  set (pre := String.substring 0 avail p).
  set (post := String.substring avail (String.length p - avail) p).
  assert (p = pre +:+ post) as Hsplit by (symmetry; by apply substring_split).
  set (filled := {| buf := buf b +:+ pre; failed := false |}).
  assert (on_the_way total filled s (post +:+ rest)) as Hfilled.
  { destruct Hinv as (f & Hf & Hp). rewrite Hfail in Hp. exists f. split; [done|].
    cbn [failed buf filled]. rewrite Hp, Hsplit. by rewrite !append_assoc. }
  destruct (bufio_Flush filled s) as [b1 s1] eqn:Hflush.
  destruct (bufio_Flush_inv _ _ _ _ _ _ Hfilled Hflush) as (Hway1 & Ho1 & _ & Hr1 & Hn1).
  assert (∀ n, has_room s (String.length (buf b) + String.length p + n) ->
               failed b1 = false ∧ has_room s1 (String.length post + n)) as Hroom1.
  { intros n Hroom. apply Hn1; [done|]. cbn [buf filled].
    rewrite string_length_app. unfold pre. rewrite substring_length by done.
    unfold post. rewrite substring_rest_length by done.
    eapply has_room_le; [|exact Hroom]. lia. }
  destruct (failed b1) eqn:Hfail1.
  { intros [= <- <-]. split; [by eapply on_the_way_failed|].
    split; [done|]. split; [done|]. split; [done|].
    intros n _ Hroom. destruct (Hroom1 n Hroom). congruence. }
  pose proof (bufio_Flush_empty _ _ _ _ Hflush Hfail1) as Hempty1.
  destruct (String.length post <=? defaultBufSize)%nat.
  - intros [= <- <-]. split.
    { destruct Hway1 as (f & Hf & Hp). rewrite Hfail1, Hempty1, append_nil_l in Hp.
      exists f. split; [done|]. exact Hp. }
    split; [done|]. split; [done|]. split; [done|].
    intros n _ Hroom. split; [done|]. by destruct (Hroom1 n Hroom).
  - intros Hw.
    destruct (forward_write_inv _ _ _ _ _ _ _ Hway1 Hfail1 Hempty1 Hw) as (? & ? & ? & Hn).
    split; [done|]. split; [eapply only_file_trans; eauto|]. split; [done|].
    split; [auto|].
    intros n _ Hroom. destruct (Hroom1 n Hroom) as [_ Hr].
    destruct (Hn n Hr) as [Hf' Hr']. split; [done|].
    unfold forward_write in Hw. destruct (file_Write post s1) as [ok ?].
    injection Hw as <- _. cbn. exact Hr'.
Qed.

(** A string that fits the buffer is taken without any write to the
    file. *)
Lemma bufio_WriteString_fits p b s :
  failed b = false ->
  (String.length (buf b) + String.length p <= defaultBufSize)%nat ->
  bufio_WriteString p b s = ({| buf := buf b +:+ p; failed := false |}, s).
Proof.
  intros Hf Hlen. unfold bufio_WriteString. rewrite Hf.
  destruct (Nat.leb_spec (String.length p) (defaultBufSize - String.length (buf b)));
    [done|lia].
Qed.

(** [WriteByte] does what [WriteString] does with a string of one
    byte. *)
Lemma bufio_WriteByte_WriteString c b s :
  (String.length (buf b) <= defaultBufSize)%nat ->
  bufio_WriteByte c b s = bufio_WriteString (String c "") b s.
Proof.
  intros Hlen. unfold bufio_WriteByte, bufio_WriteString.
  destruct (failed b) eqn:Hfail; [done|].
  destruct (Nat.leb_spec defaultBufSize (String.length (buf b))) as [Hfull|Hfree].
  - assert (String.length (buf b) = defaultBufSize) as Heq by lia.
    rewrite Heq, Nat.sub_diag. cbn [String.length Nat.leb].
    rewrite bool_decide_false by (intros Hb; by rewrite Hb in Heq).
    cbn [String.substring]. rewrite append_nil_r.
    assert ({| buf := buf b; failed := false |} = b) as -> by (destruct b; cbn in *; congruence).
    destruct (bufio_Flush b s) as [b1 s1] eqn:Hflush.
    destruct (failed b1) eqn:Hfail1; [done|].
    rewrite (bufio_Flush_empty _ _ _ _ Hflush Hfail1). reflexivity.
  - change (String.length (String c "")) with 1%nat.
    destruct (Nat.leb_spec 1 (defaultBufSize - String.length (buf b))) as [_|Hno];
      [by rewrite Hfail|lia].
Qed.

End Buffered.

Section Save.
Context `{!Library}.
Variables (cfg : Config) (env : Env).

Lemma csv_text_cons record records :
  csv_text (record :: records) = csv_line record +:+ csv_text records.
Proof. reflexivity. Qed.

Lemma csv_text_length_cons record records :
  String.length (csv_text (record :: records))
  = (String.length (csv_line record) + String.length (csv_text records))%nat.
Proof. by rewrite csv_text_cons, string_length_app. Qed.

(** The strings handed to the buffered writer make up the line of the
    record. *)
Lemma quoted_pieces_text field : ∀ seg,
  foldr String.append "" (quoted_pieces seg field) = seg +:+ quoted_body field.
Proof.
  induction field as [|c field IH]; intros seg; cbn [quoted_pieces quoted_body].
  - case_bool_decide as Hs; cbn; [by rewrite Hs|by rewrite !append_nil_r].
  - case_bool_decide as Hq.
    + cbn [foldr]. rewrite IH, append_nil_l. reflexivity.
    + case_bool_decide as Hn.
      * cbn [foldr]. rewrite IH, append_nil_l. reflexivity.
      * rewrite IH, append_assoc. reflexivity.
Qed.

Lemma foldr_append_app (l1 l2 : list string) :
  foldr String.append "" (l1 ++ l2)%list
  = foldr String.append "" l1 +:+ foldr String.append "" l2.
Proof.
  induction l1 as [|p l1 IH]; [done|]. cbn [foldr app]. by rewrite IH, append_assoc.
Qed.

Lemma field_pieces_text field :
  foldr String.append "" (field_pieces field) = csv_field field.
Proof.
  unfold field_pieces, csv_field. destruct (fieldNeedsQuotes field).
  - cbn [foldr]. rewrite foldr_append_app, quoted_pieces_text. cbn [foldr].
    rewrite append_nil_l, append_nil_r. reflexivity.
  - cbn. apply append_nil_r.
Qed.

Lemma fields_pieces_text record : ∀ first,
  foldr String.append "" (fields_pieces first record)
  = match record with
    | [] => ""
    | _ => (if first then "" else ",") +:+ csv_fields record
    end.
Proof.
  induction record as [|field rest IH]; intros first; [done|].
  cbn [fields_pieces]. rewrite !foldr_append_app, field_pieces_text, IH.
  assert (foldr String.append "" (if first then [] else [","])
          = if first then "" else ",") as -> by (by destruct first).
  destruct rest as [|field' rest]; cbn [csv_fields].
  - by rewrite append_nil_r.
  - reflexivity.
Qed.

Lemma csv_pieces_text record :
  foldr String.append "" (csv_pieces record) = csv_line record.
Proof.
  unfold csv_pieces, csv_line. rewrite foldr_append_app, fields_pieces_text.
  cbn [foldr]. rewrite append_nil_r. destruct record; reflexivity.
Qed.

Lemma write_pieces_inv total pieces : ∀ rest b s b' s',
  on_the_way total b s (foldr String.append "" pieces +:+ rest) ->
  write_pieces pieces b s = (b', s') ->
  on_the_way total b' s' rest ∧ only_file s s'
  ∧ (failed b = true -> failed b' = true)
  ∧ (disk_room s = None -> disk_room s' = None)
  ∧ (∀ n, failed b = false ->
          has_room s (String.length (buf b)
                      + String.length (foldr String.append "" pieces) + n) ->
          failed b' = false ∧ has_room s' (String.length (buf b') + n)).
Proof.
  induction pieces as [|p pieces IH]; intros rest b s b' s' Hinv.
  - intros [= <- <-]. split; [done|]. split; [apply only_file_refl|].
    split; [done|]. split; [done|]. intros n Hf Hroom. split; [done|].
    cbn in Hroom. by rewrite Nat.add_0_r in Hroom.
  - cbn [write_pieces foldr] in Hinv |- *.
    destruct (bufio_WriteString p b s) as [b1 s1] eqn:Hw.
    rewrite append_assoc in Hinv.
    destruct (bufio_WriteString_inv _ _ _ _ _ _ _ Hinv Hw) as (Hinv1 & Ho1 & Hf1 & Hr1 & Hn1).
    intros Hrest. destruct (IH _ _ _ _ _ Hinv1 Hrest) as (Hinv2 & Ho2 & Hf2 & Hr2 & Hn2).
    split; [done|]. split; [eapply only_file_trans; eauto|].
    split; [auto|]. split; [auto|].
    intros n Hf Hroom. rewrite string_length_app in Hroom.
    destruct (Hn1 (String.length (foldr String.append "" pieces) + n)%nat Hf) as [Hf1' Hroom1].
    { eapply has_room_le; [|exact Hroom]. lia. }
    apply Hn2; [done|]. eapply has_room_le; [|exact Hroom1]. lia.
Qed.

Lemma write_pieces_fits pieces : ∀ b s,
  failed b = false ->
  (String.length (buf b) + String.length (foldr String.append "" pieces)
   <= defaultBufSize)%nat ->
  write_pieces pieces b s
  = ({| buf := buf b +:+ foldr String.append "" pieces; failed := false |}, s).
Proof.
  induction pieces as [|p pieces IH]; intros b s Hf Hlen.
  - cbn. rewrite append_nil_r. destruct b; cbn in *. by subst.
  - cbn [write_pieces foldr] in Hlen |- *. rewrite string_length_app in Hlen.
    rewrite bufio_WriteString_fits by (done || lia).
    rewrite IH; cbn [buf failed]; [by rewrite append_assoc|done|].
    rewrite string_length_app. lia.
Qed.

Lemma csv_Write_inv total rest record b s :
  on_the_way total b s (csv_line record +:+ rest) ->
  ∃ b' s', csv_Write record b s = (Done (b', failed b'), s')
    ∧ on_the_way total b' s' rest ∧ only_file s s'
    ∧ (disk_room s = None -> disk_room s' = None)
    ∧ (∀ n, failed b = false ->
            has_room s (String.length (buf b) + String.length (csv_line record) + n) ->
            failed b' = false ∧ has_room s' (String.length (buf b') + n)).
Proof.
  intros Hinv. unfold csv_Write. rewrite <- csv_pieces_text in Hinv |- *.
  destruct (write_pieces (csv_pieces record) b s) as [b' s'] eqn:Hw.
  destruct (write_pieces_inv _ _ _ _ _ _ _ Hinv Hw) as (? & ? & _ & ? & ?).
  exists b', s'. done.
Qed.

Lemma csv_Write_fits record b s :
  failed b = false ->
  (String.length (buf b) + String.length (csv_line record) <= defaultBufSize)%nat ->
  csv_Write record b s
  = (Done ({| buf := buf b +:+ csv_line record; failed := false |}, false), s).
Proof.
  intros Hf Hlen. unfold csv_Write. rewrite <- csv_pieces_text in Hlen |- *.
  by rewrite write_pieces_fits.
Qed.

Lemma write_records_inv total rest reviews : ∀ b s,
  failed b = false ->
  on_the_way total b s (csv_text (record_of <$> reviews) +:+ rest) ->
  ∃ b' s', write_records reviews b s = (Done (b', failed b'), s')
    ∧ on_the_way total b' s' rest ∧ only_file s s'
    ∧ (disk_room s = None -> disk_room s' = None)
    ∧ (∀ n, has_room s (String.length (buf b)
                        + String.length (csv_text (record_of <$> reviews)) + n) ->
            failed b' = false ∧ has_room s' (String.length (buf b') + n)).
Proof.
  induction reviews as [|review reviews IH]; intros b s Hfail Hinv.
  - exists b, s. rewrite Hfail. split; [done|]. split; [done|].
    split; [apply only_file_refl|]. split; [done|].
    intros n Hroom. split; [done|]. cbn in Hroom. by rewrite Nat.add_0_r in Hroom.
  - rewrite fmap_cons, csv_text_cons, append_assoc in Hinv.
    destruct (csv_Write_inv _ _ _ _ _ Hinv) as (b1 & s1 & Hw & Hinv1 & Ho1 & Hr1 & Hn1).
    cbn [write_records]. unfold mbind, prog_bind. rewrite Hw.
    assert (∀ n, has_room s (String.length (buf b)
                   + String.length (csv_text (record_of <$> review :: reviews)) + n) ->
              failed b1 = false
              ∧ has_room s1 (String.length (buf b1)
                             + String.length (csv_text (record_of <$> reviews)) + n))
      as Hroom1.
    { intros n Hroom. rewrite fmap_cons, csv_text_length_cons in Hroom.
      destruct (Hn1 (String.length (csv_text (record_of <$> reviews)) + n)%nat Hfail)
        as [? Hr]; [eapply has_room_le; [|exact Hroom]; lia|].
      split; [done|]. eapply has_room_le; [|exact Hr]. lia. }
    destruct (failed b1) eqn:Hfail1.
    + exists b1, s1. rewrite Hfail1. split; [done|].
      split; [by eapply on_the_way_failed|]. split; [done|]. split; [done|].
      intros n Hroom. destruct (Hroom1 n Hroom). congruence.
    + destruct (IH _ _ Hfail1 Hinv1) as (b2 & s2 & Hw2 & Hinv2 & Ho2 & Hr2 & Hn2).
      exists b2, s2. split; [done|]. split; [done|].
      split; [eapply only_file_trans; eauto|]. split; [auto|].
      intros n Hroom. destruct (Hroom1 n Hroom) as [_ Hr]. auto.
Qed.

Lemma write_records_fits reviews : ∀ b s,
  failed b = false ->
  (String.length (buf b) + String.length (csv_text (record_of <$> reviews))
   <= defaultBufSize)%nat ->
  write_records reviews b s
  = (Done ({| buf := buf b +:+ csv_text (record_of <$> reviews); failed := false |}, false), s).
Proof.
  induction reviews as [|r reviews IH]; intros b s Hf Hlen.
  - cbn. rewrite append_nil_r. destruct b; cbn in *. by subst.
  - rewrite fmap_cons, csv_text_cons in Hlen |- *. rewrite string_length_app in Hlen.
    cbn [write_records]. unfold mbind, prog_bind.
    rewrite csv_Write_fits by (done || lia). cbn [failed].
    rewrite IH; cbn [buf failed]; [|done|].
    + by rewrite append_assoc.
    + rewrite string_length_app. lia.
Qed.

(** [saveReviews] when the file cannot be created: an error is returned
    and nothing has changed. *)
Lemma saveReviews_create_fails reviews s :
  create_fails env = true ->
  saveReviews env reviews s = (Done (Some ErrCreateCSV), s).
Proof.
  intros Hc. unfold saveReviews, mbind, prog_bind, os_Create. rewrite Hc. reflexivity.
Qed.

(** [saveReviews] once the file is created: it returns; only the file has
    changed; the file holds an initial segment of the text of the header
    and the records; when the disk has room for everything, no error is
    returned and the file holds the whole text. *)
Lemma saveReviews_created_room reviews s :
  create_fails env = false ->
  ∃ err s', saveReviews env reviews s = (Done err, s') ∧ only_file s s'
    ∧ (∃ f, csv_file s' = Some f ∧ is_prefix f (file_of reviews))
    ∧ (disk_room s = None -> disk_room s' = None)
    ∧ (has_room s (String.length (file_of reviews)) ->
       err = None ∧ csv_file s' = Some (file_of reviews)).
Proof.
  intros Hc. unfold file_of. set (total := csv_text (header :: (record_of <$> reviews))).
  unfold saveReviews, mbind, prog_bind, os_Create. rewrite Hc. cbn [negb].
  set (s0 := set_file (Some "") (disk_room s) s).
  assert (on_the_way total NewWriter s0
            (csv_line header +:+ (csv_text (record_of <$> reviews) +:+ ""))) as Hinv0.
  { exists "". split; [done|]. cbn [failed NewWriter buf].
    rewrite !append_nil_l, append_nil_r. reflexivity. }
  assert (only_file s s0) as Ho0 by done.
  assert (has_room s (String.length total) ->
          has_room s0 (String.length (buf NewWriter) + String.length (csv_line header)
                       + (String.length (csv_text (record_of <$> reviews)) + 0))) as Hroom0.
  { intros Hroom. unfold total in Hroom. rewrite csv_text_length_cons in Hroom.
    cbn [buf NewWriter String.length]. eapply has_room_le; [|exact Hroom]. lia. }
  destruct (csv_Write_inv _ _ _ _ _ Hinv0) as (b1 & s1 & Hw & Hinv1 & Ho1 & Hr1 & Hn1).
  rewrite Hw. destruct (failed b1) eqn:Hfail1.
  - unfold csv_Flush. destruct (bufio_Flush b1 s1) as [b2 s2] eqn:Hfl. cbn.
    destruct (bufio_Flush_inv _ _ _ _ _ _ Hinv1 Hfl) as (Hinv2 & Ho2 & _ & Hr2 & _).
    eexists _, _. split; [reflexivity|].
    split; [eauto using only_file_trans|].
    split; [by eapply on_the_way_prefix|]. split; [auto|].
    intros Hroom. destruct (Hn1 _ eq_refl (Hroom0 Hroom)). congruence.
  - destruct (write_records_inv _ _ _ _ _ Hfail1 Hinv1)
      as (b2 & s2 & Hw2 & Hinv2 & Ho2 & Hr2 & Hn2).
    rewrite Hw2. unfold csv_Flush.
    destruct (bufio_Flush b2 s2) as [b3 s3] eqn:Hfl. cbn.
    destruct (bufio_Flush_inv _ _ _ _ _ _ Hinv2 Hfl) as (Hinv3 & Ho3 & _ & Hr3 & Hn3).
    eexists _, _. split; [reflexivity|].
    split; [eauto using only_file_trans|].
    split; [by eapply on_the_way_prefix|]. split; [auto|].
    intros Hroom. destruct (Hn1 _ eq_refl (Hroom0 Hroom)) as [_ Hroom1].
    destruct (Hn2 0%nat) as [Hf2 Hroom2];
      [eapply has_room_le; [|exact Hroom1]; lia|].
    destruct (Hn3 0%nat Hf2 Hroom2) as [Hf3 _]. rewrite Hf2.
    split; [done|].
    destruct Hinv3 as (f & Hf & Hp). rewrite Hf3 in Hp.
    rewrite (bufio_Flush_empty _ _ _ _ Hfl Hf3) in Hp.
    rewrite append_nil_l, append_nil_r in Hp. rewrite Hf. f_equal. symmetry. exact Hp.
Qed.

Lemma saveReviews_created reviews s :
  create_fails env = false ->
  ∃ err s', saveReviews env reviews s = (Done err, s') ∧ only_file s s'
    ∧ (∃ f, csv_file s' = Some f
            ∧ is_prefix f (csv_text (header :: (record_of <$> reviews))))
    ∧ (disk_room s = None ->
       err = None ∧ disk_room s' = None
       ∧ csv_file s' = Some (csv_text (header :: (record_of <$> reviews)))).
Proof.
  intros Hc.
  destruct (saveReviews_created_room reviews s Hc) as (err & s' & Hsave & Ho & Hp & Hr & Hfull).
  exists err, s'. split; [done|]. split; [done|]. split; [done|].
  intros Hroom. destruct (Hfull (has_room_unlimited _ _ Hroom)) as [-> ?]. auto.
Qed.

(** [saveReviews] always returns: an error or nil. *)
Lemma saveReviews_returns reviews s :
  ∃ err s', saveReviews env reviews s = (Done err, s').
Proof.
  destruct (create_fails env) eqn:Hc.
  - rewrite (saveReviews_create_fails reviews s Hc). eauto.
  - destruct (saveReviews_created reviews s Hc) as (err & s' & ? & _). eauto.
Qed.

(** When [saveReviews] returns nil on a disk with room for the whole
    file, the file holds the whole text. *)
Lemma saveReviews_nil_room reviews s s' :
  saveReviews env reviews s = (Done None, s') ->
  has_room s (String.length (file_of reviews)) ->
  only_file s s' ∧ csv_file s' = Some (file_of reviews).
Proof.
  intros Hsave Hroom. destruct (create_fails env) eqn:Hc.
  { rewrite saveReviews_create_fails in Hsave by done. discriminate. }
  destruct (saveReviews_created_room reviews s Hc) as (err & s1 & Hsave' & Ho & _ & _ & Hfull).
  rewrite Hsave in Hsave'. injection Hsave' as <- <-.
  destruct (Hfull Hroom). done.
Qed.

End Save.

Section Strconv.

Lemma digit_of_bounds c d : digit_of c = Some d -> 0 <= d <= 9.
Proof.
  unfold digit_of. destruct (_ && _) eqn:Hb; [|discriminate].
  apply andb_true_iff in Hb as [?%Z.leb_le ?%Z.leb_le]. intros [= <-]. lia.
Qed.

Lemma digits_value_nonneg s : ∀ n v, digits_value n s = Parsed v -> 0 <= n -> 0 <= v.
Proof.
  induction s as [|c s IH]; intros n v; cbn [digits_value].
  - intros [= <-]. done.
  - destruct (digit_of c) as [d|] eqn:Hd; [|discriminate].
    destruct (_ <=? n); [discriminate|]. cbn zeta.
    destruct (maxUint64 <? n * 10 + d); [discriminate|].
    intros Hv Hn. apply (IH _ _ Hv). apply digit_of_bounds in Hd. lia.
Qed.

(** The value [strconv.Atoi] returns is an [int], with or without an
    error. *)
Lemma signed_value_is_int neg ds : is_int (signed_value neg ds).1.
Proof.
  unfold signed_value, is_int, minInt, maxInt, ParseUint.
  destruct ds as [|c ds]; [cbn; lia|].
  destruct (digits_value 0 (String c ds)) as [| |un] eqn:Hv.
  - cbn; lia.
  - destruct neg; cbn; lia.
  - apply digits_value_nonneg in Hv; [|done].
    destruct neg; cbn [negb andb].
    + destruct (Z.ltb_spec (- - 2 ^ 63) un); cbn; lia.
    + destruct (Z.ltb_spec (2 ^ 63 - 1) un); cbn; lia.
Qed.

Lemma Atoi_is_int s : is_int (Atoi s).1.
Proof.
  destruct s as [|c ds]; [unfold is_int, minInt, maxInt; cbn; lia|].
  cbn [Atoi]. repeat case_bool_decide; apply signed_value_is_int.
Qed.

Lemma digit_of_pretty_N_char (d : N) :
  (d < 10)%N -> digit_of (pretty_N_char d) = Some (Z.of_N d).
Proof.
  intros Hd.
  assert (d = 0 ∨ d = 1 ∨ d = 2 ∨ d = 3 ∨ d = 4 ∨ d = 5 ∨ d = 6 ∨ d = 7 ∨ d = 8 ∨ d = 9)%N
    as Hcases by lia.
  repeat destruct Hcases as [->|Hcases]; try subst d; reflexivity.
Qed.

(** Reading the digits that [pretty_N_go] puts in front of a string adds
    the number to the value read, as long as it fits 64 bits. *)
Lemma digits_value_pretty_N_go (x : N) : ∀ s,
  Z.of_N x <= maxUint64 ->
  digits_value 0 (pretty_N_go x s) = digits_value (Z.of_N x) s.
Proof.
  induction (N.lt_wf_0 x) as [x _ IH]; intros s Hx.
  destruct (decide (x = 0%N)) as [->|Hx0]; [by rewrite pretty_N_go_0|].
  rewrite pretty_N_go_step by lia.
  pose proof (N.div_mod x 10 ltac:(lia)) as Hdm.
  pose proof (N.mod_lt x 10 ltac:(lia)) as Hmod.
  assert (maxUint64 = 18446744073709551615) as Hmax by reflexivity.
  rewrite IH; [|apply N.div_lt; lia|].
  2:{ rewrite N2Z.inj_div. apply Z.le_trans with (Z.of_N x); [|done].
      apply Z.div_le_upper_bound; lia. }
  cbn [digits_value]. rewrite digit_of_pretty_N_char by done.
  assert (Z.of_N x = Z.of_N (x `div` 10) * 10 + Z.of_N (x `mod` 10)) as Hz by lia.
  assert (0 <= Z.of_N (x `mod` 10) < 10) as Hm
    by (split; [apply N2Z.is_nonneg|clear -Hmod; lia]).
  assert (maxUint64 / 10 + 1 = 1844674407370955162) as -> by reflexivity.
  destruct (Z.leb_spec 1844674407370955162 (Z.of_N (x `div` 10))); [lia|].
  cbn zeta.
  destruct (Z.ltb_spec maxUint64 (Z.of_N (x `div` 10) * 10 + Z.of_N (x `mod` 10))); [lia|].
  f_equal. lia.
Qed.

Lemma pretty_N_go_head (x : N) : ∀ s,
  (0 < x)%N ->
  ∃ c rest, pretty_N_go x s = String c rest ∧ c ≠ "-"%char ∧ c ≠ "+"%char.
Proof.
  induction (N.lt_wf_0 x) as [x _ IH]; intros s Hx.
  rewrite pretty_N_go_step by done.
  destruct (decide (x `div` 10 = 0)%N) as [->|Hd].
  - rewrite pretty_N_go_0. eexists _, _. split; [done|].
    unfold pretty_N_char. by repeat case_match.
  - apply IH; [apply N.div_lt; lia|]. destruct (x `div` 10)%N; [done|lia].
Qed.

(** [strconv.Atoi] reads back what [strconv.Itoa] writes, for every value
    of the type [int]. *)
Lemma Atoi_Itoa (n : Z) : is_int n -> Atoi (Itoa n) = (n, true).
Proof.
  intros [Hlo Hhi]. unfold minInt, maxInt in *.
  unfold Itoa, pretty, pretty_Z. destruct n as [|p|p].
  - reflexivity.
  - unfold pretty, pretty_positive, pretty, pretty_N. rewrite decide_False by done.
    destruct (pretty_N_go_head (N.pos p) "") as (c & rest & Heq & Hm & Hp); [done|].
    pose proof (digits_value_pretty_N_go (N.pos p) "") as Hv.
    rewrite Heq in Hv |- *. cbn [Atoi].
    rewrite !bool_decide_false by done.
    unfold signed_value, ParseUint. rewrite Hv by (unfold maxUint64; lia).
    cbn [digits_value negb andb]. unfold maxInt.
    destruct (Z.ltb_spec (2 ^ 63 - 1) (Z.of_N (N.pos p))); [lia|]. reflexivity.
  - unfold pretty, pretty_positive, pretty, pretty_N. rewrite decide_False by done.
    destruct (pretty_N_go_head (N.pos p) "") as (c & rest & Heq & Hm & Hp); [done|].
    pose proof (digits_value_pretty_N_go (N.pos p) "") as Hv.
    rewrite Heq in Hv |- *.
    change ("-" +:+ String c rest) with (String "-" (String c rest)). cbn [Atoi].
    rewrite bool_decide_false by done. rewrite bool_decide_true by done.
    unfold signed_value, ParseUint. rewrite Hv by (unfold maxUint64; lia).
    cbn [digits_value negb andb]. unfold minInt.
    destruct (Z.ltb_spec (- - 2 ^ 63) (Z.of_N (N.pos p))); [lia|]. reflexivity.
Qed.

End Strconv.

Section Load.
Context `{!Library}.

Lemma ParseBool_FormatBool b : ParseBool (FormatBool b) = Some b.
Proof. by destruct b. Qed.

Lemma load_record_of reviews review :
  load_record reviews (record_of review)
  = Done (<[ReviewID review := read_back review]> reviews).
Proof.
  unfold load_record, record_of, index, read_back; cbn.
  by rewrite ParseBool_FormatBool.
Qed.

Lemma load_records_of saved : ∀ reviews,
  load_records reviews (record_of <$> saved)
  = Done (foldl (fun m r => <[ReviewID r := read_back r]> m) reviews saved).
Proof.
  induction saved as [|r saved IH]; intros reviews; [done|].
  rewrite fmap_cons. cbn [load_records]. rewrite load_record_of. cbn.
  apply IH.
Qed.

Lemma foldl_read_back_notin saved id : ∀ reviews : gmap string Review,
  id ∉ (ReviewID <$> saved) ->
  foldl (fun m r => <[ReviewID r := read_back r]> m) reviews saved !! id = reviews !! id.
Proof.
  induction saved as [|r saved IH]; intros reviews; [done|].
  rewrite fmap_cons, not_elem_of_cons. intros [Hne Hni].
  cbn [foldl]. rewrite IH by done. by rewrite lookup_insert_ne.
Qed.

Lemma foldl_read_back_in saved review : ∀ reviews : gmap string Review,
  NoDup (ReviewID <$> saved) -> review ∈ saved ->
  foldl (fun m r => <[ReviewID r := read_back r]> m) reviews saved !! ReviewID review
  = Some (read_back review).
Proof.
  induction saved as [|r saved IH]; intros reviews; [by intros _ ?%elem_of_nil|].
  rewrite fmap_cons, NoDup_cons. intros [Hni Hnd] [Heq|Hin]%elem_of_cons.
  - subst r. cbn [foldl]. rewrite foldl_read_back_notin by done.
    by rewrite lookup_insert_eq.
  - cbn [foldl]. by apply IH.
Qed.

Lemma elem_of_range_map (reviews : gmap string Review) review :
  review ∈ range_map reviews ↔ ∃ id, reviews !! id = Some review.
Proof.
  unfold range_map. rewrite list_elem_of_fmap. split.
  - intros ([id r] & -> & Hin%elem_of_map_to_list). by exists id.
  - intros (id & Hl). exists (id, review). split; [done|]. by apply elem_of_map_to_list.
Qed.

Lemma range_map_ids (reviews : gmap string Review) :
  keyed reviews -> ReviewID <$> range_map reviews = (map_to_list reviews).*1.
Proof.
  intros Hk. unfold range_map. rewrite <- list_fmap_compose.
  apply list_fmap_ext. intros i [id r] Hl; cbn.
  apply Hk. apply elem_of_map_to_list. eapply list_elem_of_lookup_2; eauto.
Qed.

(** Saving a keyed state completely and loading it again gives, for
    every id, the record read back from what was written for it. *)
Lemma reload_lookup (reviews : gmap string Review) saved reloaded id review :
  keyed reviews ->
  saved ≡ₚ range_map reviews ->
  load_records ∅ (record_of <$> saved) = Done reloaded ->
  reviews !! id = Some review ->
  reloaded !! id = Some (read_back review).
Proof.
  intros Hk Hperm Hload Hl. rewrite load_records_of in Hload. injection Hload as <-.
  rewrite <- (Hk _ _ Hl). apply foldl_read_back_in.
  - rewrite Hperm, range_map_ids by done. apply NoDup_fst_map_to_list.
  - rewrite Hperm. apply elem_of_range_map. eauto.
Qed.

Lemma load_record_keyed reviews record reviews' :
  load_record reviews record = Done reviews' -> keyed reviews -> keyed reviews'.
Proof.
  unfold load_record, index.
  destruct (record !! 5%nat); [|discriminate]. cbn.
  destruct (record !! 6%nat); [|discriminate]. cbn.
  destruct (record !! 1%nat); [|discriminate]. cbn.
  destruct (record !! 0%nat) as [f0|]; [|discriminate]. cbn.
  destruct (record !! 2%nat); [|discriminate]. cbn.
  destruct (record !! 3%nat); [|discriminate]. cbn.
  destruct (record !! 4%nat); [|discriminate]. cbn.
  intros [= <-] Hk id r.
  destruct (decide (id = f0)) as [->|Hne].
  - rewrite lookup_insert_eq. by intros [= <-].
  - rewrite lookup_insert_ne by done. apply Hk.
Qed.

Lemma load_records_keyed records : ∀ reviews reviews',
  load_records reviews records = Done reviews' -> keyed reviews -> keyed reviews'.
Proof.
  induction records as [|record records IH]; intros reviews reviews'.
  - by intros [= <-].
  - cbn [load_records].
    destruct (load_record reviews record) as [r1|m|m] eqn:Hr; try discriminate.
    cbn. intros Hl Hk. eapply IH; [exact Hl|]. eapply load_record_keyed; eauto.
Qed.

Lemma keyed_empty : keyed ∅.
Proof. intros id r. by rewrite lookup_empty. Qed.

(** A record whose rating and date are read back as written is read back
    as it is. *)
Lemma read_back_id review :
  is_int (Rating review) ->
  parse_RFC3339 (format_RFC3339 (Date review)) = Some (Date review) ->
  read_back review = review.
Proof.
  intros Hint Hdate. unfold read_back. rewrite Atoi_Itoa, Hdate by done. by destruct review.
Qed.

(** What is read back has the flag that was written. *)
Lemma read_back_Notified review : Notified (read_back review) = Notified review.
Proof. reflexivity. Qed.

(** The ratings the load stores are [int]s. *)
Lemma load_record_ints reviews record reviews' :
  load_record reviews record = Done reviews' ->
  map_Forall (fun _ r => is_int (Rating r)) reviews ->
  map_Forall (fun _ r => is_int (Rating r)) reviews'.
Proof.
  unfold load_record, index.
  destruct (record !! 5%nat); [|discriminate]. cbn.
  destruct (record !! 6%nat); [|discriminate]. cbn.
  destruct (record !! 1%nat); [|discriminate]. cbn.
  destruct (record !! 0%nat) as [f0|]; [|discriminate]. cbn.
  destruct (record !! 2%nat); [|discriminate]. cbn.
  destruct (record !! 3%nat); [|discriminate]. cbn.
  destruct (record !! 4%nat); [|discriminate]. cbn.
  intros [= <-] Hall. apply map_Forall_insert_2; [|done]. apply Atoi_is_int.
Qed.

Lemma load_records_ints records : ∀ reviews reviews',
  load_records reviews records = Done reviews' ->
  map_Forall (fun _ r => is_int (Rating r)) reviews ->
  map_Forall (fun _ r => is_int (Rating r)) reviews'.
Proof.
  induction records as [|record records IH]; intros reviews reviews'.
  - by intros [= <-].
  - cbn [load_records].
    destruct (load_record reviews record) as [r1|m|m] eqn:Hr; try discriminate.
    cbn. intros Hl Hall. eapply IH; [exact Hl|]. eapply load_record_ints; eauto.
Qed.

(** The rows written for a keyed state, in any order, load as the state
    with every record read back. *)
Lemma load_records_saved (reviews : gmap string Review) saved :
  keyed reviews ->
  saved ≡ₚ range_map reviews ->
  load_records ∅ (record_of <$> saved) = Done (read_back <$> reviews).
Proof.
  intros Hk Hperm.
  destruct (load_records ∅ (record_of <$> saved)) as [reloaded|m|m] eqn:Hload;
    [|by rewrite load_records_of in Hload..].
  f_equal. apply map_eq. intros id. rewrite lookup_fmap.
  destruct (reviews !! id) as [r|] eqn:Hl; cbn.
  - eapply reload_lookup; eauto.
  - rewrite load_records_of in Hload. injection Hload as <-.
    rewrite foldl_read_back_notin; [apply lookup_empty|].
    rewrite Hperm, range_map_ids by done.
    intros ([id' r] & -> & Hin%elem_of_map_to_list)%list_elem_of_fmap. cbn in Hl. congruence.
Qed.

End Load.

(** * Properties of the pipeline driver *)

Section Main.
Context `{!Library}.
Variables (cfg : Config) (env : Env).

(** Loading never changes the world. *)
Lemma readExistingReviews_state s o s' :
  readExistingReviews env s = (o, s') -> s' = s.
Proof.
  unfold readExistingReviews. destruct (csv_file s); [|by intros [= _ <-]].
  destruct (open_fails env); [by intros [= _ <-]|].
  destruct (csv_ReadAll _); by intros [= _ <-].
Qed.

(** The log of the results at the end of [main] changes the log only. *)
Lemma log_new_reviews_file newReviews : ∀ i s o s',
  log_new_reviews i newReviews s = (o, s') ->
  csv_file s' = csv_file s ∧ disk_room s' = disk_room s.
Proof.
  induction newReviews as [|r rest IH]; intros i s o s'.
  - by intros [= _ <-].
  - cbn [log_new_reviews]. unfold mbind, prog_bind, lift.
    destruct (Repeat star (Rating r)); [|by intros [= _ <-]..].
    unfold log_Printf, modify. intros Hl. by destruct (IH _ _ _ _ Hl) as [-> ->].
Qed.

Lemma log_new_reviews_done newReviews : ∀ i s,
  Forall (fun r => is_done (Repeat star (Rating r)) = true) newReviews ->
  ∃ s', log_new_reviews i newReviews s = (Done tt, s').
Proof.
  induction newReviews as [|r rest IH]; intros i s Hall.
  - by eexists.
  - apply Forall_cons in Hall as [Hr Hall]. cbn [log_new_reviews].
    unfold mbind, prog_bind, lift.
    destruct (Repeat star (Rating r)); [|discriminate..].
    unfold log_Printf, modify. apply IH, Hall.
Qed.

(** [main], stage by stage. *)
Lemma main_stages ratingRange fetched s :
  main cfg env ratingRange (Some fetched) s =
    match readExistingReviews env s with
    | (Done (inr loaded), s0) =>
        match reconcile cfg env ratingRange (loaded, []) fetched
                (add_log (LogFetched (length fetched)) (add_log (LogFound (size loaded)) s0)) with
        | (Done (final, newReviews), s1) =>
            match saveReviews env (range_map final) s1 with
            | (Done None, s2) =>
                match report newReviews s2 with
                | (Done _, s3) => (Done newReviews, s3)
                | (Fatal m, s3) => (Fatal m, s3)
                | (Panicked m, s3) => (Panicked m, s3)
                end
            | (Done (Some _), s2) =>
                (Fatal "Failed to save reviews", add_log (LogFatal "Failed to save reviews") s2)
            | (Fatal m, s2) => (Fatal m, s2)
            | (Panicked m, s2) => (Panicked m, s2)
            end
        | (Fatal m, s1) => (Fatal m, s1)
        | (Panicked m, s1) => (Panicked m, s1)
        end
    | (Done (inl _), s0) =>
        (Fatal "Failed to read existing reviews",
         add_log (LogFatal "Failed to read existing reviews") s0)
    | (Fatal m, s0) => (Fatal m, s0)
    | (Panicked m, s0) => (Panicked m, s0)
    end.
Proof.
  unfold main, mbind, prog_bind.
  destruct (readExistingReviews env s) as [[[e|loaded]|m|m] s0]; try reflexivity.
  unfold log_Printf, modify.
  destruct (reconcile _ _ _ _ _ _) as [[[final newReviews]|m|m] s1]; try reflexivity.
  destruct (saveReviews _ _ _) as [[[e|]|m|m] s2]; reflexivity.
Qed.

Lemma report_file newReviews s o s' :
  report newReviews s = (o, s') ->
  csv_file s' = csv_file s ∧ disk_room s' = disk_room s.
Proof.
  unfold report. case_bool_decide.
  - unfold mbind, prog_bind, log_Printf, modify. intros Hl.
    by destruct (log_new_reviews_file _ _ _ _ _ Hl) as [-> ->].
  - by intros [= _ <-].
Qed.

(** A run of [main] that returns: the stages it went through. *)
Lemma main_done ratingRange fetched s newReviews s' :
  main cfg env ratingRange (Some fetched) s = (Done newReviews, s') ->
  ∃ loaded final s1 s2,
    readExistingReviews env s = (Done (inr loaded), s)
    ∧ reconcile cfg env ratingRange (loaded, []) fetched
        (add_log (LogFetched (length fetched)) (add_log (LogFound (size loaded)) s))
      = (Done (final, newReviews), s1)
    ∧ saveReviews env (range_map final) s1 = (Done None, s2)
    ∧ csv_file s' = csv_file s2 ∧ disk_room s' = disk_room s2.
Proof.
  rewrite main_stages.
  destruct (readExistingReviews env s) as [[[e|loaded]|m|m] s0] eqn:Hload; try discriminate.
  pose proof (readExistingReviews_state _ _ _ Hload) as ->.
  destruct (reconcile _ _ _ _ _ _) as [[[final news]|m|m] s1] eqn:Hrec; try discriminate.
  destruct (saveReviews _ _ _) as [[[e|]|m|m] s2] eqn:Hsave; try discriminate.
  destruct (report news s2) as [[[]|m|m] s3] eqn:Hrep; try discriminate.
  intros [= <- <-]. destruct (report_file _ _ _ _ Hrep) as [? ?].
  exists loaded, final, s1, s2. done.
Qed.

(** The state a run loads stores every record under its own id, with a
    rating that is an [int]. *)
Lemma loaded_keyed s loaded s' :
  readExistingReviews env s = (Done (inr loaded), s') ->
  keyed loaded ∧ map_Forall (fun _ r => is_int (Rating r)) loaded.
Proof.
  unfold readExistingReviews.
  destruct (csv_file s) as [bytes|].
  2:{ intros [= <- _]. split; [apply keyed_empty|apply map_Forall_empty]. }
  destruct (open_fails env); [discriminate|].
  destruct (csv_ReadAll bytes) as [[|first rows]|]; try discriminate.
  cbn. destruct (load_records ∅ rows) as [st|m|m] eqn:Hl; try discriminate.
  intros [= <- _]. split.
  - eapply load_records_keyed; eauto using keyed_empty.
  - eapply load_records_ints; eauto. apply map_Forall_empty.
Qed.

(** The load of a file that holds the whole text written for a keyed
    state, when the CSV reader reads it back as written. *)
Lemma next_run_loads (st : gmap string Review) saved s :
  keyed st -> saved ≡ₚ range_map st ->
  csv_file s = Some (file_of saved) -> read_as_written saved ->
  open_fails env = false ->
  readExistingReviews env s = (Done (inr (read_back <$> st)), s).
Proof.
  intros Hk Hperm Hf Hread Ho. unfold readExistingReviews.
  rewrite Hf, Ho. unfold read_as_written in Hread. rewrite Hread. cbn.
  by rewrite (load_records_saved st saved).
Qed.

Lemma next_run_loaded (st : gmap string Review) saved s st' s' :
  keyed st -> saved ≡ₚ range_map st ->
  csv_file s = Some (file_of saved) -> read_as_written saved ->
  readExistingReviews env s = (Done (inr st'), s') ->
  st' = read_back <$> st.
Proof.
  intros Hk Hperm Hf Hread Hload.
  destruct (open_fails env) eqn:Ho.
  { unfold readExistingReviews in Hload. rewrite Hf, Ho in Hload. discriminate. }
  rewrite (next_run_loads st saved s) in Hload by done. by injection Hload as <- _.
Qed.

(** Saving a keyed state on a disk with room, and what the next run
    loads from the file. *)
Lemma save_then_load (st : gmap string Review) saved s :
  keyed st -> saved ≡ₚ range_map st ->
  create_fails env = false ->
  has_room s (String.length (file_of saved)) ->
  ∃ s1, saveReviews env saved s = (Done None, s1) ∧ only_file s s1
    ∧ csv_file s1 = Some (file_of saved)
    ∧ (read_as_written saved ->
       ∀ env' s2, csv_file s2 = csv_file s1 -> open_fails env' = false ->
         readExistingReviews env' s2 = (Done (inr (read_back <$> st)), s2)).
Proof.
  intros Hk Hperm Hc Hroom.
  destruct (saveReviews_created_room env saved s Hc) as (err & s1 & Hsave & Ho & _ & _ & Hfull).
  destruct (Hfull Hroom) as [-> Hfile].
  exists s1. split; [done|]. split; [done|]. split; [done|].
  intros Hread env' s2 Hf Hopen. rewrite Hfile in Hf.
  unfold readExistingReviews. rewrite Hf, Hopen.
  unfold read_as_written in Hread. rewrite Hread. cbn.
  by rewrite (load_records_saved st saved).
Qed.

(** The records of a state, in any order, hold the record of each of
    its entries. *)
Lemma saved_holds (st : gmap string Review) saved id r :
  saved ≡ₚ range_map st -> st !! id = Some r -> r ∈ saved.
Proof. intros Hperm Hl. rewrite Hperm. apply elem_of_range_map. eauto. Qed.

(** After the loop has returned, the report returns: the star string of
    every new review was built once before. *)
Lemma report_after_loop ratingRange loaded fetched s0 final newReviews s1 s2 :
  reconcile cfg env ratingRange (loaded, []) fetched s0 = (Done (final, newReviews), s1) ->
  ∃ s3, report newReviews s2 = (Done tt, s3)
        ∧ csv_file s3 = csv_file s2 ∧ disk_room s3 = disk_room s2.
Proof.
  intros Hrec%reconcile_done.
  destruct (iterations_invariant _ _ _ _ _ _ _ _ _ _ _ Hrec
              (loop_invariant_start ratingRange loaded _)) as (_ & Hall & _).
  assert (∃ s3, report newReviews s2 = (Done tt, s3)) as [s3 Hrep].
  { unfold report. case_bool_decide; [|by eexists].
    unfold mbind, prog_bind, log_Printf, modify. apply log_new_reviews_done.
    eapply Forall_impl; [exact Hall|]. intros r (_ & _ & ? & _). done. }
  exists s3. split; [done|]. eapply report_file; eauto.
Qed.

(** Once the state is loaded, the loop has returned and [saveReviews] has
    returned nil, [main] returns the new reviews and leaves the file as
    saved. *)
Lemma main_returns ratingRange fetched s loaded final newReviews s1 s2 :
  readExistingReviews env s = (Done (inr loaded), s) ->
  reconcile cfg env ratingRange (loaded, []) fetched
    (add_log (LogFetched (length fetched)) (add_log (LogFound (size loaded)) s))
  = (Done (final, newReviews), s1) ->
  saveReviews env (range_map final) s1 = (Done None, s2) ->
  ∃ s3, main cfg env ratingRange (Some fetched) s = (Done newReviews, s3)
        ∧ csv_file s3 = csv_file s2 ∧ disk_room s3 = disk_room s2.
Proof.
  intros Hload Hrec Hsave. rewrite main_stages, Hload, Hrec, Hsave.
  destruct (report_after_loop _ _ _ _ _ _ _ s2 Hrec) as (s3 & -> & ? & ?).
  exists s3. done.
Qed.

(** A range that [parseRatingRange] returns lies within 1 to 5. *)
Lemma parseRatingRange_valid args r :
  parseRatingRange args = inr (Some r) -> 1 <= Start r <= End_ r ∧ End_ r <= 5.
Proof.
  unfold parseRatingRange.
  destruct args as [|? [|arg ?]]; try discriminate.
  destruct (Split "-" arg) as [|part0 [|part1 [|? ?]]]; try discriminate.
  destruct (Atoi part0) as [start [|]]; cbn [negb]; [|discriminate].
  destruct (Atoi part1) as [end_ [|]]; cbn [negb]; [|discriminate].
  destruct (_ || _) eqn:Hb; [discriminate|].
  destruct (Z.ltb_spec end_ start); [discriminate|].
  intros [= <-]. cbn.
  repeat (apply orb_false_iff in Hb as [Hb ?]). lia.
Qed.

End Main.

(** * The claims *)

Section Claims.
Context `{!Library}.

(** C1.  Notification candidates.  Let the loop have run over the
    reviews fetched before [review], starting from the loaded state
    [loaded], and let [review] be well formed and pass the rating filter.
    If [review] is the first fetched review with its id, the iteration
    for it attempts a notification exactly when its id is absent from the
    loaded state or present there with notified = false.  If its id is
    present in the loaded state with notified = true, the iteration
    changes nothing: the review is skipped and no notification is
    attempted. *)
Theorem C1_notification_candidate cfg env ratingRange loaded before review vars s0 s :
  reconcile cfg env ratingRange (loaded, []) before s0 = (Done vars, s) ->
  well_formed review ->
  (∀ uc, primary_comment review = Some uc ->
         out_of_range ratingRange (Api.StarRating uc) = false) ->
  ∃ o s', loop_body cfg env ratingRange vars review s = (o, s')
    ∧ (Api.ReviewId review ∉ (Api.ReviewId <$> before) ->
       (attempts s' = S (attempts s)
        ↔ loaded !! Api.ReviewId review = None
          ∨ ∃ r, loaded !! Api.ReviewId review = Some r ∧ Notified r = false))
    ∧ ((∃ r, loaded !! Api.ReviewId review = Some r ∧ Notified r = true) ->
       o = Done vars ∧ s' = s).
Proof.
  intros Hrun (uc & lm & Hp & Hlm & Hrating) Hpass.
  specialize (Hpass uc Hp). destruct vars as [st news].
  apply reconcile_done in Hrun.
  rewrite (loop_body_unfold _ _ _ _ _ _ uc) by done. rewrite Hpass, Hlm.
  destruct (unnotified st (Api.ReviewId review)) eqn:Hu.
  - destruct (sendToWebhook cfg env (new_review review uc lm) s) as [o1 s1] eqn:Hs.
    pose proof Hs as Hdone. rewrite sendToWebhook_done in Hdone
      by (cbn; unfold maxInt; lia).
    apply sendToWebhook_effects in Hs as (_ & _ & _ & Hatt & _).
    assert (is_done o1 = true) as Hd.
    { destruct (testMode cfg); [by injection Hdone as <- _|].
      destruct (net env _) as [|code]; [by injection Hdone as <- _|].
      destruct (bool_decide _); by injection Hdone as <- _. }
    specialize (Hatt Hd).
    assert (∀ o s', attempts s' = S (attempts s) ->
      (Api.ReviewId review ∉ (Api.ReviewId <$> before) ->
       (attempts s' = S (attempts s)
        ↔ loaded !! Api.ReviewId review = None
          ∨ ∃ r, loaded !! Api.ReviewId review = Some r ∧ Notified r = false))
      ∧ ((∃ r, loaded !! Api.ReviewId review = Some r ∧ Notified r = true) ->
         o = Done (st, news) ∧ s' = s)) as Hgoal.
    { intros o s' Ha. split.
      - intros Hfirst. split; [intros _|done].
        apply unnotified_true in Hu.
        by rewrite <- (iterations_frame _ _ _ _ _ _ _ _ _ _ _ Hrun Hfirst).
      - intros (r & Hl & Hn).
        pose proof (iterations_notified_kept _ _ _ _ _ _ _ _ _ _ _ _ Hrun Hl Hn) as Hk.
        apply unnotified_true in Hu as [Hu|(r' & Hu & Hu')]; rewrite Hu in Hk;
          [discriminate | injection Hk as ->; congruence]. }
    destruct o1 as [[e|]|m|m]; try discriminate Hd;
      eexists _, _; (split; [reflexivity|]); apply Hgoal.
    + rewrite attempts_add_log. simpl. lia.
    + done.
  - exists (Done (st, news)), s. split; [done|]. split; [|done].
    intros Hfirst. split; [lia|].
    apply unnotified_false in Hu as (r & Hl & Hn).
    rewrite (iterations_frame _ _ _ _ _ _ _ _ _ _ _ Hrun Hfirst) in Hl.
    intros [Hnone|(r' & Hl' & Hn')]; congruence.
Qed.

(** C2.  Rating filter.  For a review with a primary comment of rating r:
    with a configured range [s, e] the review passes the filter exactly
    when s <= r <= e; with no range configured it passes; a review that
    passes is processed as if no range were configured; a review that is
    rejected leaves the state set, the new-reviews slice and the world
    (log, requests, time slept, file) as they are: it is neither notified
    nor added to the state. *)
Theorem C2_rating_filter cfg env vars review uc s :
  primary_comment review = Some uc ->
  let rating := Api.StarRating uc in
  (∀ r, out_of_range (Some r) rating = false ↔ Start r <= rating <= End_ r)
  ∧ out_of_range None rating = false
  ∧ (∀ ratingRange, out_of_range ratingRange rating = false ->
       loop_body cfg env ratingRange vars review s = loop_body cfg env None vars review s)
  ∧ (∀ ratingRange, out_of_range ratingRange rating = true ->
       loop_body cfg env ratingRange vars review s = (Done vars, s)).
Proof.
  intros Hp rating. destruct vars as [st news]. split; [|split; [|split]].
  - intros r. cbn [out_of_range]. rewrite orb_false_iff, !Z.ltb_ge. lia.
  - reflexivity.
  - intros ratingRange Ho. rewrite !(loop_body_unfold _ _ _ _ _ _ uc) by done.
    fold rating. rewrite Ho. reflexivity.
  - intros ratingRange Ho. rewrite (loop_body_unfold _ _ _ _ _ _ uc) by done.
    fold rating. rewrite Ho. reflexivity.
Qed.

(** C3 (amended).  Delivery failure isolation.  In one run of [main],
    after the state was loaded, let the loop over the fetched reviews
    return, and let A and B be candidates (each passes the filter and is
    unnotified in the state the loop has reached when its turn comes),
    the delivery for A failing and the delivery for B succeeding.  Then
    the iteration for A logs the failure and leaves the state set and the
    new-reviews slice as they are, and the loop goes on with the reviews
    after A up to the end of the run; the final state has, for the id of
    B, the record of B with notified = true, and that record is among
    the new reviews.  When the state file can be created and the disk
    has room for the whole file, [main] returns with the whole state on
    file; and in whatever order the records of the final state are
    handed to [saveReviews], it returns nil and the file holds the header
    and one row for each record, among them the row of B with "true" in
    its last column; the next run, when it finds the file as it was left
    and the CSV reader reads it back as written, loads a state that has
    B with notified = true. *)
Theorem C3_delivery_failure_isolation cfg env ratingRange s loaded final newReviews sF
    beforeA A afterA stA newsA sA ucA lmA e sA1
    beforeB B afterB stB newsB sB ucB lmB sB1 :
  let fetched := (beforeA ++ A :: afterA)%list in
  let s0 := add_log (LogFetched (length fetched)) (add_log (LogFound (size loaded)) s) in
  readExistingReviews env s = (Done (inr loaded), s) ->
  reconcile cfg env ratingRange (loaded, []) fetched s0 = (Done (final, newReviews), sF) ->
  fetched = (beforeB ++ B :: afterB)%list ->
  reconcile cfg env ratingRange (loaded, []) beforeA s0 = (Done (stA, newsA), sA) ->
  primary_comment A = Some ucA ->
  Api.LastModified ucA = Some lmA ->
  out_of_range ratingRange (Api.StarRating ucA) = false ->
  unnotified stA (Api.ReviewId A) = true ->
  sendToWebhook cfg env (new_review A ucA lmA) sA = (Done (Some e), sA1) ->
  reconcile cfg env ratingRange (loaded, []) beforeB s0 = (Done (stB, newsB), sB) ->
  primary_comment B = Some ucB ->
  Api.LastModified ucB = Some lmB ->
  out_of_range ratingRange (Api.StarRating ucB) = false ->
  unnotified stB (Api.ReviewId B) = true ->
  sendToWebhook cfg env (new_review B ucB lmB) sB = (Done None, sB1) ->
  let failure := LogSendFailed (Api.ReviewId A) e in
  let notifiedB := set_Notified (new_review B ucB lmB) in
  let rowB := [ Api.ReviewId B; Itoa (Api.StarRating ucB); cleanText (Api.Text ucB);
                Api.AuthorName B; device_of ucB; format_RFC3339 (Api.Seconds lmB);
                "true" ] in
  loop_body cfg env ratingRange (stA, newsA) A sA = (Done (stA, newsA), add_log failure sA1)
  ∧ reconcile cfg env ratingRange (stA, newsA) afterA (add_log failure sA1)
    = (Done (final, newReviews), sF)
  ∧ final !! Api.ReviewId B = Some notifiedB
  ∧ Notified notifiedB = true
  ∧ notifiedB ∈ newReviews
  ∧ (create_fails env = false ->
     has_room sF (String.length (file_of (range_map final))) ->
     ∃ s', main cfg env ratingRange (Some fetched) s = (Done newReviews, s')
           ∧ csv_file s' = Some (file_of (range_map final)))
  ∧ (∀ saved, saved ≡ₚ range_map final ->
       create_fails env = false ->
       has_room sF (String.length (file_of saved)) ->
       ∃ s1, saveReviews env saved sF = (Done None, s1)
         ∧ csv_file s1 = Some (file_of saved)
         ∧ rowB ∈ (record_of <$> saved)
         ∧ (read_as_written saved ->
            ∀ env' s2, csv_file s2 = csv_file s1 -> open_fails env' = false ->
              ∃ loaded', readExistingReviews env' s2 = (Done (inr loaded'), s2)
                ∧ ∃ rB, loaded' !! Api.ReviewId B = Some rB ∧ Notified rB = true)).
Proof.
  intros fetched s0 Hload Hrun Heq HpreA HpA HlA HrA HuA HsA HpreB HpB HlB HrB HuB HsB
    failure notifiedB rowB.
  assert (loop_body cfg env ratingRange (stA, newsA) A sA
          = (Done (stA, newsA), add_log failure sA1)) as HbodyA.
  { rewrite (loop_body_unfold _ _ _ _ _ _ ucA) by done. by rewrite HrA, HuA, HlA, HsA. }
  assert (loop_body cfg env ratingRange (stB, newsB) B sB
          = (Done (<[Api.ReviewId B := notifiedB]> stB, (newsB ++ [notifiedB])%list), sB1))
    as HbodyB.
  { rewrite (loop_body_unfold _ _ _ _ _ _ ucB) by done. by rewrite HrB, HuB, HlB, HsB. }
  pose proof Hrun as HrunA. pose proof Hrun as HrunB. rewrite Heq in HrunB.
  unfold fetched in HrunA.
  rewrite reconcile_app, HpreA, reconcile_cons, HbodyA in HrunA.
  rewrite reconcile_app, HpreB, reconcile_cons, HbodyB in HrunB.
  apply reconcile_done in HrunB.
  assert (final !! Api.ReviewId B = Some notifiedB) as HfinalB.
  { eapply iterations_notified_kept; eauto. by rewrite lookup_insert_eq. }
  assert (keyed final) as Hk.
  { destruct (loaded_keyed _ _ _ _ Hload) as [Hk _].
    pose proof (reconcile_done _ _ _ _ _ _ _ _ _ _ Hrun) as Hit.
    exact (iterations_keyed _ _ _ _ _ _ _ _ _ _ Hit Hk). }
  split; [done|]. split; [done|]. split; [done|]. split; [done|]. split.
  { destruct (iterations_news _ _ _ _ _ _ _ _ _ _ HrunB) as (delta & -> & _).
    rewrite !elem_of_app, list_elem_of_singleton. auto. }
  split.
  - intros Hc Hroom.
    destruct (save_then_load env final (range_map final) sF Hk (reflexivity _) Hc Hroom)
      as (s1 & Hsave & _ & Hfile & _).
    destruct (main_returns _ _ _ _ _ _ _ _ _ _ Hload Hrun Hsave) as (s' & Hmain & Hf & _).
    exists s'. split; [done|]. congruence.
  - intros saved Hperm Hc Hroom.
    destruct (save_then_load env final saved sF Hk Hperm Hc Hroom)
      as (s1 & Hsave & _ & Hfile & Hnext).
    exists s1. split; [done|]. split; [done|]. split.
    { apply list_elem_of_fmap. exists notifiedB. split; [reflexivity|].
      eapply saved_holds; eauto. }
    intros Hread env' s2 Hf Hopen. exists (read_back <$> final).
    split; [by apply Hnext|]. exists (read_back notifiedB).
    split; [|done]. by rewrite lookup_fmap, HfinalB.
Qed.

(** C4 (amended).  Monotonic notified flag.  Let [loaded] be the state a
    run has loaded, with notified = true for [id].  Every state that
    follows it still has a record for [id] with notified = true: after
    any iterations of the loop; and in the state the next run loads,
    when the run before it has saved its whole state (the disk had room
    for the file and [saveReviews] returned nil) and the CSV reader reads
    the file back as written; and so on from run to run. *)
Theorem C4_notified_monotonic env0 s0 loaded later id r :
  readExistingReviews env0 s0 = (Done (inr loaded), s0) ->
  follows loaded later ->
  loaded !! id = Some r ->
  Notified r = true ->
  ∃ r', later !! id = Some r' ∧ Notified r' = true.
Proof.
  intros Hload Hfo Hl Hn.
  destruct (loaded_keyed _ _ _ _ Hload) as [Hk0 _].
  assert (keyed later ∧ ∃ r', later !! id = Some r' ∧ Notified r' = true) as [_ ?]; [|done].
  clear Hload.
  induction Hfo as [st|st0 cfg env ratingRange review st news s st' news' s' _ IH Hb
                      |st0 st saved env s s1 env' s2 st' _ IH Hperm Hroom Hsave Hread Hfile Hnext].
  - eauto.
  - destruct (IH Hl Hk0) as (Hk & r' & Hl' & Hn'). apply loop_body_done in Hb. split.
    + eapply iteration_keyed; eauto.
    + exists r'. split; [|done]. eapply iteration_notified_kept; eauto.
  - destruct (IH Hl Hk0) as (Hk & r' & Hl' & Hn').
    destruct (saveReviews_nil_room _ _ _ _ Hsave Hroom) as [_ Hwhole].
    rewrite Hwhole in Hfile.
    pose proof (next_run_loaded _ _ _ _ _ _ Hk Hperm Hfile Hread Hnext) as ->. split.
    + destruct (loaded_keyed _ _ _ _ Hnext) as [? _]. done.
    + exists (read_back r'). split; [|done]. by rewrite lookup_fmap, Hl'.
Qed.

(** C5.  Idempotence.  After a first run of the loop over the fetched
    reviews in which no delivery failed, a second run over the same
    reviews with the same range, from the state the first run produced,
    with any configuration, environment and world, returns an empty
    new-reviews slice, leaves the state as it is and does nothing to the
    world: no notification is attempted. *)
Theorem C5_idempotence cfg env cfg' env' ratingRange loaded fetched st1 news1 s0 s1 s :
  reconcile cfg env ratingRange (loaded, []) fetched s0 = (Done (st1, news1), s1) ->
  failures s1 = failures s0 ->
  reconcile cfg' env' ratingRange (st1, []) fetched s = (Done (st1, []), s).
Proof.
  intros Hrun%reconcile_done Hfail.
  assert (∀ review, review ∈ fetched ->
            ∃ uc, primary_comment review = Some uc
                  ∧ (out_of_range ratingRange (Api.StarRating uc) = false ->
                     unnotified st1 (Api.ReviewId review) = false)) as Hall.
  { intros review Hin.
    destruct (iterations_primary _ _ _ _ _ _ _ _ _ _ _ Hrun Hin) as [uc Hp].
    exists uc. split; [done|]. intros Hr. eapply iterations_no_failure; eauto. }
  clear Hrun Hfail. induction fetched as [|review rest IH]; [reflexivity|].
  rewrite reconcile_cons.
  destruct (Hall review) as (uc & Hp & Hu); [apply elem_of_cons; by left|].
  rewrite (loop_body_unfold _ _ _ _ _ _ uc) by done.
  destruct (out_of_range _ _).
  - apply IH. intros r Hin. apply Hall, elem_of_cons. by right.
  - rewrite Hu by done. apply IH. intros r Hin. apply Hall, elem_of_cons. by right.
Qed.

(** C6 (amended).  Retention.  Let a run of [main] have loaded the
    state [loaded] and its loop have returned the final state [final].
    Then [final] is [loaded] with the new reviews put in, in order; every
    new review is notified, has the id of a fetched review and was absent
    from [loaded] or present there with notified = false; every id of
    [loaded] is an id of [final]; and every record of [loaded] whose id
    does not occur in the fetch is, unchanged, the record of [final] for
    that id.  When the state file can be created and the disk has room
    for the whole file, [main] returns with the whole state on file; and
    in whatever order the records of [final] are handed to [saveReviews],
    it returns nil and the file holds the header and one row for each
    record, among them the rows of the records of [loaded] that were not
    fetched; the next run, when it finds the file as it was left and the
    CSV reader reads it back as written, loads the records of [final]
    read back from their rows: every id of [loaded] is there, and every
    record of [loaded] that was not fetched is there unchanged, provided
    its date is one that its RFC 3339 form gives back. *)
Theorem C6_retention cfg env ratingRange fetched s loaded final newReviews s1 :
  readExistingReviews env s = (Done (inr loaded), s) ->
  reconcile cfg env ratingRange (loaded, []) fetched
    (add_log (LogFetched (length fetched)) (add_log (LogFound (size loaded)) s))
  = (Done (final, newReviews), s1) ->
  final = foldl put loaded newReviews
  ∧ Forall (fun r => Notified r = true
                     ∧ ReviewID r ∈ (Api.ReviewId <$> fetched)
                     ∧ unnotified loaded (ReviewID r) = true) newReviews
  ∧ (∀ id, is_Some (loaded !! id) -> is_Some (final !! id))
  ∧ (∀ id r, loaded !! id = Some r -> id ∉ (Api.ReviewId <$> fetched) ->
             final !! id = Some r)
  ∧ (create_fails env = false ->
     has_room s1 (String.length (file_of (range_map final))) ->
     ∃ s', main cfg env ratingRange (Some fetched) s = (Done newReviews, s')
           ∧ csv_file s' = Some (file_of (range_map final)))
  ∧ (∀ saved, saved ≡ₚ range_map final ->
       create_fails env = false ->
       has_room s1 (String.length (file_of saved)) ->
       ∃ s2, saveReviews env saved s1 = (Done None, s2)
         ∧ csv_file s2 = Some (file_of saved)
         ∧ (∀ id r, loaded !! id = Some r -> id ∉ (Api.ReviewId <$> fetched) ->
                    record_of r ∈ (record_of <$> saved))
         ∧ (read_as_written saved ->
            ∀ env' s3, csv_file s3 = csv_file s2 -> open_fails env' = false ->
              ∃ loaded', readExistingReviews env' s3 = (Done (inr loaded'), s3)
                ∧ loaded' = read_back <$> final
                ∧ (∀ id, is_Some (loaded !! id) -> is_Some (loaded' !! id))
                ∧ (∀ id r, loaded !! id = Some r ->
                           id ∉ (Api.ReviewId <$> fetched) ->
                           parse_RFC3339 (format_RFC3339 (Date r)) = Some (Date r) ->
                           loaded' !! id = Some r))).
Proof.
  intros Hload Hrec.
  destruct (loaded_keyed _ _ _ _ Hload) as [Hk0 Hints].
  pose proof Hrec as Hit. apply reconcile_done in Hit.
  assert (keyed final) as Hk by exact (iterations_keyed _ _ _ _ _ _ _ _ _ _ Hit Hk0).
  destruct (iterations_news _ _ _ _ _ _ _ _ _ _ Hit) as (delta & Hnews & Hfinal & Hdelta).
  cbn in Hnews. subst delta.
  assert (∀ id, is_Some (loaded !! id) -> is_Some (final !! id)) as Hpresent.
  { intros id. eapply iterations_present; eauto. }
  assert (∀ id r, loaded !! id = Some r -> id ∉ (Api.ReviewId <$> fetched) ->
                  final !! id = Some r) as Hframe.
  { intros id r Hl Hni. rewrite <- Hl. eapply iterations_frame; eauto. }
  split; [done|]. split; [done|]. split; [done|]. split; [done|]. split.
  - intros Hc Hroom.
    destruct (save_then_load env final (range_map final) s1 Hk (reflexivity _) Hc Hroom)
      as (s2 & Hsave & _ & Hfile & _).
    destruct (main_returns _ _ _ _ _ _ _ _ _ _ Hload Hrec Hsave) as (s' & Hmain & Hf & _).
    exists s'. split; [done|]. congruence.
  - intros saved Hperm Hc Hroom.
    destruct (save_then_load env final saved s1 Hk Hperm Hc Hroom)
      as (s2 & Hsave & _ & Hfile & Hnext).
    exists s2. split; [done|]. split; [done|]. split.
    { intros id r Hl Hni. apply list_elem_of_fmap. exists r. split; [done|].
      eapply saved_holds; eauto. }
    intros Hread env' s3 Hf Hopen. exists (read_back <$> final).
    split; [by apply Hnext|]. split; [done|]. split.
    + intros id Hin. rewrite lookup_fmap. destruct (Hpresent id Hin) as [r' ->]. by eexists.
    + intros id r Hl Hni Hdate. rewrite lookup_fmap, (Hframe id r Hl Hni). cbn.
      f_equal. apply read_back_id; [|done]. exact (Hints id r Hl).
Qed.


(** C10.  Loading prior state.  When the state file does not exist the
    load returns the empty map.  When it exists and the load returns a
    map, the file has at least one row, and the map is what the rows
    after the first give: exactly the first row is skipped.  A file with
    one row (the header alone) gives the empty map.  A file that exists
    and has no row at all makes the row-skipping step panic (slice
    bounds out of range): the load does not return. *)
Theorem C10_load_prior_state env s :
  (csv_file s = None -> readExistingReviews env s = (Done (inr ∅), s))
  ∧ (∀ bytes loaded s',
       csv_file s = Some bytes ->
       readExistingReviews env s = (Done (inr loaded), s') ->
       ∃ first rows, csv_ReadAll bytes = Some (first :: rows)
                     ∧ load_records ∅ rows = Done loaded)
  ∧ (∀ bytes first,
       csv_file s = Some bytes -> open_fails env = false ->
       csv_ReadAll bytes = Some [first] ->
       readExistingReviews env s = (Done (inr ∅), s))
  ∧ (∀ bytes,
       csv_file s = Some bytes -> open_fails env = false ->
       csv_ReadAll bytes = Some [] ->
       readExistingReviews env s
       = (Panicked "runtime error: slice bounds out of range [1:0]", s)).
Proof.
  unfold readExistingReviews. split; [|split; [|split]].
  - by intros ->.
  - intros bytes loaded s' ->. destruct (open_fails env); [discriminate|].
    destruct (csv_ReadAll bytes) as [[|first rows]|]; try discriminate.
    cbn. destruct (load_records ∅ rows) as [st|m|m] eqn:Hl; try discriminate.
    cbn. intros [= <- <-]. eauto.
  - intros bytes first -> -> ->. reflexivity.
  - intros bytes -> -> ->. reflexivity.
Qed.

End Claims.
(** * Further properties *)



Section StoreRoundTrip.
Context `{!Library}.

(** X1.  The record that [saveReviews] hands to the CSV writer for a
    review is read by the loop of [readExistingReviews] as the same
    review, stored under its id: the rating, the flag and the date come
    back as they were, for a rating that is an [int] and a date that is
    read back from its RFC 3339 form. *)
Theorem save_load_record (reviews : gmap string Review) (review : Review) :
  is_int (Rating review) ->
  parse_RFC3339 (format_RFC3339 (Date review)) = Some (Date review) ->
  load_record reviews (record_of review) = Done (<[ReviewID review := review]> reviews).
Proof.
  intros Hint Hdate. rewrite load_record_of. do 2 f_equal.
  unfold read_back. rewrite Atoi_Itoa, Hdate by done. by destruct review.
Qed.

(** X2.  What a run saves is what the next run loads.  Let a state set
    store every record under its own id, with ratings that are [int]s
    and dates that their RFC 3339 forms give back.  When its records are
    handed to [saveReviews] in any order, the file can be created and
    the disk has room for the whole file, [saveReviews] returns nil and
    the file holds the header and one row for each record; and when the
    CSV reader reads that text back as written, [readExistingReviews],
    on a file left as it was and that can be opened, returns that same
    state set. *)
Theorem save_load_state env env' (reviews : gmap string Review) saved s :
  keyed reviews ->
  saved ≡ₚ range_map reviews ->
  Forall row_reads_back saved ->
  create_fails env = false ->
  has_room s (String.length (file_of saved)) ->
  read_as_written saved ->
  open_fails env' = false ->
  ∃ s1, saveReviews env saved s = (Done None, s1)
    ∧ csv_file s1 = Some (file_of saved)
    ∧ ∀ s2, csv_file s2 = csv_file s1 ->
            readExistingReviews env' s2 = (Done (inr reviews), s2).
Proof.
  intros Hk Hperm Hall Hc Hroom Hread Hopen.
  destruct (save_then_load env reviews saved s Hk Hperm Hc Hroom)
    as (s1 & Hsave & _ & Hfile & Hnext).
  exists s1. split; [done|]. split; [done|]. intros s2 Hf.
  rewrite (Hnext Hread env' s2 Hf Hopen). do 3 f_equal.
  apply map_eq. intros id. rewrite lookup_fmap.
  destruct (reviews !! id) as [r|] eqn:Hl; [|done]. cbn. f_equal.
  rewrite Forall_forall in Hall. destruct (Hall r) as [? ?]; [|by apply read_back_id].
  eapply saved_holds; eauto.
Qed.

End StoreRoundTrip.

Section LoadEdges.
Context `{!Library}.

Lemma load_record_row (reviews : gmap string Review) f0 f1 f2 f3 f4 f5 f6 more :
  load_record reviews (f0 :: f1 :: f2 :: f3 :: f4 :: f5 :: f6 :: more)
  = Done (<[f0 := review_of_row f0 f1 f2 f3 f4 f5 f6]> reviews).
Proof. reflexivity. Qed.

Lemma load_record_short (reviews : gmap string Review) (record : list string) :
  (length record < 7)%nat -> ∃ msg, load_record reviews record = Panicked msg.
Proof.
  intros Hlen. unfold load_record, index.
  destruct record as [|f0 [|f1 [|f2 [|f3 [|f4 [|f5 [|f6 more]]]]]]];
    cbn in Hlen |- *; try lia; eauto.
Qed.

Lemma load_record_long (reviews : gmap string Review) (record : list string) :
  (7 <= length record)%nat ->
  ∃ f0 f1 f2 f3 f4 f5 f6 more,
    record = f0 :: f1 :: f2 :: f3 :: f4 :: f5 :: f6 :: more.
Proof.
  intros Hlen.
  destruct record as [|f0 [|f1 [|f2 [|f3 [|f4 [|f5 [|f6 more]]]]]]];
    cbn in Hlen; try lia. by eexists _, _, _, _, _, _, _, _.
Qed.

Lemma load_records_is_done (rows : list (list string)) : ∀ reviews : gmap string Review,
  is_done (load_records reviews rows) = true ↔ Forall (fun row => (7 <= length row)%nat) rows.
Proof.
  induction rows as [|row rows IH]; intros reviews.
  - split; [constructor|done].
  - cbn [load_records]. rewrite Forall_cons.
    destruct (decide (7 <= length row)%nat) as [Hlen|Hlen].
    + destruct (load_record_long reviews row Hlen)
        as (f0 & f1 & f2 & f3 & f4 & f5 & f6 & more & ->).
      rewrite load_record_row. cbn. rewrite IH. tauto.
    + destruct (load_record_short reviews row) as [msg ->]; [lia|]. cbn.
      split; [done|]. intros [? _]. lia.
Qed.

Lemma load_records_not_fatal (rows : list (list string)) : ∀ (reviews : gmap string Review) msg,
  load_records reviews rows ≠ Fatal msg.
Proof.
  induction rows as [|row rows IH]; intros reviews msg; [done|].
  cbn [load_records].
  destruct (decide (7 <= length row)%nat) as [Hlen|Hlen].
  - destruct (load_record_long reviews row Hlen)
      as (f0 & f1 & f2 & f3 & f4 & f5 & f6 & more & ->).
    rewrite load_record_row. cbn. apply IH.
  - destruct (load_record_short reviews row) as [m ->]; [lia|]. done.
Qed.

(** X3.  When the state file exists, can be opened and parses to a
    header and rows, the load returns a map exactly when every row after
    the header has at least seven fields; a shorter row makes the load
    panic (index out of range).  The number of fields of the header does
    not matter to this loop. *)
Theorem load_needs_seven_fields env s bytes first (rows : list (list string)) :
  csv_file s = Some bytes ->
  open_fails env = false ->
  csv_ReadAll bytes = Some (first :: rows) ->
  ((∃ loaded, readExistingReviews env s = (Done (inr loaded), s))
   ↔ Forall (fun row => (7 <= length row)%nat) rows)
  ∧ ((∃ msg, readExistingReviews env s = (Panicked msg, s))
     ↔ Exists (fun row => (length row < 7)%nat) rows).
Proof.
  intros Hf Ho Hr. unfold readExistingReviews. rewrite Hf, Ho, Hr. cbn.
  pose proof (load_records_is_done rows ∅) as Hdone.
  assert (Exists (fun row => (length row < 7)%nat) rows
          ↔ ¬ Forall (fun row => (7 <= length row)%nat) rows) as ->.
  { rewrite <- Exists_Forall_neg by (intros; lia).
    apply Exists_proper; [|done]. intros row. lia. }
  destruct (load_records ∅ rows) as [loaded|m|m] eqn:Hl; cbn in Hdone |- *.
  - split; split.
    + intros _. by apply Hdone.
    + eauto.
    + intros [? [=]].
    + intros Hn. destruct Hn. by apply Hdone.
  - by destruct (load_records_not_fatal rows ∅ m).
  - split; split.
    + intros [? [=]].
    + intros HF. apply Hdone in HF. discriminate.
    + intros _ HF. apply Hdone in HF. discriminate.
    + eauto.
Qed.

Lemma load_record_frame (reviews reviews' : gmap string Review) (record : list string) id :
  load_record reviews record = Done reviews' ->
  record !! 0%nat ≠ Some id ->
  reviews' !! id = reviews !! id.
Proof.
  intros Hload Hne.
  destruct (decide (7 <= length record)%nat) as [Hlen|Hlen].
  - destruct (load_record_long reviews record Hlen)
      as (f0 & f1 & f2 & f3 & f4 & f5 & f6 & more & ->).
    rewrite load_record_row in Hload. injection Hload as <-.
    apply lookup_insert_ne. cbn in Hne. congruence.
  - destruct (load_record_short reviews record) as [msg Hp]; [lia|]. congruence.
Qed.

Lemma load_records_frame (rows : list (list string)) id : ∀ reviews reviews' : gmap string Review,
  load_records reviews rows = Done reviews' ->
  Forall (fun row => row !! 0%nat ≠ Some id) rows ->
  reviews' !! id = reviews !! id.
Proof.
  induction rows as [|row rows IH]; intros reviews reviews'.
  - by intros [= <-].
  - cbn [load_records]. destruct (load_record reviews row) as [r1|m|m] eqn:Hrec;
      try discriminate. cbn.
    intros Hl [Hne Hall]%Forall_cons. rewrite (IH _ _ Hl Hall).
    eapply load_record_frame; eauto.
Qed.

Lemma load_records_app rows1 rows2 : ∀ reviews : gmap string Review,
  load_records reviews (rows1 ++ rows2)
  = match load_records reviews rows1 with
    | Done reviews1 => load_records reviews1 rows2
    | Fatal m => Fatal m
    | Panicked m => Panicked m
    end.
Proof.
  induction rows1 as [|row rows1 IH]; intros reviews; [done|].
  rewrite <- app_comm_cons. cbn [load_records].
  destruct (load_record reviews row) as [r1|m|m]; cbn; [apply IH|done..].
Qed.

(** X4.  When several rows of the state file have the same id, the last
    one wins: the loaded map holds, for the id of a row, the review of
    that row if no later row has the same id. *)
Theorem load_last_row_wins (reviews loaded : gmap string Review) before after
    f0 f1 f2 f3 f4 f5 f6 more :
  load_records reviews (before ++ (f0 :: f1 :: f2 :: f3 :: f4 :: f5 :: f6 :: more) :: after)
  = Done loaded ->
  Forall (fun row => row !! 0%nat ≠ Some f0) after ->
  loaded !! f0 = Some (review_of_row f0 f1 f2 f3 f4 f5 f6).
Proof.
  rewrite load_records_app.
  destruct (load_records reviews before) as [reviews1|m|m]; try discriminate.
  cbn [load_records]. rewrite load_record_row. cbn.
  intros Hl Hall. rewrite (load_records_frame _ _ _ _ Hl Hall).
  apply lookup_insert_eq.
Qed.

End LoadEdges.

Section LoopEffects.
Context `{!Library}.
Variables (cfg : Config) (env : Env).

(** X5.  The loop over the fetched reviews never touches the state file,
    and makes at most one notification attempt for each fetched review,
    whether it returns or panics. *)
Theorem loop_leaves_file_and_bounds_attempts ratingRange fetched vars s o s' :
  reconcile cfg env ratingRange vars fetched s = (o, s') ->
  csv_file s' = csv_file s ∧ disk_room s' = disk_room s
  ∧ (attempts s <= attempts s' <= attempts s + length fetched)%nat.
Proof.
  intros Hrun.
  destruct (reconcile_effects _ _ _ _ _ _ _ _ Hrun) as (? & ? & ? & _). done.
Qed.

(** X6.  In dry-run mode the loop makes no request and logs no failed
    delivery, whatever the environment would answer and whether the loop
    returns or panics. *)
Theorem dry_run_makes_no_request ratingRange fetched vars s o s' :
  testMode cfg = true ->
  reconcile cfg env ratingRange vars fetched s = (o, s') ->
  posted s' = posted s ∧ failures s' = failures s.
Proof.
  intros Ht Hrun.
  destruct (reconcile_effects _ _ _ _ _ _ _ _ Hrun) as (_ & _ & _ & Hdry). auto.
Qed.

End LoopEffects.

Section LoopTheorems.
Context `{!Library}.

(** X7.  The reviews a run reports as new have pairwise distinct ids,
    even if the fetch repeats an id, and each of them is, with notified =
    true, the record the final state set holds for its id. *)
Theorem new_reviews_distinct_and_stored cfg env ratingRange loaded fetched s final
    newReviews s' :
  reconcile cfg env ratingRange (loaded, []) fetched s = (Done (final, newReviews), s') ->
  NoDup (ReviewID <$> newReviews)
  ∧ Forall (fun r => final !! ReviewID r = Some r ∧ Notified r = true) newReviews.
Proof.
  intros Hrun%reconcile_done.
  destruct (iterations_invariant _ _ _ _ _ _ _ _ _ _ _ Hrun
              (loop_invariant_start ratingRange loaded s)) as (Hnd & Hall & _).
  split; [done|]. eapply Forall_impl; [exact Hall|]. intros r (? & ? & _). done.
Qed.

(** X8.  A run of the loop that returns has slept exactly two seconds
    for each review it reports as new, and no other time. *)
Theorem loop_sleeps_two_seconds_per_new_review cfg env ratingRange loaded fetched s final
    newReviews s' :
  reconcile cfg env ratingRange (loaded, []) fetched s = (Done (final, newReviews), s') ->
  slept s' = slept s + 2 * Second * Z.of_nat (length newReviews).
Proof.
  intros Hrun%reconcile_done.
  by destruct (iterations_invariant _ _ _ _ _ _ _ _ _ _ _ Hrun
                 (loop_invariant_start ratingRange loaded s)) as (_ & _ & ?).
Qed.

(** X9.  With a range configured, every review a run reports as new is
    rated within the range. *)
Theorem new_reviews_within_range cfg env range loaded fetched s final newReviews s' :
  reconcile cfg env (Some range) (loaded, []) fetched s = (Done (final, newReviews), s') ->
  Forall (fun r => Start range <= Rating r <= End_ range) newReviews.
Proof.
  intros Hrun%reconcile_done.
  destruct (iterations_invariant _ _ _ _ _ _ _ _ _ _ _ Hrun
              (loop_invariant_start (Some range) loaded s)) as (_ & Hall & _).
  eapply Forall_impl; [exact Hall|]. intros r (_ & _ & _ & Ho).
  cbn in Ho. apply orb_false_iff in Ho as [?%Z.ltb_ge ?%Z.ltb_ge]. lia.
Qed.

(** X10.  At most one row per id.  The state set a run loads stores
    every record under its own id, the loop keeps it so, and the records
    handed to [saveReviews] at the end have pairwise distinct ids. *)
Theorem saved_rows_have_distinct_ids cfg env env' ratingRange s0 s0' loaded news fetched s
    final newReviews s' :
  readExistingReviews env' s0 = (Done (inr loaded), s0') ->
  reconcile cfg env ratingRange (loaded, news) fetched s = (Done (final, newReviews), s') ->
  keyed loaded ∧ keyed final ∧ NoDup (ReviewID <$> range_map final).
Proof.
  intros Hload Hrun%reconcile_done.
  assert (keyed loaded) as Hk.
  { unfold readExistingReviews in Hload.
    destruct (csv_file s0) as [bytes|]; [|injection Hload as <- _; apply keyed_empty].
    destruct (open_fails env'); [discriminate|].
    destruct (csv_ReadAll bytes) as [[|first rows]|]; try discriminate.
    cbn in Hload. destruct (load_records ∅ rows) as [st|m|m] eqn:Hl; try discriminate.
    injection Hload as <- _. eapply load_records_keyed; eauto using keyed_empty. }
  assert (keyed final) as Hk' by (eapply iterations_keyed; eauto).
  split; [done|]. split; [done|].
  rewrite range_map_ids by done. apply NoDup_fst_map_to_list.
Qed.

(** X11.  The report at the end of [main] cannot panic: once the state
    is loaded, the loop has returned and [saveReviews] has returned
    without error, [main] returns the new reviews, and the report only
    adds to the log. *)
Theorem main_returns_after_save cfg env ratingRange fetched s loaded final newReviews s1 s2 :
  readExistingReviews env s = (Done (inr loaded), s) ->
  reconcile cfg env ratingRange (loaded, []) fetched
    (add_log (LogFetched (length fetched)) (add_log (LogFound (size loaded)) s))
  = (Done (final, newReviews), s1) ->
  saveReviews env (range_map final) s1 = (Done None, s2) ->
  ∃ s3, main cfg env ratingRange (Some fetched) s = (Done newReviews, s3)
        ∧ csv_file s3 = csv_file s2 ∧ disk_room s3 = disk_room s2.
Proof.
  intros Hload Hrec Hsave. rewrite main_stages, Hload, Hrec, Hsave.
  apply reconcile_done in Hrec.
  destruct (iterations_invariant _ _ _ _ _ _ _ _ _ _ _ Hrec
              (loop_invariant_start ratingRange loaded _)) as (_ & Hall & _).
  assert (∃ s3, report newReviews s2 = (Done tt, s3)) as [s3 Hrep].
  { unfold report. case_bool_decide; [|by eexists].
    unfold mbind, prog_bind, log_Printf, modify. apply log_new_reviews_done.
    eapply Forall_impl; [exact Hall|]. intros r (_ & _ & ? & _). done. }
  rewrite Hrep. exists s3. split; [done|]. eapply report_file; eauto.
Qed.

End LoopTheorems.

Section SmallSave.
Context `{!Library}.

(** X12.  A state that fits the buffer is saved without any error being
    returned, whatever the disk does.  When the header and the records
    take at most 4096 bytes and the file can be created, [saveReviews]
    returns nil; all the bytes go to the file in the flush at the end,
    whose result is not looked at: the file holds them all if the disk
    has room for them, and otherwise only as many as the disk had room
    for. *)
Theorem small_state_saved_without_error env reviews s :
  let total := csv_text (header :: (record_of <$> reviews)) in
  create_fails env = false ->
  (String.length total <= defaultBufSize)%nat ->
  ∃ s', saveReviews env reviews s = (Done None, s')
        ∧ only_file s s'
        ∧ csv_file s' =
            Some (match disk_room s with
                  | None => total
                  | Some room =>
                      if (String.length total <=? room)%nat then total
                      else String.substring 0 room total
                  end).
Proof.
  intros total Hc Hlen. subst total. rewrite csv_text_cons in *.
  set (total := csv_line header +:+ csv_text (record_of <$> reviews)) in *.
  unfold saveReviews, mbind, prog_bind, os_Create. rewrite Hc.
  cbn [negb]. pose proof Hlen as Hlen'. unfold total in Hlen'.
  rewrite string_length_app in Hlen'.
  rewrite csv_Write_fits by (done || cbn [buf NewWriter String.length]; lia).
  cbn [failed buf NewWriter]. rewrite append_nil_l.
  rewrite write_records_fits by (done || cbn [buf]; lia).
  cbn [buf]. fold total.
  unfold csv_Flush, bufio_Flush. cbn [failed buf].
  assert (total ≠ "") as Hne by done.
  rewrite bool_decide_false by done.
  unfold file_Write. cbn [csv_file disk_room set_file]. rewrite append_nil_l.
  destruct (disk_room s) as [room|].
  - destruct (String.length total <=? room)%nat; cbn; eexists; repeat split.
  - cbn. eexists; repeat split.
Qed.

(** X13.  On a disk with room, [saveReviews] replaces the content of the
    state file by the header line followed by one line for each review,
    in the order of the slice, whatever the file held before, and changes
    nothing else; saving an empty slice leaves the header alone. *)
Theorem save_overwrites_with_all_rows env reviews s :
  create_fails env = false ->
  disk_room s = None ->
  saveReviews env reviews s
  = (Done None, set_file (Some (csv_text (header :: (record_of <$> reviews)))) None s).
Proof.
  intros Hc Hroom.
  destruct (saveReviews_created env reviews s Hc) as (err & s' & Hsave & Ho & _ & Hfull).
  destruct (Hfull Hroom) as (-> & Hr & Hf). rewrite Hsave. f_equal.
  rewrite (only_file_eq _ _ Ho), Hr, Hf. reflexivity.
Qed.

End SmallSave.

Section NotifierOutcome.
Context `{!Library}.

(** X14.  What a call of the notifier comes to.  A negative rating makes
    it panic before anything is logged or sent.  For a rating from 0 to
    5 it returns; it returns nil exactly when the program is in dry-run
    mode or the webhook answers with status 200; in dry-run mode nothing
    is sent, in live mode exactly one request is made, to the configured
    URL. *)
Theorem notifier_outcome cfg env review s :
  (Rating review < 0 ->
   sendToWebhook cfg env review s = (Panicked "strings: negative Repeat count", s))
  ∧ (0 <= Rating review <= 5 ->
     ∃ err s' text,
       sendToWebhook cfg env review s = (Done err, s')
       ∧ (err = None
          ↔ testMode cfg = true ∨ net env (length (posted s)) = Response 200)
       ∧ posted s' = (if testMode cfg then posted s
                      else posted s ++ [(webhookURL cfg, text)])%list).
Proof.
  split.
  - intros Hneg. unfold sendToWebhook, mbind, prog_bind, lift, Repeat.
    destruct (Z.ltb_spec (Rating review) 0); [done|lia].
  - intros [Hlo Hhi].
    pose proof (sendToWebhook_done cfg env review s Hlo) as Hs. cbn zeta in Hs.
    rewrite Hs by (unfold maxInt; lia). clear Hs.
    destruct (testMode cfg).
    + eexists _, _, "". split; [done|]. split; [|done]. split; auto.
    + destruct (net env (length (posted s))) as [|code] eqn:Hnet.
      * eexists _, _, _. split; [done|]. split; [|done].
        split; [done|]. intros [|]; discriminate.
      * case_bool_decide as Hcode.
        -- eexists _, _, _. split; [done|]. split; [|done].
           split; [done|]. intros [|[= ->]]; [discriminate|done].
        -- eexists _, _, _. split; [done|]. split; [|done].
           split; [|done]. intros _. right. f_equal.
           destruct (decide (code = 200)); [done|]. by destruct Hcode.
Qed.

End NotifierOutcome.

Section Configuration.

(** X15.  The program is in live mode only when TEST_MODE is set to one
    of the spellings of false that [strconv.ParseBool] accepts: when the
    variable is unset, empty or anything else, the configuration is in
    dry-run mode. *)
Theorem live_mode_needs_explicit_false (environ : gmap string string) :
  testMode (configuration environ) = false
  ↔ ∃ value, environ !! "TEST_MODE" = Some value
             ∧ value ∈ ["0"; "f"; "F"; "FALSE"; "false"; "False"].
Proof.
  cbn [configuration testMode]. unfold getEnvBool, ParseBool.
  destruct (environ !! "TEST_MODE") as [value|]; [|split; [done|intros (? & [=] & _)]].
  case_bool_decide as Ht.
  - split; [done|]. intros (v & [= <-] & Hin).
    exfalso. clear -Ht Hin. set_unfold. destruct Ht as [|[|[|[|[|[|[]]]]]]];
      destruct Hin as [|[|[|[|[|[|[]]]]]]]; congruence.
  - case_bool_decide as Hf.
    + split; [eauto|done].
    + split; [done|]. intros (v & [= <-] & Hin). done.
Qed.

End Configuration.

Section RatingRangeArgument.

Lemma Split_length sep s : length (Split sep s) = S (count_byte sep s).
Proof.
  induction s as [|c rest IH]; [done|]. cbn [Split count_byte].
  case_bool_decide.
  - cbn. by rewrite IH.
  - destruct (Split sep rest); [done|]. cbn in *. done.
Qed.

(** X16.  A range that is accepted lies within the ratings: its start is
    at least 1, its end at most 5, and the start is not above the end. *)
Theorem accepted_range_within_ratings args r :
  parseRatingRange args = inr (Some r) -> 1 <= Start r ∧ Start r <= End_ r ∧ End_ r <= 5.
Proof. intros Hp%parseRatingRange_valid. lia. Qed.

(** X17.  Every range within the ratings can be given: the argument made
    of the two numbers in decimal with a dash between them is parsed to
    that range, whatever the program name and the later arguments. *)
Theorem every_range_can_be_given prog rest start end_ :
  1 <= start -> start <= end_ -> end_ <= 5 ->
  parseRatingRange (prog :: (Itoa start +:+ "-" +:+ Itoa end_) :: rest)
  = inr (Some {| Start := start; End_ := end_ |}).
Proof.
  intros H1 H2 H3.
  assert (start = 1 ∨ start = 2 ∨ start = 3 ∨ start = 4 ∨ start = 5) as Hs by lia.
  assert (end_ = 1 ∨ end_ = 2 ∨ end_ = 3 ∨ end_ = 4 ∨ end_ = 5) as He by lia.
  destruct Hs as [->|[->|[->|[->| ->]]]];
    destruct He as [->|[->|[->|[->| ->]]]];
    try lia; reflexivity.
Qed.

(** X18.  Filtering is off only when no argument is given: the result is
    "no range, no error" exactly when the argument list holds nothing
    beyond the program name.  An argument that is not a valid range is
    never taken for "no filter". *)
Theorem no_filter_only_without_argument args :
  parseRatingRange args = inr None ↔ (length args < 2)%nat.
Proof.
  unfold parseRatingRange.
  destruct args as [|? [|arg ?]]; cbn [length]; [split; [lia|done]..|].
  split; [|lia]. intros Hp. exfalso.
  destruct (Split "-" arg) as [|part0 [|part1 [|? ?]]]; try discriminate.
  destruct (Atoi part0) as [start [|]]; cbn [negb] in Hp; [|discriminate].
  destruct (Atoi part1) as [end_ [|]]; cbn [negb] in Hp; [|discriminate].
  destruct (_ || _); [discriminate|].
  destruct (end_ <? start); discriminate.
Qed.

(** X19.  The format error is the answer exactly when the argument does
    not hold one dash: none, or more than one, as when a number is
    written with a minus sign. *)
Theorem format_error_iff_not_one_dash prog arg rest :
  parseRatingRange (prog :: arg :: rest) = inl ErrRangeFormat
  ↔ count_byte "-" arg ≠ 1%nat.
Proof.
  unfold parseRatingRange. pose proof (Split_length "-" arg) as Hlen.
  destruct (Split "-" arg) as [|part0 [|part1 [|? ?]]]; cbn [length] in Hlen.
  - split; [lia|done].
  - split; [lia|done].
  - split; [|lia]. intros Hp. exfalso.
    destruct (Atoi part0) as [start [|]]; cbn [negb] in Hp; [|discriminate].
    destruct (Atoi part1) as [end_ [|]]; cbn [negb] in Hp; [|discriminate].
    destruct (_ || _); [discriminate|].
    destruct (end_ <? start); discriminate.
  - split; [lia|done].
Qed.

End RatingRangeArgument.

Section WholeRun.
Context `{!Library}.

(** X20.  When the fetch fails, the run ends without returning, and has
    neither written the state file, nor sent a request, nor slept: only
    the log has grown. *)
Theorem failed_fetch_ends_the_run cfg env ratingRange s o s' :
  main cfg env ratingRange None s = (o, s') ->
  is_done o = false
  ∧ csv_file s' = csv_file s ∧ disk_room s' = disk_room s
  ∧ posted s' = posted s ∧ slept s' = slept s.
Proof.
  unfold main, mbind, prog_bind.
  destruct (readExistingReviews env s) as [o0 s0] eqn:Hload.
  pose proof (readExistingReviews_state _ _ _ _ Hload) as ->.
  destruct o0 as [[e|loaded]|m|m]; by intros [= <- <-].
Qed.

(** X21.  A run that panics has not written the state file: the panic
    can come only from the load or from the loop, never from the save or
    from the report, so that what was notified before the panic is not
    recorded. *)
Theorem panic_leaves_state_file cfg env ratingRange fetched s msg s' :
  main cfg env ratingRange fetched s = (Panicked msg, s') ->
  csv_file s' = csv_file s ∧ disk_room s' = disk_room s.
Proof.
  destruct fetched as [fetched|].
  2:{ unfold main, mbind, prog_bind.
      destruct (readExistingReviews env s) as [[[e|loaded]|m|m] s0] eqn:Hload;
        try discriminate.
      pose proof (readExistingReviews_state _ _ _ _ Hload) as ->. by intros [= _ <-]. }
  rewrite main_stages.
  destruct (readExistingReviews env s) as [o0 s0] eqn:Hload.
  pose proof (readExistingReviews_state _ _ _ _ Hload) as ->.
  destruct o0 as [[e|loaded]|m|m]; try discriminate; [|by intros [= _ <-]].
  destruct (reconcile _ _ _ _ _ _) as [o1 s1] eqn:Hrec.
  destruct (reconcile_effects _ _ _ _ _ _ _ _ Hrec) as (Hf & Hr & _).
  destruct o1 as [[final news]|m|m]; try discriminate; [|by intros [= _ <-]].
  destruct (saveReviews_returns env (range_map final) s1) as (err & s2 & ->).
  destruct err; [discriminate|].
  apply reconcile_done in Hrec.
  destruct (iterations_invariant _ _ _ _ _ _ _ _ _ _ _ Hrec
              (loop_invariant_start ratingRange loaded _)) as (_ & Hall & _).
  assert (∃ s3, report news s2 = (Done tt, s3)) as [s3 ->]; [|discriminate].
  unfold report. case_bool_decide; [|by eexists].
  unfold mbind, prog_bind, log_Printf, modify. apply log_new_reviews_done.
  eapply Forall_impl; [exact Hall|]. intros r (_ & _ & ? & _). done.
Qed.

End WholeRun.

(** * The claims at concrete inputs *)

Section Concrete.
Import Utc Scenario MoreScenarios.

(** The review [r4] is well formed. *)
Lemma well_formed_r4 : well_formed r4.
Proof.
  exists uc4, {| Api.Seconds := 1700000200 |}.
  split; [reflexivity|]. split; [reflexivity|]. simpl. lia.
Defined.

(** C1 at a run with range 4-5 over a notified review, a rejected one
    and a new one: the new one is a candidate. *)
Lemma C1_notification_candidate_witness :
  reconcile live webhook_ok range_4_5 (state_r1, []) [r1; r2] fresh
    = (Done (state_r1, []), fresh)
  ∧ well_formed r4
  ∧ (Api.ReviewId r4 ∉ (Api.ReviewId <$> [r1; r2]))
  ∧ state_r1 !! Api.ReviewId r4 = None
  ∧ (∃ o s', loop_body live webhook_ok range_4_5 (state_r1, []) r4 fresh = (o, s')
             ∧ attempts s' = S (attempts fresh)).
Proof.
  assert (Api.ReviewId r4 ∉ (Api.ReviewId <$> [r1; r2])) as Hfirst.
  { apply (bool_decide_unpack _). vm_compute. exact I. }
  split; [vm_compute; reflexivity|]. split; [exact well_formed_r4|].
  split; [exact Hfirst|]. split; [vm_compute; reflexivity|].
  destruct (C1_notification_candidate live webhook_ok range_4_5 state_r1 [r1; r2] r4
              (state_r1, []) fresh fresh)
    as (o & s' & Hbody & Hiff & _).
  - vm_compute. reflexivity.
  - exact well_formed_r4.
  - intros uc [= <-]. reflexivity.
  - exists o, s'. split; [exact Hbody|]. apply (Hiff Hfirst). left. vm_compute. reflexivity.
Defined.

(** C2 at the range 4-5, on a review rated 2 and on a review rated 4. *)
Lemma C2_rating_filter_witness :
  primary_comment r2 = Some uc2
  ∧ out_of_range range_4_5 (Api.StarRating uc2) = true
  ∧ loop_body dry_run webhook_ok range_4_5 (state_r1, []) r2 fresh
    = (Done (state_r1, []), fresh)
  ∧ primary_comment r4 = Some uc4
  ∧ out_of_range range_4_5 (Api.StarRating uc4) = false
  ∧ loop_body dry_run webhook_ok range_4_5 (state_r1, []) r4 fresh
    = loop_body dry_run webhook_ok None (state_r1, []) r4 fresh.
Proof.
  split; [reflexivity|]. split; [reflexivity|]. split.
  { apply (C2_rating_filter dry_run webhook_ok (state_r1, []) r2 uc2 fresh eq_refl).
    reflexivity. }
  split; [reflexivity|]. split; [reflexivity|].
  apply (C2_rating_filter dry_run webhook_ok (state_r1, []) r4 uc4 fresh eq_refl).
  reflexivity.
Defined.

(** The CSV reader of the examples reads the file of the state that
    holds r1 and r4 back as written. *)
Lemma read_as_written_r1_r4 : read_as_written (range_map state_r1_r4).
Proof. unfold read_as_written. vm_compute. reflexivity. Defined.

Lemma file_of_r1_r4 : file_of (range_map state_r1_r4) = file_r1_r4.
Proof. vm_compute. reflexivity. Defined.

(** C3 (amended) at a run of [main] in live mode in which the delivery
    for [r2] fails and the delivery for [r4] succeeds, on a disk with
    room: the file holds the rows of r1 and r4, and the next run loads
    r4 with notified = true. *)
Lemma C3_delivery_failure_isolation_witness :
  readExistingReviews webhook_500_first after_r1 = (Done (inr state_r1), after_r1)
  ∧ reconcile live webhook_500_first None (state_r1, []) [r2; r4] counted_start
    = (Done (state_r1_r4, [notified_r4]), counted_sent_r4)
  ∧ sendToWebhook live webhook_500_first (new_review r2 uc2 lm2) counted_start
    = (Done (Some (ErrStatusCode 500)), counted_sent_r2)
  ∧ sendToWebhook live webhook_500_first (new_review r4 uc4 lm4) counted_failed_r2
    = (Done None, counted_sent_r4)
  ∧ loop_body live webhook_500_first None (state_r1, []) r2 counted_start
    = (Done (state_r1, []), counted_failed_r2)
  ∧ reconcile live webhook_500_first None (state_r1, []) [r4] counted_failed_r2
    = (Done (state_r1_r4, [notified_r4]), counted_sent_r4)
  ∧ state_r1_r4 !! "r4" = Some notified_r4
  ∧ Notified notified_r4 = true
  ∧ notified_r4 ∈ [notified_r4]
  ∧ create_fails webhook_500_first = false
  ∧ has_room counted_sent_r4 (String.length (file_of (range_map state_r1_r4)))
  ∧ read_as_written (range_map state_r1_r4)
  ∧ (∃ s', main live webhook_500_first None (Some [r2; r4]) after_r1
           = (Done [notified_r4], s')
           ∧ csv_file s' = Some file_r1_r4)
  ∧ (∃ s1, saveReviews webhook_500_first (range_map state_r1_r4) counted_sent_r4
           = (Done None, s1)
       ∧ csv_file s1 = Some file_r1_r4
       ∧ ["r4"; "4"; "fine"; "Cy"; "Galaxy S23"; "2023-11-14T22:16:40Z"; "true"]
         ∈ (record_of <$> range_map state_r1_r4)
       ∧ ∃ loaded', readExistingReviews webhook_ok s1 = (Done (inr loaded'), s1)
           ∧ ∃ rB, loaded' !! "r4" = Some rB ∧ Notified rB = true).
Proof.
  assert (readExistingReviews webhook_500_first after_r1 = (Done (inr state_r1), after_r1))
    as Hload by (vm_compute; reflexivity).
  assert (reconcile live webhook_500_first None (state_r1, []) [r2; r4] counted_start
          = (Done (state_r1_r4, [notified_r4]), counted_sent_r4)) as Hrun
    by (vm_compute; reflexivity).
  assert (sendToWebhook live webhook_500_first (new_review r2 uc2 lm2) counted_start
          = (Done (Some (ErrStatusCode 500)), counted_sent_r2)) as HsA
    by (vm_compute; reflexivity).
  assert (sendToWebhook live webhook_500_first (new_review r4 uc4 lm4) counted_failed_r2
          = (Done None, counted_sent_r4)) as HsB
    by (vm_compute; reflexivity).
  assert (reconcile live webhook_500_first None (state_r1, []) [r2] counted_start
          = (Done (state_r1, []), counted_failed_r2)) as HpreB
    by (vm_compute; reflexivity).
  assert (unnotified state_r1 (Api.ReviewId r2) = true) as HuA by (vm_compute; reflexivity).
  assert (unnotified state_r1 (Api.ReviewId r4) = true) as HuB by (vm_compute; reflexivity).
  assert (has_room counted_sent_r4 (String.length (file_of (range_map state_r1_r4))))
    as Hroom by (vm_compute; exact I).
  assert (["r4"; "4"; "fine"; "Cy"; "Galaxy S23"; "2023-11-14T22:16:40Z"; "true"]
          = [ Api.ReviewId r4; Itoa (Api.StarRating uc4); cleanText (Api.Text uc4);
              Api.AuthorName r4; device_of uc4; format_RFC3339 (Api.Seconds lm4); "true" ])
    as Hrow by (vm_compute; reflexivity).
  destruct (C3_delivery_failure_isolation live webhook_500_first None after_r1 state_r1
              state_r1_r4 [notified_r4] counted_sent_r4
              [] r2 [r4] state_r1 [] counted_start uc2 lm2 (ErrStatusCode 500) counted_sent_r2
              [r2] r4 [] state_r1 [] counted_failed_r2 uc4 lm4 counted_sent_r4
              Hload Hrun eq_refl eq_refl eq_refl eq_refl eq_refl HuA HsA
              HpreB eq_refl eq_refl eq_refl HuB HsB)
    as (HA & Hcont & HB & Hn & Hnews & Hmain & Hsaved).
  split; [exact Hload|]. split; [exact Hrun|]. split; [exact HsA|]. split; [exact HsB|].
  split; [exact HA|]. split; [exact Hcont|]. split; [exact HB|]. split; [exact Hn|].
  split; [exact Hnews|]. split; [reflexivity|]. split; [exact Hroom|].
  split; [exact read_as_written_r1_r4|]. split.
  - destruct (Hmain eq_refl Hroom) as (s' & Hm & Hf). exists s'.
    split; [exact Hm|]. rewrite Hf, file_of_r1_r4. reflexivity.
  - destruct (Hsaved (range_map state_r1_r4) (reflexivity _) eq_refl Hroom)
      as (s1 & Hsave & Hf & Hin & Hnext).
    exists s1. split; [exact Hsave|]. split; [by rewrite Hf, file_of_r1_r4|].
    split; [rewrite Hrow; exact Hin|].
    exact (Hnext read_as_written_r1_r4 webhook_ok s1 eq_refl eq_refl).
Defined.

(** The claim C3 as stated fails: on a full disk, in a run in which the
    delivery for r2 fails and the delivery for r4 succeeds, [main]
    returns and reports r4 as new, and the state file is empty: r4 is
    not in the persisted state, and the next run cannot even load it. *)
Lemma C3_counterexample :
  readExistingReviews webhook_500_first after_r1_disk_full
    = (Done (inr state_r1), after_r1_disk_full)
  ∧ sendToWebhook live webhook_500_first (new_review r2 uc2 lm2) full_start
    = (Done (Some (ErrStatusCode 500)), full_sent_r2)
  ∧ sendToWebhook live webhook_500_first (new_review r4 uc4 lm4) full_failed_r2
    = (Done None, full_sent_r4)
  ∧ reconcile live webhook_500_first None (state_r1, []) [r2; r4] full_start
    = (Done (state_r1_r4, [notified_r4]), full_sent_r4)
  ∧ full_disk_live_run.1 = Done [notified_r4]
  ∧ csv_file full_disk_live_run.2 = Some ""
  ∧ ¬ (∃ loaded',
         readExistingReviews webhook_500_first full_disk_live_run.2
           = (Done (inr loaded'), full_disk_live_run.2)
         ∧ ∃ rB, loaded' !! "r4" = Some rB ∧ Notified rB = true).
Proof.
  assert ((readExistingReviews webhook_500_first full_disk_live_run.2).1
          = Panicked "runtime error: slice bounds out of range [1:0]") as Hnext
    by (vm_compute; reflexivity).
  split; [vm_compute; reflexivity|]. split; [vm_compute; reflexivity|].
  split; [vm_compute; reflexivity|]. split; [vm_compute; reflexivity|].
  split; [vm_compute; reflexivity|]. split; [vm_compute; reflexivity|].
  intros (loaded' & Hl & _). rewrite Hl in Hnext. discriminate Hnext.
Qed.

(** The same happens by design when the save reports its error: with
    the 5000-byte review delivered after the failed delivery for r2, the
    write fails, the run is fatal, and the state file is empty though
    both requests were made. *)
Example fatal_save_loses_delivered_review :
  let run := main live webhook_500_first None (Some [r2; long_review]) after_r1_disk_full in
  run.1 = Fatal "Failed to save reviews"
  ∧ length (posted run.2) = 2%nat
  ∧ failures run.2 = 1%nat
  ∧ csv_file run.2 = Some "".
Proof. repeat split; vm_compute; reflexivity. Qed.

(** C4 (amended) at the state that holds [r1], through an iteration that
    adds [r4], a save of the whole state and the load of the next run. *)
Lemma C4_notified_monotonic_witness :
  readExistingReviews webhook_500_first after_r1 = (Done (inr state_r1), after_r1)
  ∧ follows state_r1 reloaded_r1_r4
  ∧ state_r1 !! "r1" = Some notified_r1
  ∧ Notified notified_r1 = true
  ∧ (∃ r', reloaded_r1_r4 !! "r1" = Some r' ∧ Notified r' = true).
Proof.
  assert (readExistingReviews webhook_500_first after_r1 = (Done (inr state_r1), after_r1))
    as Hload by (vm_compute; reflexivity).
  assert (follows state_r1 reloaded_r1_r4) as Hfo.
  { apply (fo_next_run state_r1 state_r1_r4 (range_map state_r1_r4)
             webhook_500_first sent_r4 saved_r1_r4 webhook_ok saved_r1_r4).
    - apply (fo_iteration state_r1 live webhook_500_first None r4 state_r1 []
               failed_r2 state_r1_r4 [notified_r4] sent_r4).
      + apply fo_refl.
      + vm_compute. reflexivity.
    - reflexivity.
    - vm_compute. exact I.
    - vm_compute. reflexivity.
    - exact read_as_written_r1_r4.
    - reflexivity.
    - vm_compute. reflexivity. }
  split; [exact Hload|]. split; [exact Hfo|]. split; [reflexivity|]. split; [reflexivity|].
  apply (C4_notified_monotonic webhook_500_first after_r1 state_r1 reloaded_r1_r4 "r1"
           notified_r1 Hload Hfo); reflexivity.
Defined.

(** The claim C4 as stated fails: a run that has loaded r1 with
    notified = true and fetches nothing returns, on a disk that runs out
    of room three bytes before the end of the file; the flag column of
    the row of r1 then holds "tr", and the next run loads r1 with
    notified = false. *)
Lemma C4_counterexample :
  readExistingReviews webhook_ok after_r1_room_104
    = (Done (inr state_r1), after_r1_room_104)
  ∧ state_r1 !! "r1" = Some notified_r1
  ∧ Notified notified_r1 = true
  ∧ cut_run.1 = Done []
  ∧ csv_file cut_run.2 = Some (String.substring 0 104 file_r1)
  ∧ readExistingReviews webhook_ok cut_run.2
    = (Done (inr {[ "r1" := unnotified_r1 ]}), cut_run.2)
  ∧ ¬ (∃ r', ({[ "r1" := unnotified_r1 ]} : gmap string Review) !! "r1" = Some r'
             ∧ Notified r' = true).
Proof.
  split; [vm_compute; reflexivity|]. split; [reflexivity|]. split; [reflexivity|].
  split; [vm_compute; reflexivity|]. split; [vm_compute; reflexivity|].
  split; [vm_compute; reflexivity|].
  intros (r' & Hl & Hn). rewrite lookup_singleton_eq in Hl. injection Hl as <-.
  discriminate Hn.
Qed.

(** C5 at a first run in dry-run mode that notifies three reviews. *)
Lemma C5_idempotence_witness :
  first_run = (Done (first_state, first_news), first_run.2)
  ∧ failures first_run.2 = failures fresh
  ∧ length first_news = 3%nat
  ∧ reconcile live webhook_500_first None (first_state, []) [r1; r2; r4] first_run.2
    = (Done (first_state, []), first_run.2).
Proof.
  assert (first_run = (Done (first_state, first_news), first_run.2)) as Hrun
    by (vm_compute; reflexivity).
  split; [exact Hrun|]. split; [vm_compute; reflexivity|]. split; [vm_compute; reflexivity|].
  apply (C5_idempotence dry_run webhook_ok live webhook_500_first None ∅ [r1; r2; r4]
           first_state first_news fresh first_run.2 first_run.2 Hrun).
  vm_compute. reflexivity.
Defined.

(** C6 (amended) at a run of [main] that fetches [r2] and [r4] while
    the state holds [r1], on a disk with room: the row of r1 is in the
    file, and the next run loads r1 unchanged. *)
Lemma C6_retention_witness :
  readExistingReviews webhook_500_first after_r1 = (Done (inr state_r1), after_r1)
  ∧ reconcile live webhook_500_first None (state_r1, []) [r2; r4] counted_start
    = (Done (state_r1_r4, [notified_r4]), counted_sent_r4)
  ∧ state_r1 !! "r1" = Some notified_r1
  ∧ ("r1" ∉ (Api.ReviewId <$> [r2; r4]))
  ∧ create_fails webhook_500_first = false
  ∧ has_room counted_sent_r4 (String.length (file_of (range_map state_r1_r4)))
  ∧ read_as_written (range_map state_r1_r4)
  ∧ parse_RFC3339 (format_RFC3339 (Date notified_r1)) = Some (Date notified_r1)
  ∧ state_r1_r4 = foldl put state_r1 [notified_r4]
  ∧ state_r1_r4 !! "r1" = Some notified_r1
  ∧ (∃ s', main live webhook_500_first None (Some [r2; r4]) after_r1
           = (Done [notified_r4], s')
           ∧ csv_file s' = Some file_r1_r4)
  ∧ (∃ s2, saveReviews webhook_500_first (range_map state_r1_r4) counted_sent_r4
           = (Done None, s2)
       ∧ csv_file s2 = Some file_r1_r4
       ∧ ["r1"; "5"; "great!"; "Ann"; "Unknown"; "2023-11-14T22:13:20Z"; "true"]
         ∈ (record_of <$> range_map state_r1_r4)
       ∧ ∃ loaded', readExistingReviews webhook_ok s2 = (Done (inr loaded'), s2)
           ∧ loaded' !! "r1" = Some notified_r1).
Proof.
  assert (readExistingReviews webhook_500_first after_r1 = (Done (inr state_r1), after_r1))
    as Hload by (vm_compute; reflexivity).
  assert (reconcile live webhook_500_first None (state_r1, []) [r2; r4] counted_start
          = (Done (state_r1_r4, [notified_r4]), counted_sent_r4)) as Hrun
    by (vm_compute; reflexivity).
  assert ("r1" ∉ (Api.ReviewId <$> [r2; r4])) as Hni.
  { apply (bool_decide_unpack _). vm_compute. exact I. }
  assert (has_room counted_sent_r4 (String.length (file_of (range_map state_r1_r4))))
    as Hroom by (vm_compute; exact I).
  assert (parse_RFC3339 (format_RFC3339 (Date notified_r1)) = Some (Date notified_r1))
    as Hdate by (vm_compute; reflexivity).
  assert (["r1"; "5"; "great!"; "Ann"; "Unknown"; "2023-11-14T22:13:20Z"; "true"]
          = record_of notified_r1) as Hrow by (vm_compute; reflexivity).
  destruct (C6_retention live webhook_500_first None [r2; r4] after_r1 state_r1
              state_r1_r4 [notified_r4] counted_sent_r4 Hload Hrun)
    as (Hfinal & _ & _ & Hkeep & Hmain & Hsaved).
  split; [exact Hload|]. split; [exact Hrun|]. split; [reflexivity|]. split; [exact Hni|].
  split; [reflexivity|]. split; [exact Hroom|]. split; [exact read_as_written_r1_r4|].
  split; [exact Hdate|]. split; [exact Hfinal|].
  split; [exact (Hkeep "r1" notified_r1 eq_refl Hni)|]. split.
  - destruct (Hmain eq_refl Hroom) as (s' & Hm & Hf). exists s'.
    split; [exact Hm|]. rewrite Hf, file_of_r1_r4. reflexivity.
  - destruct (Hsaved (range_map state_r1_r4) (reflexivity _) eq_refl Hroom)
      as (s2 & Hsave & Hf & Hin & Hnext).
    exists s2. split; [exact Hsave|]. split; [by rewrite Hf, file_of_r1_r4|].
    split; [rewrite Hrow; exact (Hin "r1" notified_r1 eq_refl Hni)|].
    destruct (Hnext read_as_written_r1_r4 webhook_ok s2 eq_refl eq_refl)
      as (loaded' & Hl & _ & _ & Hsame).
    exists loaded'. split; [exact Hl|]. exact (Hsame "r1" notified_r1 eq_refl Hni Hdate).
Defined.

(** The claim C6 as stated fails: on a full disk, a run that has loaded
    r1 and fetches only r2 returns and reports r2 as new, and the state
    file, which held the row of r1, is empty: the record of r1 is not in
    the persisted state. *)
Lemma C6_counterexample :
  readExistingReviews webhook_ok after_r1_disk_full
    = (Done (inr state_r1), after_r1_disk_full)
  ∧ state_r1 !! "r1" = Some notified_r1
  ∧ ("r1" ∉ (Api.ReviewId <$> [r2]))
  ∧ emptied_run.1 = Done [set_Notified (new_review r2 uc2 lm2)]
  ∧ csv_file after_r1_disk_full = Some file_r1
  ∧ csv_file emptied_run.2 = Some ""
  ∧ ¬ (∃ loaded',
         readExistingReviews webhook_ok emptied_run.2 = (Done (inr loaded'), emptied_run.2)
         ∧ loaded' !! "r1" = Some notified_r1).
Proof.
  assert ((readExistingReviews webhook_ok emptied_run.2).1
          = Panicked "runtime error: slice bounds out of range [1:0]") as Hnext
    by (vm_compute; reflexivity).
  split; [vm_compute; reflexivity|]. split; [reflexivity|].
  split; [apply (bool_decide_unpack _); vm_compute; exact I|].
  split; [vm_compute; reflexivity|]. split; [reflexivity|].
  split; [vm_compute; reflexivity|].
  intros (loaded' & Hl & _). rewrite Hl in Hnext. discriminate Hnext.
Qed.

(** C7.  The pacing delay is not observed on the failure branch that
    reached the network: in live mode, when the webhook answers the
    request with status 500, [sendToWebhook] returns the error at once;
    the request has been made and no time has been slept. *)
Theorem C7_no_delay_after_failed_status :
  sendToWebhook live webhook_500_first (new_review r2 uc2 lm2) fresh
  = (Done (Some (ErrStatusCode 500)), sent_after_500)
  ∧ length (posted sent_after_500) = 1%nat
  ∧ slept sent_after_500 = slept fresh.
Proof. repeat split; vm_compute; reflexivity. Qed.

(** C8.  A review with an empty comments list is not skipped: indexing
    its first comment panics, the run crashes there, nothing is logged
    for the record, the review after it is not processed and the state
    file is not written. *)
Theorem C8_empty_comments_crash :
  main live webhook_ok None (Some [no_comments; r4]) after_r1
  = (Panicked "runtime error: index out of range [0] with length 0",
     add_log (LogFetched 2) (add_log (LogFound 1) after_r1)).
Proof. vm_compute. reflexivity. Qed.



(** The run of the counterexample: it is fatal, and the state file that
    held the record of r1 is empty afterwards. *)
Example full_disk_run_loses_state :
  (main dry_run webhook_ok None (Some [long_review]) after_r1_disk_full).1
    = Fatal "Failed to save reviews"
  ∧ csv_file after_r1_disk_full = Some file_r1
  ∧ csv_file (main dry_run webhook_ok None (Some [long_review]) after_r1_disk_full).2
    = Some "".
Proof. repeat split; vm_compute; reflexivity. Qed.

(** A return of [saveReviews] without error does not mean the records
    are in the file: on a full disk the short records of [r2] stay in the
    buffer, the flush at the return fails, its error is dropped, [main]
    reports the new review and the state file is empty. *)
Example save_nil_without_records :
  (main dry_run webhook_ok None (Some [r2]) after_r1_disk_full).1
    = Done [set_Notified (new_review r2 uc2 lm2)]
  ∧ csv_file (main dry_run webhook_ok None (Some [r2]) after_r1_disk_full).2 = Some "".
Proof. split; vm_compute; reflexivity. Qed.

(** A file cut short inside a row is still read: when the disk runs out
    of room three bytes before the end of the file, the flag column of
    the last row holds "tr", and the next load takes the flag as
    false. *)
Example partial_row_read_as_unnotified :
  let run := main dry_run webhook_ok None (Some []) after_r1_room_104 in
  run.1 = Done []
  ∧ csv_file run.2 = Some (String.substring 0 104 file_r1)
  ∧ (readExistingReviews webhook_ok run.2).1 = Done (inr {[ "r1" := unnotified_r1 ]}).
Proof. repeat split; vm_compute; reflexivity. Qed.

(** C10 without a state file, with a state file of two rows, with the
    header alone and with an empty file. *)
Lemma C10_load_prior_state_witness :
  csv_file fresh = None
  ∧ readExistingReviews webhook_ok fresh = (Done (inr ∅), fresh)
  ∧ csv_ReadAll file_r1 = Some [header; record_of notified_r1]
  ∧ readExistingReviews webhook_ok after_r1 = (Done (inr state_r1), after_r1)
  ∧ (∃ first rows, csv_ReadAll file_r1 = Some (first :: rows)
                   ∧ load_records ∅ rows = Done state_r1)
  ∧ csv_ReadAll (default "" (csv_file header_only)) = Some [header]
  ∧ readExistingReviews webhook_ok header_only = (Done (inr ∅), header_only)
  ∧ csv_ReadAll "" = Some []
  ∧ readExistingReviews webhook_ok empty_file
    = (Panicked "runtime error: slice bounds out of range [1:0]", empty_file).
Proof.
  assert (readExistingReviews webhook_ok after_r1 = (Done (inr state_r1), after_r1))
    as Hload by (vm_compute; reflexivity).
  assert (csv_ReadAll (default "" (csv_file header_only)) = Some [header]) as Hheader
    by (vm_compute; reflexivity).
  split; [reflexivity|]. split.
  { apply (C10_load_prior_state webhook_ok fresh). reflexivity. }
  split; [vm_compute; reflexivity|]. split; [exact Hload|]. split.
  { apply (proj1 (proj2 (C10_load_prior_state webhook_ok after_r1))
             file_r1 state_r1 after_r1 eq_refl Hload). }
  split; [exact Hheader|]. split.
  { apply (proj1 (proj2 (proj2 (C10_load_prior_state webhook_ok header_only)))
             _ header eq_refl eq_refl Hheader). }
  assert (csv_ReadAll "" = Some []) as Hempty by (vm_compute; reflexivity).
  split; [exact Hempty|].
  apply (proj2 (proj2 (proj2 (C10_load_prior_state webhook_ok empty_file)))
           "" eq_refl eq_refl Hempty).
Defined.

End Concrete.

(** * The further properties at concrete inputs *)

Section MoreConcrete.
Import Utc Scenario MoreScenarios.

Lemma notified_r1_reads_back : row_reads_back notified_r1.
Proof. split; [unfold is_int, minInt, maxInt; cbn; lia | vm_compute; reflexivity]. Defined.

Lemma notified_r4_reads_back : row_reads_back notified_r4.
Proof. split; [unfold is_int, minInt, maxInt; cbn; lia | vm_compute; reflexivity]. Defined.

Lemma keyed_state_r1_r4 : keyed state_r1_r4.
Proof.
  intros id review Hl. unfold state_r1_r4, state_r1 in Hl.
  apply lookup_insert_Some in Hl as [[<- <-]|[_ [<- <-]%lookup_singleton_Some]];
    reflexivity.
Defined.

(** X1 at the record of r1. *)
Lemma save_load_record_witness :
  is_int (Rating notified_r1)
  ∧ parse_RFC3339 (format_RFC3339 (Date notified_r1)) = Some (Date notified_r1)
  ∧ load_record ∅ (record_of notified_r1) = Done (<["r1" := notified_r1]> ∅).
Proof.
  destruct notified_r1_reads_back as [Hint Hdate].
  split; [exact Hint|]. split; [exact Hdate|].
  exact (save_load_record ∅ notified_r1 Hint Hdate).
Defined.

(** X2 at the state set that holds r1 and r4, saved after the file held
    the record of r1 alone. *)
Lemma save_load_state_witness :
  keyed state_r1_r4
  ∧ Forall row_reads_back (range_map state_r1_r4)
  ∧ create_fails webhook_ok = false
  ∧ has_room after_r1 (String.length (file_of (range_map state_r1_r4)))
  ∧ read_as_written (range_map state_r1_r4)
  ∧ open_fails webhook_500_first = false
  ∧ (∃ s1, saveReviews webhook_ok (range_map state_r1_r4) after_r1 = (Done None, s1)
       ∧ csv_file s1 = Some file_r1_r4
       ∧ readExistingReviews webhook_500_first s1 = (Done (inr state_r1_r4), s1)).
Proof.
  assert (Forall row_reads_back (range_map state_r1_r4)) as Hall.
  { apply Forall_forall. intros r (id & Hr)%elem_of_range_map.
    unfold state_r1_r4, state_r1 in Hr.
    apply lookup_insert_Some in Hr as [[_ <-]|[_ [_ <-]%lookup_singleton_Some]].
    - exact notified_r4_reads_back.
    - exact notified_r1_reads_back. }
  assert (has_room after_r1 (String.length (file_of (range_map state_r1_r4)))) as Hroom
    by exact I.
  split; [exact keyed_state_r1_r4|]. split; [exact Hall|]. split; [reflexivity|].
  split; [exact Hroom|]. split; [exact read_as_written_r1_r4|]. split; [reflexivity|].
  destruct (save_load_state webhook_ok webhook_500_first state_r1_r4 (range_map state_r1_r4)
              after_r1 keyed_state_r1_r4 (reflexivity _) Hall eq_refl Hroom
              read_as_written_r1_r4 eq_refl) as (s1 & Hsave & Hf & Hnext).
  exists s1. split; [exact Hsave|]. split; [by rewrite Hf, file_of_r1_r4|].
  exact (Hnext s1 eq_refl).
Defined.

(** X3 at the state file that holds the record of r1. *)
Lemma load_needs_seven_fields_witness :
  csv_file after_r1 = Some file_r1
  ∧ open_fails webhook_ok = false
  ∧ csv_ReadAll file_r1 = Some [header; record_of notified_r1]
  ∧ ((∃ loaded, readExistingReviews webhook_ok after_r1 = (Done (inr loaded), after_r1))
     ↔ Forall (fun row => (7 <= length row)%nat) [record_of notified_r1])
  ∧ ((∃ msg, readExistingReviews webhook_ok after_r1 = (Panicked msg, after_r1))
     ↔ Exists (fun row => (length row < 7)%nat) [record_of notified_r1]).
Proof.
  assert (csv_ReadAll file_r1 = Some [header; record_of notified_r1]) as Hread
    by (vm_compute; reflexivity).
  split; [reflexivity|]. split; [reflexivity|]. split; [exact Hread|].
  exact (load_needs_seven_fields webhook_ok after_r1 file_r1 header [record_of notified_r1]
           eq_refl eq_refl Hread).
Defined.

(** X4 at a file with two rows for r1: the second one is loaded. *)
Lemma load_last_row_wins_witness :
  load_records ∅ ([row_r1 "false"] ++ row_r1 "true" :: []) = Done state_r1
  ∧ Forall (fun row : list string => row !! 0%nat ≠ Some "r1") []
  ∧ state_r1 !! "r1"
    = Some (review_of_row "r1" "5" "great!" "Ann" "Unknown" "2023-11-14T22:13:20Z" "true").
Proof.
  assert (load_records ∅ ([row_r1 "false"] ++ row_r1 "true" :: []) = Done state_r1) as Hload
    by (vm_compute; reflexivity).
  split; [exact Hload|]. split; [constructor|].
  exact (load_last_row_wins ∅ state_r1 [row_r1 "false"] []
           "r1" "5" "great!" "Ann" "Unknown" "2023-11-14T22:13:20Z" "true" [] Hload
           (Forall_nil_2 _)).
Defined.

(** X5 at the run in live mode over r2 and r4. *)
Lemma loop_leaves_file_and_bounds_attempts_witness :
  reconcile live webhook_500_first None (state_r1, []) [r2; r4] after_r1
    = (Done (state_r1_r4, [notified_r4]), sent_r4)
  ∧ csv_file sent_r4 = csv_file after_r1 ∧ disk_room sent_r4 = disk_room after_r1
  ∧ (attempts after_r1 <= attempts sent_r4 <= attempts after_r1 + length [r2; r4])%nat.
Proof.
  assert (reconcile live webhook_500_first None (state_r1, []) [r2; r4] after_r1
          = (Done (state_r1_r4, [notified_r4]), sent_r4)) as Hrun
    by (vm_compute; reflexivity).
  split; [exact Hrun|].
  exact (loop_leaves_file_and_bounds_attempts live webhook_500_first None [r2; r4]
           (state_r1, []) after_r1 _ sent_r4 Hrun).
Defined.

(** X6 at the first run in dry-run mode. *)
Lemma dry_run_makes_no_request_witness :
  testMode dry_run = true
  ∧ reconcile dry_run webhook_ok None (∅, []) [r1; r2; r4] fresh = (first_run.1, first_run.2)
  ∧ posted first_run.2 = posted fresh ∧ failures first_run.2 = failures fresh.
Proof.
  assert (reconcile dry_run webhook_ok None (∅, []) [r1; r2; r4] fresh
          = (first_run.1, first_run.2)) as Hrun by apply surjective_pairing.
  split; [reflexivity|]. split; [exact Hrun|].
  exact (dry_run_makes_no_request dry_run webhook_ok None [r1; r2; r4] (∅, []) fresh
           first_run.1 first_run.2 eq_refl Hrun).
Defined.

(** X7 at the run in live mode over r2 and r4. *)
Lemma new_reviews_distinct_and_stored_witness :
  reconcile live webhook_500_first None (state_r1, []) [r2; r4] after_r1
    = (Done (state_r1_r4, [notified_r4]), sent_r4)
  ∧ NoDup (ReviewID <$> [notified_r4])
  ∧ Forall (fun r => state_r1_r4 !! ReviewID r = Some r ∧ Notified r = true) [notified_r4].
Proof.
  assert (reconcile live webhook_500_first None (state_r1, []) [r2; r4] after_r1
          = (Done (state_r1_r4, [notified_r4]), sent_r4)) as Hrun
    by (vm_compute; reflexivity).
  split; [exact Hrun|].
  exact (new_reviews_distinct_and_stored live webhook_500_first None state_r1 [r2; r4]
           after_r1 state_r1_r4 [notified_r4] sent_r4 Hrun).
Defined.

(** X8 at the same run: one new review, two seconds. *)
Lemma loop_sleeps_two_seconds_per_new_review_witness :
  reconcile live webhook_500_first None (state_r1, []) [r2; r4] after_r1
    = (Done (state_r1_r4, [notified_r4]), sent_r4)
  ∧ slept sent_r4 = slept after_r1 + 2 * Second * Z.of_nat (length [notified_r4]).
Proof.
  assert (reconcile live webhook_500_first None (state_r1, []) [r2; r4] after_r1
          = (Done (state_r1_r4, [notified_r4]), sent_r4)) as Hrun
    by (vm_compute; reflexivity).
  split; [exact Hrun|].
  exact (loop_sleeps_two_seconds_per_new_review live webhook_500_first None state_r1
           [r2; r4] after_r1 state_r1_r4 [notified_r4] sent_r4 Hrun).
Defined.

(** X9 at a first run with the range 4-5. *)
Lemma new_reviews_within_range_witness :
  reconcile dry_run webhook_ok (Some {| Start := 4; End_ := 5 |}) (∅, []) [r1; r2; r4] fresh
    = (Done (filtered_state, filtered_news), filtered_run.2)
  ∧ length filtered_news = 2%nat
  ∧ Forall (fun r => 4 <= Rating r <= 5) filtered_news.
Proof.
  assert (reconcile dry_run webhook_ok (Some {| Start := 4; End_ := 5 |}) (∅, [])
            [r1; r2; r4] fresh
          = (Done (filtered_state, filtered_news), filtered_run.2)) as Hrun
    by (vm_compute; reflexivity).
  split; [exact Hrun|]. split; [vm_compute; reflexivity|].
  exact (new_reviews_within_range dry_run webhook_ok {| Start := 4; End_ := 5 |} ∅
           [r1; r2; r4] fresh filtered_state filtered_news filtered_run.2 Hrun).
Defined.

(** X10 at the run in live mode over r2 and r4, from the state file that
    holds r1. *)
Lemma saved_rows_have_distinct_ids_witness :
  readExistingReviews webhook_500_first after_r1 = (Done (inr state_r1), after_r1)
  ∧ reconcile live webhook_500_first None (state_r1, []) [r2; r4] after_r1
    = (Done (state_r1_r4, [notified_r4]), sent_r4)
  ∧ keyed state_r1 ∧ keyed state_r1_r4 ∧ NoDup (ReviewID <$> range_map state_r1_r4).
Proof.
  assert (readExistingReviews webhook_500_first after_r1 = (Done (inr state_r1), after_r1))
    as Hload by (vm_compute; reflexivity).
  assert (reconcile live webhook_500_first None (state_r1, []) [r2; r4] after_r1
          = (Done (state_r1_r4, [notified_r4]), sent_r4)) as Hrun
    by (vm_compute; reflexivity).
  split; [exact Hload|]. split; [exact Hrun|].
  exact (saved_rows_have_distinct_ids live webhook_500_first webhook_500_first None
           after_r1 after_r1 state_r1 [] [r2; r4] after_r1 state_r1_r4 [notified_r4]
           sent_r4 Hload Hrun).
Defined.

(** X11 at the run [live_run]. *)
Lemma main_returns_after_save_witness :
  readExistingReviews webhook_500_first after_r1 = (Done (inr state_r1), after_r1)
  ∧ counted_loop = (Done (state_r1_r4, [notified_r4]), counted_loop.2)
  ∧ counted_save = (Done None, counted_save.2)
  ∧ (∃ s3, main live webhook_500_first None (Some [r2; r4]) after_r1
           = (Done [notified_r4], s3)
           ∧ csv_file s3 = csv_file counted_save.2
           ∧ disk_room s3 = disk_room counted_save.2).
Proof.
  assert (readExistingReviews webhook_500_first after_r1 = (Done (inr state_r1), after_r1))
    as Hload by (vm_compute; reflexivity).
  assert (counted_loop = (Done (state_r1_r4, [notified_r4]), counted_loop.2)) as Hloop
    by (vm_compute; reflexivity).
  assert (counted_save = (Done None, counted_save.2)) as Hsave
    by (vm_compute; reflexivity).
  split; [exact Hload|]. split; [exact Hloop|]. split; [exact Hsave|].
  exact (main_returns_after_save live webhook_500_first None [r2; r4] after_r1 state_r1
           state_r1_r4 [notified_r4] counted_loop.2 counted_save.2 Hload Hloop Hsave).
Defined.

(** X12 at a disk with room for 104 bytes, for a state that takes 107:
    no error is returned and the file holds the first 104 bytes. *)
Lemma small_state_saved_without_error_witness :
  create_fails webhook_ok = false
  ∧ (String.length (csv_text (header :: (record_of <$> [notified_r1]))) <= defaultBufSize)%nat
  ∧ (∃ s', saveReviews webhook_ok [notified_r1] after_r1_room_104 = (Done None, s')
           ∧ only_file after_r1_room_104 s'
           ∧ csv_file s'
             = Some (String.substring 0 104 (csv_text (header :: (record_of <$> [notified_r1]))))).
Proof.
  assert (String.length (csv_text (header :: (record_of <$> [notified_r1])))
          <= defaultBufSize)%nat as Hlen
    by (apply Nat.leb_le; vm_compute; reflexivity).
  split; [reflexivity|]. split; [exact Hlen|].
  destruct (small_state_saved_without_error webhook_ok [notified_r1] after_r1_room_104
              eq_refl Hlen) as (s' & Hsave & Honly & Hfile).
  exists s'. split; [exact Hsave|]. split; [exact Honly|].
  rewrite Hfile. vm_compute. reflexivity.
Defined.

(** X13 at a state file that held another text before. *)
Lemma save_overwrites_with_all_rows_witness :
  create_fails webhook_ok = false
  ∧ disk_room after_r1 = None
  ∧ saveReviews webhook_ok [notified_r4; notified_r1] after_r1
    = (Done None,
       set_file (Some (csv_text (header :: (record_of <$> [notified_r4; notified_r1]))))
         None after_r1).
Proof.
  split; [reflexivity|]. split; [reflexivity|].
  exact (save_overwrites_with_all_rows webhook_ok [notified_r4; notified_r1] after_r1
           eq_refl eq_refl).
Defined.

(** X14 at the delivery for r2 that the webhook answers with 500. *)
Lemma notifier_outcome_witness :
  0 <= Rating (new_review r2 uc2 lm2) <= 5
  ∧ ∃ err s' text,
      sendToWebhook live webhook_500_first (new_review r2 uc2 lm2) after_r1 = (Done err, s')
      ∧ (err = None
         ↔ testMode live = true ∨ net webhook_500_first (length (posted after_r1)) = Response 200)
      ∧ posted s' = (posted after_r1 ++ [(webhookURL live, text)])%list.
Proof.
  assert (0 <= Rating (new_review r2 uc2 lm2) <= 5) as Hr by (cbn; lia).
  split; [exact Hr|].
  exact (proj2 (notifier_outcome live webhook_500_first (new_review r2 uc2 lm2) after_r1) Hr).
Defined.

(** X16 at the argument 2-4. *)
Lemma accepted_range_within_ratings_witness :
  parseRatingRange ["fetcher"; "2-4"] = inr (Some {| Start := 2; End_ := 4 |})
  ∧ 1 <= 2 ∧ 2 <= 4 ∧ 4 <= 5.
Proof.
  assert (parseRatingRange ["fetcher"; "2-4"] = inr (Some {| Start := 2; End_ := 4 |}))
    as Hp by (vm_compute; reflexivity).
  split; [exact Hp|].
  exact (accepted_range_within_ratings ["fetcher"; "2-4"] {| Start := 2; End_ := 4 |} Hp).
Defined.

(** X17 at the range 3 to 5, with a further argument. *)
Lemma every_range_can_be_given_witness :
  1 <= 3 ∧ 3 <= 5 ∧ 5 <= 5
  ∧ parseRatingRange ["fetcher"; Itoa 3 +:+ "-" +:+ Itoa 5; "more"]
    = inr (Some {| Start := 3; End_ := 5 |}).
Proof.
  assert (1 <= 3) as H1 by lia. assert (3 <= 5) as H2 by lia. assert (5 <= 5) as H3 by lia.
  split; [exact H1|]. split; [exact H2|]. split; [exact H3|].
  exact (every_range_can_be_given "fetcher" ["more"] 3 5 H1 H2 H3).
Defined.

(** X20 at a run whose fetch fails. *)
Lemma failed_fetch_ends_the_run_witness :
  main live webhook_ok None None after_r1 = (Fatal "Failed to fetch reviews", unfetched_run.2)
  ∧ is_done (Fatal (A := list Review) "Failed to fetch reviews") = false
  ∧ csv_file unfetched_run.2 = csv_file after_r1
  ∧ disk_room unfetched_run.2 = disk_room after_r1
  ∧ posted unfetched_run.2 = posted after_r1 ∧ slept unfetched_run.2 = slept after_r1.
Proof.
  assert (main live webhook_ok None None after_r1
          = (Fatal "Failed to fetch reviews", unfetched_run.2)) as Hrun
    by (vm_compute; reflexivity).
  split; [exact Hrun|].
  exact (failed_fetch_ends_the_run live webhook_ok None after_r1 _ unfetched_run.2 Hrun).
Defined.

(** X21 at a run in dry-run mode that reports r1 and then panics at a
    review without comments: the state file is still missing. *)
Lemma panic_leaves_state_file_witness :
  main dry_run webhook_ok None (Some [r1; no_comments]) fresh
    = (Panicked "runtime error: index out of range [0] with length 0", interrupted_run.2)
  ∧ attempts interrupted_run.2 = 1%nat
  ∧ csv_file interrupted_run.2 = csv_file fresh
  ∧ disk_room interrupted_run.2 = disk_room fresh.
Proof.
  assert (main dry_run webhook_ok None (Some [r1; no_comments]) fresh
          = (Panicked "runtime error: index out of range [0] with length 0",
             interrupted_run.2)) as Hrun
    by (vm_compute; reflexivity).
  split; [exact Hrun|]. split; [vm_compute; reflexivity|].
  exact (panic_leaves_state_file dry_run webhook_ok None (Some [r1; no_comments]) fresh _
           interrupted_run.2 Hrun).
Defined.

End MoreConcrete.

(** * Checks of the library model and of the scenarios *)

Example Atoi_examples :
  Atoi "5" = (5, true) /\ Atoi "-12" = (-12, true) /\ Atoi "x" = (0, false)
  /\ Atoi "" = (0, false) /\ Atoi "+" = (0, false)
  /\ Atoi "9223372036854775808" = (maxInt, false).
Proof. repeat split; vm_compute; reflexivity. Qed.

(** The range error of [strconv.Atoi] comes at the digit that overflows,
    also when a byte that is no digit follows. *)
Example Atoi_range_examples :
  Atoi "99999999999999999999x" = (maxInt, false)
  /\ Atoi "-99999999999999999999x" = (minInt, false)
  /\ Atoi "9999999999999999999x" = (0, false)
  /\ Atoi "-9223372036854775808" = (minInt, true)
  /\ Atoi "-9223372036854775809" = (minInt, false)
  /\ Atoi "+7" = (7, true).
Proof. repeat split; vm_compute; reflexivity. Qed.

Example Itoa_examples : Itoa 5 = "5" /\ Itoa (-40) = "-40" /\ Itoa 0 = "0".
Proof. repeat split; vm_compute; reflexivity. Qed.

Example ParseBool_examples :
  ParseBool "true" = Some true /\ ParseBool "false" = Some false
  /\ ParseBool "tr" = None.
Proof. repeat split; vm_compute; reflexivity. Qed.

Example TrimSpace_examples :
  TrimSpace " great! " = "great!" /\ TrimSpace "" = ""
  /\ TrimSpace (String "009" (String "010" "a b  ")) = "a b"
  /\ TrimSpace "   " = "".
Proof. repeat split; vm_compute; reflexivity. Qed.

Example Utc_examples :
  Utc.rfc3339 0 = "1970-01-01T00:00:00Z" /\
  Utc.rfc3339 1700000000 = "2023-11-14T22:13:20Z" /\
  Utc.rfc1123 1700000000 = "Tue, 14 Nov 2023 22:13:20 UTC" /\
  Utc.rfc3339 951782400 = "2000-02-29T00:00:00Z" /\
  Utc.rfc3339 (-1) = "1969-12-31T23:59:59Z" /\
  Utc.parse "2023-11-14T22:13:20Z" = Some 1700000000 /\
    Utc.read_all ("a,b" +:+ String nl "1,2" +:+ String nl "") = Some [["a";"b"];["1";"2"]] /\
  Utc.read_all "" = Some [] /\
  Utc.read_all ("a,b" +:+ String nl "1" +:+ String nl "") = None.
Proof. repeat split; vm_compute; reflexivity. Qed.

Example parseRatingRange_examples :
  parseRatingRange ["review-fetcher"] = inr None
  ∧ parseRatingRange ["review-fetcher"; "1-3"] = inr (Some {| Start := 1; End_ := 3 |})
  ∧ parseRatingRange ["review-fetcher"; "3-1"] = inl ErrRangeOrder
  ∧ parseRatingRange ["review-fetcher"; "0-3"] = inl ErrRangeBounds
  ∧ parseRatingRange ["review-fetcher"; "1-2-3"] = inl ErrRangeFormat
  ∧ parseRatingRange ["review-fetcher"; "a-3"] = inl ErrStartRating.
Proof. repeat split; vm_compute; reflexivity. Qed.

(** The scenarios of the testable properties. *)

Section Scenarios.
Import Utc Scenario MoreScenarios.

(** State set empty, one review fetched with surrounding blanks in its
    text and no device metadata, no range, delivery in dry-run mode: the
    state file holds one record, notified, and one new review is
    reported. *)
Example scenario_first_review :
  main dry_run webhook_ok None (Some [r1]) fresh
  = (Done [notified_r1],
     add_log (LogNewReview 1 (repeat_string star 5) "great!" "Ann" "Unknown"
                "Tue, 14 Nov 2023 22:13:20 UTC")
       (add_log LogNewReviews
          (set_file (Some file_r1) None
             (add_sleep (2 * Second)
                (add_log (LogTestMode (message_text (repeat_string star 5) notified_r1))
                   (add_log (LogFetched 1) (add_log (LogFound 0) fresh))))))).
Proof. vm_compute. reflexivity. Qed.

(** A review already notified in the stored state is not notified
    again. *)
Example scenario_already_notified :
  main live webhook_ok None (Some [r1]) after_r1
  = (Done [], add_log LogNoNewReviews (add_log (LogFetched 1) (add_log (LogFound 1) after_r1))).
Proof. vm_compute. reflexivity. Qed.

(** Range 4-5 and fetched ratings 2, 4 and 5: the reviews rated 4 and 5
    are notified, the review rated 2 does not enter the state. *)
Example scenario_range_4_5 :
  let run := reconcile dry_run webhook_ok range_4_5 (∅, []) [r2; r4; r1] fresh in
  ReviewID <$> (value (∅, []) run.1).2 = ["r4"; "r1"]
  ∧ (value (∅, []) run.1).1 !! "r2" = None
  ∧ attempts run.2 = 2%nat.
Proof. repeat split; vm_compute; reflexivity. Qed.

(** When the file cannot be created, the run is fatal and the state file
    is what it was. *)
Example save_create_fails_file_intact :
  main dry_run no_create None (Some [r2]) after_r1
  = (Fatal "Failed to save reviews",
     add_log (LogFatal "Failed to save reviews")
       (add_sleep (2 * Second)
          (add_log (LogTestMode (message_text (repeat_string star 2) (new_review r2 uc2 lm2)))
             (add_log (LogFetched 1) (add_log (LogFound 1) after_r1))))).
Proof. vm_compute. reflexivity. Qed.

(** A text that does not fit the buffer goes to the file in one write
    once the buffer is empty: when the disk has room for 8500 of the
    9101 bytes of the file, that write fails and [saveReviews] returns
    the error; with room for all of them it returns nil and the file is
    whole. *)
Example long_text_on_short_disk :
  String.length (file_of [long_record]) = (91 * 100 + 1)%nat
  /\ (saveReviews webhook_ok [long_record]
        (disk_with_room (85 * 100))).1 = Done (Some ErrWriteRecord)
  /\ String.length
       (default "" (csv_file (saveReviews webhook_ok [long_record]
                                (disk_with_room (85 * 100))).2))
     = (85 * 100)%nat
  /\ saveReviews webhook_ok [long_record]
       (disk_with_room (92 * 100))
     = (Done None,
        {| csv_file := Some (file_of [long_record]);
           disk_room := Some 99%nat; slept := 0; logged := []; posted := [] |}).
Proof. repeat split; vm_compute; reflexivity. Qed.

End Scenarios.
